(** * Botfighter: sensors, agent policy and simulation engine

    A shallow embedding of the Python sources [server.py], [dummy_agent.py]
    and [engine.py], and the properties of the design document proved or
    refuted against it.

    Numbers.  Python [float] and [int] values that take part in geometry are
    read as real numbers ([R]): rounding, overflow, infinities and NaN are
    outside this development.  Counters and hit points are integers ([Z]). *)

From Stdlib Require Import Reals Lra Lia ZArith List String Bool Psatz Sorted.
Import ListNotations.

Open Scope R_scope.

(* ================================================================== *)
(** * Numbers *)
(* ================================================================== *)

(** Comparisons on reals as booleans. *)
Definition Rltb (a b : R) : bool := if Rlt_dec a b then true else false.
Definition Rleb (a b : R) : bool := if Rle_dec a b then true else false.
Definition Reqb (a b : R) : bool := if Req_dec_T a b then true else false.

(** [math.radians] *)
Definition radians (deg : R) : R := deg * PI / 180.

(** [math.sqrt(dx*dx + dy*dy)]: the distance both files compute by hand. *)
Definition hypot (dx dy : R) : R := sqrt (dx * dx + dy * dy).

(** [a % m] on floats, for a positive [m]: the result lies in [[0, m)]. *)
Definition py_mod (a m : R) : R := a - m * IZR (Int_part (a / m)).

(** [int(r)]: truncation toward zero. *)
Definition truncate (r : R) : Z :=
  if Rleb 0 r then Int_part r else (- Int_part (- r))%Z.

(** The point at parameter [t] on the line from [a] to [b]; it lies on the
    segment when [0 <= t <= 1]. *)
Definition along (a b : R * R) (t : R) : R * R :=
  (fst a + t * (fst b - fst a), snd a + t * (snd b - snd a)).

(* ================================================================== *)
(** * Python values, exceptions and the operations the sources apply *)
(* ================================================================== *)

Module Py.

#[local] Set Warnings "-register-all".

(** The values a decoded JSON payload or a plain data object can hold.
    A [VDict] lists its entries in insertion order, each key once; a [VObj]
    is an instance with data attributes (a pydantic model, for example),
    equal to another when their attributes are. *)
Inductive PyVal : Type :=
| VNone
| VBool (b : bool)
| VInt (z : Z)
| VFloat (r : R)
| VStr (s : string)
| VList (items : list PyVal)
| VDict (entries : list (string * PyVal))
| VObj (attrs : list (string * PyVal)).

(** The subclasses of [Exception] that these operations raise. *)
Inductive PyExc : Type :=
| TypeError | KeyError | IndexError | AttributeError | ValueError.

Inductive Result (A : Type) : Type :=
| Ok (a : A)
| Raise (e : PyExc).

Arguments Ok {A} a.
Arguments Raise {A} e.

Definition bindR {A B : Type} (c : Result A) (k : A -> Result B) : Result B :=
  match c with
  | Ok a => k a
  | Raise e => Raise e
  end.

Notation "'let?' x ':=' c 'in' k" := (bindR c (fun x => k))
  (at level 10, x name, c at level 100, k at level 200).

Fixpoint lookup (key : string) (entries : list (string * PyVal)) : option PyVal :=
  match entries with
  | [] => None
  | (k, v) :: rest => if String.eqb key k then Some v else lookup key rest
  end.

(** Truth value testing: [if v:] and [not v]. *)
Definition truthy (v : PyVal) : bool :=
  match v with
  | VNone => false
  | VBool b => b
  | VInt z => negb (Z.eqb z 0)
  | VFloat r => negb (Reqb r 0)
  | VStr s => negb (String.eqb s EmptyString)
  | VList items => match items with [] => false | _ => true end
  | VDict entries => match entries with [] => false | _ => true end
  | VObj _ => true
  end.

(** The number behind an operand of arithmetic, [abs] or a comparison with
    a number; [bool] is a subclass of [int]. *)
Definition as_num (v : PyVal) : Result R :=
  match v with
  | VBool b => Ok (if b then 1 else 0)
  | VInt z => Ok (IZR z)
  | VFloat r => Ok r
  | _ => Raise TypeError
  end.

(** [a - b] *)
Definition py_sub (a b : PyVal) : Result R :=
  let? x := as_num a in
  let? y := as_num b in
  Ok (x - y).

(** The number a value stands for in arithmetic and comparisons. *)
Definition num_of (v : PyVal) : option R :=
  match v with
  | VBool b => Some (if b then 1 else 0)
  | VInt z => Some (IZR z)
  | VFloat r => Some r
  | _ => None
  end.

(** [a == b] *)
Fixpoint py_eq (a b : PyVal) {struct a} : bool :=
  match a, b with
  | VNone, VNone => true
  | VStr s, VStr t => String.eqb s t
  | VList xs, VList ys =>
      (fix all2 (xs ys : list PyVal) {struct xs} : bool :=
         match xs, ys with
         | [], [] => true
         | x :: xs', y :: ys' => py_eq x y && all2 xs' ys'
         | _, _ => false
         end) xs ys
  | VDict d1, VDict d2 =>
      Nat.eqb (List.length d1) (List.length d2)
      && (fix sub (d : list (string * PyVal)) {struct d} : bool :=
            match d with
            | [] => true
            | (k, v) :: rest =>
                match lookup k d2 with
                | Some v' => py_eq v v'
                | None => false
                end && sub rest
            end) d1
  | VObj a1, VObj a2 =>
      Nat.eqb (List.length a1) (List.length a2)
      && (fix sub (d : list (string * PyVal)) {struct d} : bool :=
            match d with
            | [] => true
            | (k, v) :: rest =>
                match lookup k a2 with
                | Some v' => py_eq v v'
                | None => false
                end && sub rest
            end) a1
  | _, _ =>
      match num_of a, num_of b with
      | Some x, Some y => Reqb x y
      | _, _ => false
      end
  end.

(** [a < b]: numbers by value, strings and lists lexicographically, a
    [TypeError] for any other pair. *)
Fixpoint py_lt (a b : PyVal) {struct a} : Result bool :=
  match a, b with
  | VStr s, VStr t => Ok (String.ltb s t)
  | VList xs, VList ys =>
      (fix lex (xs ys : list PyVal) {struct xs} : Result bool :=
         match xs, ys with
         | [], [] => Ok false
         | [], _ :: _ => Ok true
         | _ :: _, [] => Ok false
         | x :: xs', y :: ys' => if py_eq x y then lex xs' ys' else py_lt x y
         end) xs ys
  | _, _ =>
      match num_of a, num_of b with
      | Some x, Some y => Ok (Rltb x y)
      | _, _ => Raise TypeError
      end
  end.

(** [v.get(key, default)] *)
Definition py_get (v : PyVal) (key : string) (default : PyVal) : Result PyVal :=
  match v with
  | VDict entries =>
      match lookup key entries with
      | Some x => Ok x
      | None => Ok default
      end
  | _ => Raise AttributeError
  end.

(** Sequence indexing with Python's negative indices. *)
Definition index_list {A : Type} (items : list A) (i : Z) : option A :=
  let n := Z.of_nat (List.length items) in
  let j := if (i <? 0)%Z then (i + n)%Z else i in
  if ((0 <=? j) && (j <? n))%Z then nth_error items (Z.to_nat j) else None.

Fixpoint chars (s : string) : list PyVal :=
  match s with
  | EmptyString => []
  | String c rest => VStr (String c EmptyString) :: chars rest
  end.

Definition as_index (key : PyVal) : Result Z :=
  match key with
  | VBool b => Ok (if b then 1 else 0)%Z
  | VInt z => Ok z
  | _ => Raise TypeError
  end.

(** [v[key]] *)
Definition py_getitem (v key : PyVal) : Result PyVal :=
  match v with
  | VDict entries =>
      match key with
      | VStr k =>
          match lookup k entries with
          | Some x => Ok x
          | None => Raise KeyError
          end
      | VList _ | VDict _ => Raise TypeError     (* unhashable *)
      | _ => Raise KeyError
      end
  | VList items =>
      let? i := as_index key in
      match index_list items i with
      | Some x => Ok x
      | None => Raise IndexError
      end
  | VStr s =>
      let? i := as_index key in
      match index_list (chars s) i with
      | Some x => Ok x
      | None => Raise IndexError
      end
  | _ => Raise TypeError
  end.

(** [for x in v] *)
Definition py_iter (v : PyVal) : Result (list PyVal) :=
  match v with
  | VList items => Ok items
  | VDict entries => Ok (map (fun kv => VStr (fst kv)) entries)
  | VStr s => Ok (chars s)
  | _ => Raise TypeError
  end.

(** [len(v)] *)
Definition py_len (v : PyVal) : Result Z :=
  match v with
  | VList items => Ok (Z.of_nat (List.length items))
  | VDict entries => Ok (Z.of_nat (List.length entries))
  | VStr s => Ok (Z.of_nat (String.length s))
  | _ => Raise TypeError
  end.

Definition is_str (s : string) (v : PyVal) : bool :=
  match v with
  | VStr t => String.eqb t s
  | _ => false
  end.

Fixpoint has_substring (needle hay : string) : bool :=
  String.prefix needle hay
  || match hay with
     | EmptyString => false
     | String _ rest => has_substring needle rest
     end.

(** [needle in v] for a string [needle] *)
Definition py_contains (needle : string) (v : PyVal) : Result bool :=
  match v with
  | VDict entries =>
      Ok (match lookup needle entries with Some _ => true | None => false end)
  | VList items => Ok (existsb (is_str needle) items)
  | VStr s => Ok (has_substring needle s)
  | _ => Raise TypeError
  end.

(** [getattr(v, name)] where [hasattr(v, name)], else [None]. *)
Definition attribute (v : PyVal) (name : string) : option PyVal :=
  match v with
  | VObj attrs => lookup name attrs
  | _ => None
  end.

(** [items.sort(key=lambda x: x[field])]: the keys are computed first, then
    the items are ordered by [<] on the keys, equal keys keeping their
    order. *)
Fixpoint keyed (field : string) (items : list PyVal) : Result (list (PyVal * PyVal)) :=
  match items with
  | [] => Ok []
  | x :: rest =>
      let? k := py_getitem x (VStr field) in
      let? ks := keyed field rest in
      Ok ((k, x) :: ks)
  end.

Fixpoint insert_keyed (kx : PyVal * PyVal) (sorted : list (PyVal * PyVal))
    : Result (list (PyVal * PyVal)) :=
  match sorted with
  | [] => Ok [kx]
  | ky :: rest =>
      let? before := py_lt (fst ky) (fst kx) in
      if before
      then let? tail := insert_keyed kx rest in Ok (ky :: tail)
      else Ok (kx :: ky :: rest)
  end.

Fixpoint sort_keyed (items : list (PyVal * PyVal)) : Result (list (PyVal * PyVal)) :=
  match items with
  | [] => Ok []
  | kx :: rest =>
      let? sorted := sort_keyed rest in
      insert_keyed kx sorted
  end.

Definition sort_by (field : string) (items : list PyVal) : Result (list PyVal) :=
  let? ks := keyed field items in
  let? sorted := sort_keyed ks in
  Ok (map snd sorted).

(** A body that reads and mutates a state [S] and either returns or
    raises; the mutations made before a [raise] stay. *)
Definition SE (S A : Type) : Type := S -> Result A * S.

Definition ret {S A : Type} (a : A) : SE S A := fun st => (Ok a, st).

Definition bind {S A B : Type} (c : SE S A) (k : A -> SE S B) : SE S B :=
  fun st =>
    match c st with
    | (Ok a, st') => k a st'
    | (Raise e, st') => (Raise e, st')
    end.

Definition lift {S A : Type} (r : Result A) : SE S A := fun st => (r, st).

Definition get {S : Type} : SE S S := fun st => (Ok st, st).

Definition put {S : Type} (st' : S) : SE S unit := fun _ => (Ok tt, st').

(** [try: body  except Exception as e: handler] *)
Definition try_except {S A : Type} (body : SE S A) (handler : PyExc -> SE S A) : SE S A :=
  fun st =>
    match body st with
    | (Ok a, st') => (Ok a, st')
    | (Raise e, st') => handler e st'
    end.

Notation "x <- c ;; k" := (bind c (fun x => k))
  (at level 61, c at next level, right associativity).
Notation "c ;;; k" := (bind c (fun _ => k))
  (at level 61, right associativity).

End Py.
(* ================================================================== *)
(** * dummy_agent.py: the decision policy *)
(* ================================================================== *)

Module Agent.
Import Py.

(** The command dict [{"rotate": .., "thrust": .., "shoot": ..}]. *)
Record Command : Type := mkCommand
  { rotate : R; thrust : R; shoot : bool }.

Definition neutral : Command := mkCommand 0 0 false.

(** [self.stuck_detection] *)
Record StuckDetection : Type := mkStuck
  { position : option (PyVal * PyVal);
    last_position : option (PyVal * PyVal);
    check_time : R;
    last_check_time : R;
    is_stuck : bool;
    stuck_count : Z;
    escape_direction : Z }.

(** The attributes of a [DummyAgent]; [wall_memory] is never read or
    written after [__init__] and is left out. *)
Record DummyAgent : Type := mkAgent
  { ship_index : Z;
    last_direction_change : R;
    current_rotation : R;
    last_actions : Command;
    target_memory : PyVal;
    stuck_detection : StuckDetection }.

(** The three readings of [time.time()] that [__init__] takes, in order. *)
Record Birth : Type := mkBirth
  { t_direction : R; t_check : R; t_last_check : R }.

(** [DummyAgent.__init__(ship_index)] *)
Definition init (ship_index : Z) (t : Birth) : DummyAgent :=
  mkAgent ship_index (t_direction t) 0 (mkCommand 0 0 false)
    (VDict [("type", VNone); ("position", VNone); ("last_seen", VInt 0)]%string)
    (mkStuck None None (t_check t) (t_last_check t) false 0 1).

(** What one call reads from the outside: the clock and the [random]
    module, each field the value one call site obtains. *)
Record Env : Type := mkEnv
  { now : R;                (* time.time() in decide_from_sensors *)
    now_update : R;         (* time.time() in _update_stuck_detection *)
    uniform_rotate : R;     (* random.uniform(-3, 3) *)
    uniform_thrust : R;     (* random.uniform(0.1, 0.5) *)
    random_shoot : R;       (* random.random() in _random_action *)
    choice_sign : Z;        (* random.choice([-1, 1]) *)
    uniform_heading : R;    (* random.uniform(-2, 2) *)
    random_legacy : R;      (* random.random() in _legacy_decide *)
    legacy_rotate : R;      (* random.uniform(-5, 5) *)
    legacy_thrust : R;      (* random.uniform(0, 1) *)
    legacy_shoot : R }.     (* random.random(), second draw of _legacy_decide *)

(** A method of the agent: a body over [self]. *)
Definition M (A : Type) : Type := SE DummyAgent A.

Definition set_stuck_detection (self : DummyAgent) (sd : StuckDetection) : DummyAgent :=
  mkAgent (ship_index self) (last_direction_change self) (current_rotation self)
    (last_actions self) (target_memory self) sd.

Definition set_target_memory (self : DummyAgent) (tm : PyVal) : DummyAgent :=
  mkAgent (ship_index self) (last_direction_change self) (current_rotation self)
    (last_actions self) tm (stuck_detection self).

Definition set_exploration (self : DummyAgent) (rotation t : R) : DummyAgent :=
  mkAgent (ship_index self) t rotation
    (last_actions self) (target_memory self) (stuck_detection self).

(** [1 if angle > 0 else -1] *)
Definition sign_of (angle : R) : R := if Rltb 0 angle then 1 else -1.

(** [_calculate_turn_rate(angle, aggressive)] on a number. *)
Definition turn_rate (angle : R) (aggressive : bool) : R :=
  if negb aggressive then
    if Rltb (Rabs angle) 20 then angle * 0.15
    else if Rltb (Rabs angle) 90 then 3 * sign_of angle
    else 4 * sign_of angle
  else
    if Rltb (Rabs angle) 20 then angle * 0.2
    else if Rltb (Rabs angle) 90 then 5 * sign_of angle
    else 8 * sign_of angle.

(** [_calculate_turn_rate(angle, aggressive=False)] *)
Definition _calculate_turn_rate (angle : PyVal) (aggressive : bool) : Result R :=
  let? a := as_num angle in
  Ok (turn_rate a aggressive).

(** [_random_action()] *)
Definition _random_action (env : Env) : Command :=
  mkCommand (uniform_rotate env) (uniform_thrust env) (Rltb (random_shoot env) 0.05).

(** [_update_stuck_detection(sensor_data)] *)
Definition _update_stuck_detection (sensor_data : PyVal) (env : Env) : M unit :=
  let current_time := now_update env in
  current_pos <- lift
    match attribute sensor_data "position" with
    | Some p =>
        let? x := py_getitem p (VStr "x") in
        let? y := py_getitem p (VStr "y") in
        Ok (Some (x, y))
    | None => Ok None
    end ;;
  self <- get ;;
  let sd := stuck_detection self in
  match position sd, current_pos with
  | None, Some pos =>
      (* Initialize if first check *)
      put (set_stuck_detection self
             (mkStuck (Some pos) (Some pos) current_time current_time
                (is_stuck sd) (stuck_count sd) (escape_direction sd)))
  | _, _ =>
      sd1 <- match current_pos with
             | Some (cx, cy) =>
                 prev <- lift match position sd with
                              | Some prev => Ok prev
                              | None => Raise TypeError
                              end ;;
                 dx <- lift (py_sub cx (fst prev)) ;;
                 dy <- lift (py_sub cy (snd prev)) ;;
                 let distance_moved := hypot dx dy in
                 let '(stuck, count) :=
                   if Rltb distance_moved 5 then
                     let count := (stuck_count sd + 1)%Z in
                     (if (3 <=? count)%Z then true else is_stuck sd, count)
                   else
                     (false, Z.max 0 (stuck_count sd - 1)) in
                 ret (mkStuck (Some (cx, cy)) (position sd)
                        (check_time sd) (last_check_time sd)
                        stuck count (escape_direction sd))
             | None => ret sd
             end ;;
      (* Reset timer for next check *)
      put (set_stuck_detection self
             (mkStuck (position sd1) (last_position sd1)
                current_time (check_time sd1)
                (is_stuck sd1) (stuck_count sd1) (escape_direction sd1)))
  end.

(** The loop that sorts radar objects into [enemies] and [coins]. *)
Fixpoint partition_radar (objs enemies coins : list PyVal)
    : Result (list PyVal * list PyVal) :=
  match objs with
  | [] => Ok (enemies, coins)
  | obj :: rest =>
      let? t := py_getitem obj (VStr "type") in
      if is_str "enemy" t then partition_radar rest (enemies ++ [obj]) coins
      else if is_str "coin" t then partition_radar rest enemies (coins ++ [obj])
      else partition_radar rest enemies coins
  end.

(** The memory entry both target branches store. *)
Definition memory_of (kind : string) (distance angle : PyVal) (t : R) : PyVal :=
  VDict [("type", VStr kind); ("distance", distance); ("angle", angle);
         ("last_seen", VFloat t)]%string.

(** The body of [if enemies:] once the nearest enemy is chosen and stored. *)
Definition engage_enemy (distance angle : PyVal) : Result Command :=
  let? d := as_num distance in
  if Rltb d 100 then
    if Rltb d 50 then
      (* Too close - back up while shooting *)
      let? turn := _calculate_turn_rate angle true in
      let? a := as_num angle in
      Ok (mkCommand turn (-0.5) (Rltb (Rabs a) 15))
    else
      (* Combat range - circle strafe *)
      let? a := as_num angle in
      let circle_direction := sign_of a in
      Ok (mkCommand (3 * circle_direction) 0.3 (Rltb (Rabs a) 10))
  else
    (* Longer range - approach and shoot *)
    let? turn := _calculate_turn_rate angle false in
    let? a := as_num angle in
    Ok (mkCommand turn (if Rltb (Rabs a) 30 then 0.5 else 0.2)
          (Rltb (Rabs a) 5 && Rltb d 300)).

(** The body of [elif coins:] once the nearest coin is chosen and stored. *)
Definition collect_coin (angle : PyVal) : Result Command :=
  let? turn_rate := _calculate_turn_rate angle false in
  let? a := as_num angle in
  let thrust_value := if Rltb (Rabs a) 30 then 1.0 else 0.5 in
  Ok (mkCommand turn_rate thrust_value false).

(** The tail of [decide_from_sensors], from [# Search for objects in radar]
    on. *)
Definition seek_targets (sensor_data : PyVal) (env : Env) : M Command :=
  let current_time := now env in
  radar <- lift (py_get sensor_data "radar_objects" (VList [])) ;;
  objs <- lift (py_iter radar) ;;
  parts <- lift (partition_radar objs [] []) ;;
  let '(enemies, coins) := parts in
  match enemies, coins with
  | _ :: _, _ =>
      sorted <- lift (sort_by "distance" enemies) ;;
      nearest_enemy <- lift match sorted with
                            | e :: _ => Ok e
                            | [] => Raise IndexError
                            end ;;
      distance <- lift (py_getitem nearest_enemy (VStr "distance")) ;;
      angle <- lift (py_getitem nearest_enemy (VStr "angle")) ;;
      self <- get ;;
      put (set_target_memory self (memory_of "enemy" distance angle current_time)) ;;;
      lift (engage_enemy distance angle)
  | [], _ :: _ =>
      sorted <- lift (sort_by "distance" coins) ;;
      nearest_coin <- lift match sorted with
                           | c :: _ => Ok c
                           | [] => Raise IndexError
                           end ;;
      distance <- lift (py_getitem nearest_coin (VStr "distance")) ;;
      angle <- lift (py_getitem nearest_coin (VStr "angle")) ;;
      self <- get ;;
      put (set_target_memory self (memory_of "coin" distance angle current_time)) ;;;
      lift (collect_coin angle)
  | [], [] =>
      self <- get ;;
      kind <- lift (py_getitem (target_memory self) (VStr "type")) ;;
      recent <- lift (if truthy kind then
                        let? seen := py_getitem (target_memory self) (VStr "last_seen") in
                        let? t := as_num seen in
                        Ok (Rltb (current_time - t) 2.0)
                      else Ok false) ;;
      if recent then
        (* Continue moving toward the last known position *)
        angle <- lift (py_getitem (target_memory self) (VStr "angle")) ;;
        turn <- lift (_calculate_turn_rate angle false) ;;
        ret (mkCommand turn 0.7 false)
      else
        (* No objects detected - explore *)
        (if Rltb 3.0 (current_time - last_direction_change self)
         then put (set_exploration self (uniform_heading env) current_time)
         else ret tt) ;;;
        self <- get ;;
        ret (mkCommand (current_rotation self) 0.5 false)
  end.

(** The wall rules of [decide_from_sensors], from
    [# Enhanced wall detection] on, and then the search for targets. *)
Definition avoid_walls_or_seek (sensor_data : PyVal) (env : Env) : M Command :=
  self <- get ;;
  laser_hit <- lift (py_get sensor_data "laser_hit" (VBool false)) ;;
  avoid <- lift
    (if truthy laser_hit then
       let? distance := py_get sensor_data "laser_distance" (VInt 100) in
       let? d := as_num distance in
       (* Progressively stronger avoidance based on proximity *)
       if Rltb d 50 then
         let turn_direction := if Rleb 0 (rotate (last_actions self)) then 1 else -1 in
         let turn_amount := if Rltb d 20 then 15 else 8 in
         let turn_angle := turn_amount * turn_direction in
         let thrust_amount := if Rltb d 20 then 0 else 0.1 in
         Ok (Some (mkCommand turn_angle thrust_amount false))
       else Ok None
     else Ok None) ;;
  match avoid with
  | Some command => ret command
  | None =>
      (* Check for wall ahead with laser *)
      laser_hit <- lift (py_get sensor_data "laser_hit" (VBool false)) ;;
      ahead <- lift
        (if truthy laser_hit then
           let? distance := py_get sensor_data "laser_distance" (VInt 100) in
           let? d := as_num distance in
           Ok (Rltb d 30)
         else Ok false) ;;
      if ahead then
        let turn_angle := IZR (5 * choice_sign env) in
        ret (mkCommand turn_angle 0 false)
      else seek_targets sensor_data env
  end.

(** The stuck evasion of [decide_from_sensors]: the body of
    [if self.stuck_detection["is_stuck"]:]. *)
Definition escape : M Command :=
  self <- get ;;
  let sd := stuck_detection self in
  let direction := (- escape_direction sd)%Z in
  put (set_stuck_detection self
         (mkStuck (position sd) (last_position sd) (check_time sd)
            (last_check_time sd) (is_stuck sd) (stuck_count sd) direction)) ;;;
  let turn_angle := IZR (45 * direction) in
  (* Every other attempt, try backing up instead of turning *)
  if (stuck_count sd mod 2 =? 0)%Z
  then ret (mkCommand turn_angle (-0.8) false)
  else ret (mkCommand turn_angle 0.2 false).

(** [decide_from_sensors(sensor_data)] *)
Definition decide_from_sensors (sensor_data : PyVal) (env : Env) : M Command :=
  let current_time := now env in
  (* Check for null data *)
  if negb (truthy sensor_data) then ret (_random_action env)
  else
    self <- get ;;
    (* Update stuck detection (check every second if we've moved) *)
    (if Rltb 1.0 (current_time - check_time (stuck_detection self))
     then _update_stuck_detection sensor_data env
     else ret tt) ;;;
    self <- get ;;
    if is_stuck (stuck_detection self) then escape
    else avoid_walls_or_seek sensor_data env.

(** [_legacy_decide(game_state, walls)] *)
Definition _legacy_decide (game_state : PyVal) (env : Env) : M Command :=
  self <- get ;;
  ships <- lift (py_getitem game_state (VStr "ships")) ;;
  my_ship <- lift (py_getitem ships (VInt (ship_index self))) ;;
  if Rltb (random_legacy env) 0.05
  then ret (mkCommand (legacy_rotate env) (legacy_thrust env)
              (Rltb (legacy_shoot env) 0.1))
  else ret (mkCommand 0.5 0.5 false).

(** The [try] block of [decide]. *)
Definition decide_body (game_state : PyVal) (env : Env) : M Command :=
  sensors <- lift (py_contains "laser_hit" game_state) ;;
  (* If already formatted as sensor data *)
  if sensors then decide_from_sensors game_state env
  else
    self <- get ;;
    ships <- lift (py_getitem game_state (VStr "ships")) ;;
    n <- lift (py_len ships) ;;
    if (ship_index self <? n)%Z
    then _legacy_decide game_state env
    else ret neutral.

(** [decide(game_state, walls)]; [walls] is passed on to [_legacy_decide],
    which does not use it. *)
Definition decide (game_state : PyVal) (env : Env) : M Command :=
  try_except (decide_body game_state env) (fun _ => ret neutral).

(** The orientation test inside [_line_intersects_line]. *)
Definition ccw (a b c : R * R) : bool :=
  Rltb ((snd b - snd a) * (fst c - fst a)) ((snd c - snd a) * (fst b - fst a)).

(** [_line_intersects_line(x1, y1, x2, y2, x3, y3, x4, y4)]; [!=] on two
    booleans is exclusive or. *)
Definition _line_intersects_line (x1 y1 x2 y2 x3 y3 x4 y4 : R) : bool :=
  xorb (ccw (x1, y1) (x3, y3) (x4, y4)) (ccw (x2, y2) (x3, y3) (x4, y4))
  && xorb (ccw (x1, y1) (x2, y2) (x3, y3)) (ccw (x1, y1) (x2, y2) (x4, y4)).

(** *** Runs of the agent *)

(** An object whose [position] attribute carries the coordinates [p], the
    input from which [_update_stuck_detection] takes a sample. *)
Definition sample (p : R * R) : PyVal :=
  VObj [("position", VDict [("x", VFloat (fst p)); ("y", VFloat (snd p))])]%string.

(** The distance between two successive samples. *)
Definition displacement (p q : R * R) : R :=
  hypot (fst q - fst p) (snd q - snd p).

(** The last sample the detector holds is [p]. *)
Definition tracks (p : R * R) (self : DummyAgent) : Prop :=
  position (stuck_detection self) = Some (VFloat (fst p), VFloat (snd p)).

(** The detector holds no sample or a sample of coordinates, its counter
    is not negative and its flag is only set with a counter of 3 or more. *)
Definition sound (self : DummyAgent) : Prop :=
  (position (stuck_detection self) = None \/ exists p, tracks p self)
  /\ (0 <= stuck_count (stuck_detection self))%Z
  /\ (is_stuck (stuck_detection self) = true ->
      (3 <= stuck_count (stuck_detection self))%Z).

(** The agent after [_update_stuck_detection] has processed the samples in
    order. *)
Fixpoint feed (samples : list ((R * R) * Env)) (self : DummyAgent) : DummyAgent :=
  match samples with
  | [] => self
  | (p, env) :: rest => feed rest (snd (_update_stuck_detection (sample p) env self))
  end.

(** A body keeps the stuck detector when, returning or raising, it leaves
    [self.stuck_detection] as it found it. *)
Definition keeps_stuck {A : Type} (c : M A) : Prop :=
  forall self, stuck_detection (snd (c self)) = stuck_detection self.

(** The stuck detector as [__init__] leaves it, the timers apart. *)
Definition idle (self : DummyAgent) : Prop :=
  is_stuck (stuck_detection self) = false
  /\ stuck_count (stuck_detection self) = 0%Z
  /\ escape_direction (stuck_detection self) = 1%Z
  /\ position (stuck_detection self) = None.

Definition is_dict (v : PyVal) : Prop :=
  match v with
  | VDict _ => True
  | _ => False
  end.

(** The agent after a sequence of calls of [decide_from_sensors], whether
    they return or raise. *)
Fixpoint run_calls (calls : list (PyVal * Env)) (self : DummyAgent) : DummyAgent :=
  match calls with
  | [] => self
  | (sensor_data, env) :: rest =>
      run_calls rest (snd (decide_from_sensors sensor_data env self))
  end.

(** *** The rectangle helpers *)

(** A rectangle as the helpers read it: a dict with keys [x], [y],
    [width], [height]. *)
Record Rect : Type := mkRect
  { rect_x : R; rect_y : R; rect_width : R; rect_height : R }.

(** [rect_lines], the four sides in the order the source lists them. *)
Definition rect_lines (rect : Rect) : list ((R * R) * (R * R)) :=
  [ ((rect_x rect, rect_y rect), (rect_x rect + rect_width rect, rect_y rect));
    ((rect_x rect + rect_width rect, rect_y rect),
     (rect_x rect + rect_width rect, rect_y rect + rect_height rect));
    ((rect_x rect + rect_width rect, rect_y rect + rect_height rect),
     (rect_x rect, rect_y rect + rect_height rect));
    ((rect_x rect, rect_y rect + rect_height rect), (rect_x rect, rect_y rect)) ].

(** [_line_intersects_rect(x1, y1, x2, y2, rect)] *)
Definition _line_intersects_rect (x1 y1 x2 y2 : R) (rect : Rect) : bool :=
  existsb (fun line =>
             let '((rx1, ry1), (rx2, ry2)) := line in
             _line_intersects_line x1 y1 x2 y2 rx1 ry1 rx2 ry2)
    (rect_lines rect).

(** The loop of [_get_intersection_point] over [rect_lines]. *)
Fixpoint first_crossing (x1 y1 x2 y2 : R) (lines : list ((R * R) * (R * R))) : R * R :=
  match lines with
  | [] => (x2, y2)  (* Default to the end of the line if no intersection is found *)
  | ((rx1, ry1), (rx2, ry2)) :: rest =>
      let denom := (x1 - x2) * (ry1 - ry2) - (y1 - y2) * (rx1 - rx2) in
      if Reqb denom 0 then first_crossing x1 y1 x2 y2 rest
      else
        let t := ((x1 - rx1) * (ry1 - ry2) - (y1 - ry1) * (rx1 - rx2)) / denom in
        let u := (- ((x1 - x2) * (y1 - ry1) - (y1 - y2) * (x1 - rx1))) / denom in
        if (Rleb 0 t && Rleb t 1) && (Rleb 0 u && Rleb u 1)
        then (x1 + t * (x2 - x1), y1 + t * (y2 - y1))
        else first_crossing x1 y1 x2 y2 rest
  end.

(** [_get_intersection_point(x1, y1, x2, y2, rect)] on a dict. *)
Definition _get_intersection_point (x1 y1 x2 y2 : R) (rect : Rect) : R * R :=
  first_crossing x1 y1 x2 y2 (rect_lines rect).

(** *** Statements about the methods *)

(** The memory holds what [__init__] put there or an entry stored for a
    target with a numeric distance and angle. *)
Definition remembers (self : DummyAgent) : Prop :=
  target_memory self
  = VDict [("type", VNone); ("position", VNone); ("last_seen", VInt 0)]%string
  \/ exists kind d a t, target_memory self = memory_of kind (VFloat d) (VFloat a) t.

(** A body leaves the attribute [f] of [self] as it found it, whether it
    returns or raises. *)
Definition keeps {X A : Type} (f : DummyAgent -> X) (c : M A) : Prop :=
  forall self, f (snd (c self)) = f self.

(** Run from [self], the body raises, or returns a value and a state that
    satisfy [Q]. *)
Definition ensures {A : Type} (c : M A) (self : DummyAgent)
    (Q : A -> DummyAgent -> Prop) : Prop :=
  match c self with
  | (Ok a, self') => Q a self'
  | (Raise _, _) => True
  end.

(** The outcome of the branch [# No objects detected - explore] run from
    [self]: the heading is drawn anew when the last change is more than
    3 seconds old. *)
Definition explore_result (env : Env) (self : DummyAgent) : Result Command * DummyAgent :=
  let self' := if Rltb 3.0 (now env - last_direction_change self)
               then set_exploration self (uniform_heading env) (now env)
               else self in
  (Ok (mkCommand (current_rotation self') 0.5 false), self').

(** The thrust of a command lies between full reverse escape and full
    ahead, and a command that shoots comes with an enemy just stored in
    the target memory. *)
Definition within_limits (env : Env) (command : Command) (self : DummyAgent) : Prop :=
  -0.8 <= thrust command <= 1
  /\ (shoot command = true ->
      exists distance angle,
        target_memory self = memory_of "enemy" distance angle (now env)).

End Agent.
(* ================================================================== *)
(** * server.py: the geometry kernel and the two sensors *)
(* ================================================================== *)

Module Server.
Import Py.

(** A wall as the server holds it: a dict with keys [x], [y], [width],
    [height]. *)
Record Wall : Type := mkWall
  { wall_x : R; wall_y : R; wall_width : R; wall_height : R }.

Definition Point : Type := (R * R)%type.

(** [line_intersects_line(x1, y1, x2, y2, x3, y3, x4, y4)] *)
Definition line_intersects_line (x1 y1 x2 y2 x3 y3 x4 y4 : R) : bool :=
  let den := (y4 - y3) * (x2 - x1) - (x4 - x3) * (y2 - y1) in
  if Reqb den 0 then false
  else
    let ua := ((x4 - x3) * (y1 - y3) - (y4 - y3) * (x1 - x3)) / den in
    let ub := ((x2 - x1) * (y1 - y3) - (y2 - y1) * (x1 - x3)) / den in
    (Rleb 0 ua && Rleb ua 1) && (Rleb 0 ub && Rleb ub 1).

(** [get_intersection_point(x1, y1, x2, y2, x3, y3, x4, y4)] *)
Definition get_intersection_point (x1 y1 x2 y2 x3 y3 x4 y4 : R) : option Point :=
  let den := (y4 - y3) * (x2 - x1) - (x4 - x3) * (y2 - y1) in
  if Reqb den 0 then None
  else
    let ua := ((x4 - x3) * (y1 - y3) - (y4 - y3) * (x1 - x3)) / den in
    Some (x1 + ua * (x2 - x1), y1 + ua * (y2 - y1)).

Definition Edge : Type := (R * R * R * R)%type.

(** The four edges in the order the source lists them. *)
Definition rect_edges (rect : Wall) : list Edge :=
  let left := wall_x rect in
  let top := wall_y rect in
  let right := left + wall_width rect in
  let bottom := top + wall_height rect in
  [ (left, top, right, top);         (* Top *)
    (right, top, right, bottom);     (* Right *)
    (right, bottom, left, bottom);   (* Bottom *)
    (left, bottom, left, top) ].     (* Left *)

(** The [for x3, y3, x4, y4 in edges] loop: the first edge that passes the
    test decides the result. *)
Fixpoint first_edge_hit (x1 y1 x2 y2 : R) (edges : list Edge) : option Point :=
  match edges with
  | [] => None
  | (x3, y3, x4, y4) :: rest =>
      if line_intersects_line x1 y1 x2 y2 x3 y3 x4 y4
      then get_intersection_point x1 y1 x2 y2 x3 y3 x4 y4
      else first_edge_hit x1 y1 x2 y2 rest
  end.

(** [line_intersects_rect(x1, y1, x2, y2, rect)] *)
Definition line_intersects_rect (x1 y1 x2 y2 : R) (rect : Wall) : option Point :=
  first_edge_hit x1 y1 x2 y2 (rect_edges rect).

(** The loop of [check_laser]; the accumulator is
    [(closest_hit, min_distance)].  A returned point is a two-element tuple
    and therefore true in [if intersection:]. *)
Fixpoint laser_scan (x y end_x end_y : R) (walls : list Wall)
    (closest_hit : option Point) (min_distance : R) : option Point * R :=
  match walls with
  | [] => (closest_hit, min_distance)
  | wall :: rest =>
      match line_intersects_rect x y end_x end_y wall with
      | Some (hit_x, hit_y) =>
          let distance := sqrt ((hit_x - x) ^ 2 + (hit_y - y) ^ 2) in
          if Rltb distance min_distance
          then laser_scan x y end_x end_y rest (Some (hit_x, hit_y)) distance
          else laser_scan x y end_x end_y rest closest_hit min_distance
      | None => laser_scan x y end_x end_y rest closest_hit min_distance
      end
  end.

Definition max_distance : R := 50.

(** [check_laser(x, y, angle, walls)], returning
    [(bool(closest_hit), min_distance if closest_hit else None)]. *)
Definition check_laser (x y angle : R) (walls : list Wall) : bool * option R :=
  let rad := radians angle in
  let end_x := x + cos rad * max_distance in
  let end_y := y + sin rad * max_distance in
  match laser_scan x y end_x end_y walls None max_distance with
  | (Some _, min_distance) => (true, Some min_distance)
  | (None, _) => (false, None)
  end.

(** The bounding-box test of [is_visible] that lets the loop [continue]. *)
Definition far_from_sight (from_x from_y to_x to_y : R) (wall : Wall) : bool :=
  let wall_center_x := wall_x wall + wall_width wall / 2 in
  let wall_center_y := wall_y wall + wall_height wall / 2 in
  let min_x := Rmin from_x to_x - 20 in
  let max_x := Rmax from_x to_x + 20 in
  let min_y := Rmin from_y to_y - 20 in
  let max_y := Rmax from_y to_y + 20 in
  (Rltb wall_center_x min_x || Rltb max_x wall_center_x)
  && (Rltb wall_center_y min_y || Rltb max_y wall_center_y).

(** The [for wall in walls] loop of [is_visible]. *)
Fixpoint sight_clear (from_x from_y to_x to_y : R) (walls : list Wall) : bool :=
  match walls with
  | [] => true
  | wall :: rest =>
      if far_from_sight from_x from_y to_x to_y wall
      then sight_clear from_x from_y to_x to_y rest
      else
        match line_intersects_rect from_x from_y to_x to_y wall with
        | Some _ => false
        | None => sight_clear from_x from_y to_x to_y rest
        end
  end.

(** [is_visible(from_x, from_y, to_x, to_y, walls)] *)
Definition is_visible (from_x from_y to_x to_y : R) (walls : list Wall) : bool :=
  let distance := sqrt ((to_x - from_x) ^ 2 + (to_y - from_y) ^ 2) in
  if Rltb distance 30 then true
  else sight_clear from_x from_y to_x to_y walls.

(** A wall no thicker than twice the 20-unit margin of [far_from_sight] in
    at least one direction. *)
Definition thin (wall : Wall) : Prop :=
  Rabs (wall_width wall) <= 40 \/ Rabs (wall_height wall) <= 40.

(** A wall of positive width and height, as every wall of the layout. *)
Definition solid (wall : Wall) : Prop :=
  0 < wall_width wall /\ 0 < wall_height wall.

(** The point [p] lies on the segment from [(x1, y1)] to [(x2, y2)]. *)
Definition on_segment (x1 y1 x2 y2 : R) (p : Point) : Prop :=
  exists t, 0 <= t <= 1 /\ p = along (x1, y1) (x2, y2) t.

(** The point [p] lies on the boundary of the rectangle of a solid wall:
    on its top or bottom side, or on its left or right side. *)
Definition on_boundary (wall : Wall) (p : Point) : Prop :=
  let left := wall_x wall in
  let top := wall_y wall in
  let right := left + wall_width wall in
  let bottom := top + wall_height wall in
  ((snd p = top \/ snd p = bottom) /\ left <= fst p <= right)
  \/ ((fst p = left \/ fst p = right) /\ top <= snd p <= bottom).

(** The segment lies on one side of the rectangle, strictly between the
    two corners of that side. *)
Definition runs_along_edge (x1 y1 x2 y2 : R) (wall : Wall) : Prop :=
  let left := wall_x wall in
  let top := wall_y wall in
  let right := left + wall_width wall in
  let bottom := top + wall_height wall in
  (y1 = y2 /\ (y1 = top \/ y1 = bottom) /\ left < Rmin x1 x2 /\ Rmax x1 x2 < right)
  \/ (x1 = x2 /\ (x1 = left \/ x1 = right) /\ top < Rmin y1 y2 /\ Rmax y1 y2 < bottom).

(** The boundary of the wall meets the segment, and not just because the
    segment runs along one of its sides. *)
Definition blocks (x1 y1 x2 y2 : R) (wall : Wall) : Prop :=
  (exists p, on_segment x1 y1 x2 y2 p /\ on_boundary wall p)
  /\ ~ runs_along_edge x1 y1 x2 y2 wall.

(** The distance [check_laser] measures to a hit point. *)
Definition hit_distance (x y : R) (p : Point) : R :=
  sqrt ((fst p - x) ^ 2 + (snd p - y) ^ 2).

(** [walls_data] *)
Definition walls_data : list Wall :=
  [ mkWall 50 50 1900 20;       (* Top wall *)
    mkWall 50 50 20 1900;       (* Left wall *)
    mkWall 50 1930 1900 20;     (* Bottom wall *)
    mkWall 1930 50 20 1900;     (* Right wall *)
    mkWall 200 200 20 400;
    mkWall 200 600 400 20;
    mkWall 600 200 20 400;
    mkWall 600 600 400 20;
    mkWall 1000 200 20 800;
    mkWall 200 1000 800 20;
    mkWall 1200 200 20 800;
    mkWall 1200 1000 400 20;
    mkWall 1600 200 20 800;
    mkWall 200 1400 400 20;
    mkWall 600 1400 20 400;
    mkWall 600 1800 400 20;
    mkWall 1000 1400 20 400;
    mkWall 1200 1400 400 20;
    mkWall 1600 1400 20 400;
    (* Dead ends *)
    mkWall 300 300 100 20;
    mkWall 1500 1500 100 20;
    mkWall 800 800 20 100 ].

(** The pydantic models of the published state. *)
Record Ship : Type := mkShip { ship_x : R; ship_y : R; ship_angle : R }.

Record Bullet : Type := mkBullet
  { bullet_x : R; bullet_y : R; bullet_angle : R; lifespan : Z; owner : Z }.

Record Coin : Type := mkCoin { coin_x : R; coin_y : R }.

Record GameState : Type := mkGameState
  { ships : list Ship; bullets : list Bullet; coins : list Coin; score : list Z }.

(** The module-level [game_state] before any [/update_state]. *)
Definition game_state : GameState := mkGameState [] [] [] [].

(** The two module-level objects the handlers share. *)
Record ServerState : Type := mkServer
  { cache : GameState; agent : Agent.DummyAgent }.

(** The process at start-up: [agent = DummyAgent(ship_index=0)]. *)
Definition startup (t : Agent.Birth) : ServerState :=
  mkServer game_state (Agent.init 0 t).

(** [POST /update_state]: [game_state = state.dict()] *)
Definition update_state (state : GameState) (st : ServerState) : ServerState :=
  mkServer state (agent st).

(** [GET /game_state] *)
Definition get_game_state (st : ServerState) : GameState := cache st.

(** [math.atan2(y, x)] *)
Definition atan2 (y x : R) : R :=
  if Rltb 0 x then atan (y / x)
  else if Rltb x 0 then (if Rleb 0 y then atan (y / x) + PI else atan (y / x) - PI)
  else if Rltb 0 y then PI / 2
  else if Rltb y 0 then - PI / 2
  else 0.

(** [math.degrees] *)
Definition degrees (rad : R) : R := rad * 180 / PI.

(** The bearing of [(dx, dy)] relative to the ship's heading. *)
Definition relative_bearing (dx dy ship_angle : R) : R :=
  let absolute_angle := degrees (atan2 dy dx) in
  let relative_angle := py_mod (absolute_angle - ship_angle + 360) 360 in
  if Rltb 180 relative_angle then relative_angle - 360 else relative_angle.

Definition radar_entry (kind : string) (distance angle : R) : PyVal :=
  VDict [("type", VStr kind); ("distance", VFloat distance); ("angle", VFloat angle)]%string.

Definition radar_range : R := 800.

(** The [for i, other_ship in enumerate(ships)] loop of [sense]. *)
Fixpoint scan_ships (ship_id : Z) (sx sy ship_angle : R) (i : Z) (others : list Ship)
    : list PyVal :=
  match others with
  | [] => []
  | other_ship :: rest =>
      let tail := scan_ships ship_id sx sy ship_angle (i + 1)%Z rest in
      if (i =? ship_id)%Z then tail
      else
        let dx := ship_x other_ship - sx in
        let dy := ship_y other_ship - sy in
        let distance := hypot dx dy in
        if Rltb radar_range distance then tail
        else if is_visible sx sy (ship_x other_ship) (ship_y other_ship) walls_data
        then radar_entry "enemy" distance (relative_bearing dx dy ship_angle) :: tail
        else tail
  end.

(** The [for coin in coins] loop of [sense]. *)
Fixpoint scan_coins (sx sy ship_angle : R) (cs : list Coin) : list PyVal :=
  match cs with
  | [] => []
  | coin :: rest =>
      let tail := scan_coins sx sy ship_angle rest in
      let dx := coin_x coin - sx in
      let dy := coin_y coin - sy in
      let distance := hypot dx dy in
      if Rltb radar_range distance then tail
      else if is_visible sx sy (coin_x coin) (coin_y coin) walls_data
      then radar_entry "coin" distance (relative_bearing dx dy ship_angle) :: tail
      else tail
  end.

(** The pydantic models [RadarResult] and [SensorResponse], and the dict
    form in which [sense] returns them. *)
Record RadarResult : Type := mkRadar
  { kind : string; distance : R; bearing : R }.

Record SensorResponse : Type := mkResponse
  { laser_hit : bool; laser_distance : option R; radar_objects : list RadarResult }.

Definition radar_dict (o : RadarResult) : PyVal :=
  radar_entry (kind o) (distance o) (bearing o).

Definition response_dict (r : SensorResponse) : PyVal :=
  VDict [("laser_hit", VBool (laser_hit r));
         ("laser_distance", match laser_distance r with
                            | Some d => VFloat d
                            | None => VNone
                            end);
         ("radar_objects", VList (map radar_dict (radar_objects r)))]%string.

Definition is_enemy (o : RadarResult) : bool := String.eqb (kind o) "enemy".
Definition is_coin (o : RadarResult) : bool := String.eqb (kind o) "coin".

(** The sort key and the item [list.sort] pairs for a radar entry. *)
Definition keyed_entry (o : RadarResult) : PyVal * PyVal :=
  (VFloat (distance o), radar_dict o).

(** [a] is not farther than [b]. *)
Definition nearer (a b : RadarResult) : Prop := distance a <= distance b.

(** A validated [SensorRequest]. *)
Record SensorRequest : Type := mkRequest
  { ship_id : Z; position : PyVal; angle : R }.

(** The value a [:.1f] field formats. *)
Definition format_f (v : PyVal) : Result R :=
  match v with
  | VStr _ => Raise ValueError
  | _ => as_num v
  end.

(** The [try] block of [sense]. *)
Definition sense_body (request : SensorRequest) (gs : GameState) : Result PyVal :=
  let? px := py_getitem (position request) (VStr "x") in
  let? py := py_getitem (position request) (VStr "y") in
  let ship_angle := angle request in
  let? sx := format_f px in
  let? sy := format_f py in
  let '(laser_hit, laser_distance) := check_laser sx sy ship_angle walls_data in
  let radar_objects :=
    scan_ships (ship_id request) sx sy ship_angle 0%Z (ships gs)
    ++ scan_coins sx sy ship_angle (coins gs) in
  Ok (VDict [("laser_hit", VBool laser_hit);
             ("laser_distance", match laser_distance with
                                | Some d => VFloat d
                                | None => VNone
                                end);
             ("radar_objects", VList radar_objects)]%string).

(** [POST /sense] *)
Definition sense (request : SensorRequest) (gs : GameState) : PyVal :=
  match sense_body request gs with
  | Ok response => response
  | Raise _ => VDict [("laser_hit", VBool false); ("radar_objects", VList [])]%string
  end.

Section Endpoint.

(** How pydantic coerces the [ship_id] and [angle] arguments of
    [SensorRequest(...)], or the [ValidationError] it raises; the library's
    rules are taken as given. *)
Variable validate_int : PyVal -> Result Z.
Variable validate_float : PyVal -> Result R.

(** [SensorRequest(ship_id=.., position={"x": .., "y": ..}, angle=..)] *)
Definition make_request (game_data : PyVal) : Result SensorRequest :=
  let? ship_id := py_get game_data "ship_id" (VInt 0) in
  let? ships1 := py_getitem game_data (VStr "ships") in
  let? ship1 := py_getitem ships1 ship_id in
  let? x := py_getitem ship1 (VStr "x") in
  let? ships2 := py_getitem game_data (VStr "ships") in
  let? ship2 := py_getitem ships2 ship_id in
  let? y := py_getitem ship2 (VStr "y") in
  let? ships3 := py_getitem game_data (VStr "ships") in
  let? ship3 := py_getitem ships3 ship_id in
  let? a := py_getitem ship3 (VStr "angle") in
  let? id := validate_int ship_id in
  let? ang := validate_float a in
  Ok (mkRequest id (VDict [("x", x); ("y", y)]%string) ang).

(** Runs a method of the shared agent on the server's state. *)
Definition on_agent {A : Type} (c : Agent.M A) : SE ServerState A :=
  fun st =>
    match c (agent st) with
    | (r, self') => (r, mkServer (cache st) self')
    end.

(** The [try] block of [POST /decide/]. *)
Definition decide_body (game_data : PyVal) (env : Agent.Env) : SE ServerState Agent.Command :=
  sensor_request <- lift (make_request game_data) ;;
  st <- get ;;
  let sensor_data := sense sensor_request (cache st) in
  on_agent (Agent.decide_from_sensors sensor_data env).

(** [POST /decide/] *)
Definition decide (game_data : PyVal) (env : Agent.Env) : SE ServerState Agent.Command :=
  try_except (decide_body game_data env) (fun _ => ret Agent.neutral).

(** The server after a sequence of [/decide/] requests. *)
Fixpoint serve (requests : list (PyVal * Agent.Env)) (st : ServerState) : ServerState :=
  match requests with
  | [] => st
  | (game_data, env) :: rest => serve rest (snd (decide game_data env st))
  end.

End Endpoint.

(** *** Runs of the server *)

(** The requests that read or change the two shared objects. *)
Inductive Request : Type :=
| PostUpdateState (state : GameState)
| PostDecide (game_data : PyVal) (env : Agent.Env).

Section Requests.

Variable validate_int : PyVal -> Result Z.
Variable validate_float : PyVal -> Result R.

(** The server after one request. *)
Definition handle (request : Request) (st : ServerState) : ServerState :=
  match request with
  | PostUpdateState state => update_state state st
  | PostDecide game_data env => snd (decide validate_int validate_float game_data env st)
  end.

(** The server after a sequence of requests. *)
Fixpoint run (requests : list Request) (st : ServerState) : ServerState :=
  match requests with
  | [] => st
  | request :: rest => run rest (handle request st)
  end.

End Requests.

(** The state the last [/update_state] of a sequence published, or
    [default] when there is none. *)
Fixpoint last_published (requests : list Request) (default : GameState) : GameState :=
  match requests with
  | [] => default
  | PostUpdateState state :: rest => last_published rest state
  | PostDecide _ _ :: rest => last_published rest default
  end.

(** A radar entry as [sense] builds them: an enemy or a coin within the
    radar range, at a bearing in [(-180, 180]]. *)
Definition well_formed (o : RadarResult) : Prop :=
  (kind o = "enemy"%string \/ kind o = "coin"%string)
  /\ 0 <= distance o <= radar_range
  /\ -180 < bearing o <= 180.

(** The reading the [except] branch of [sense] returns. *)
Definition fallback_response : PyVal :=
  VDict [("laser_hit", VBool false); ("radar_objects", VList [])]%string.

End Server.
(* ================================================================== *)
(** * engine.py: bodies, patrol state machine and the simulation step *)
(* ================================================================== *)

Module Engine.

(** The [random] module as a source of draws in [[0, 1)], read in order. *)
Record Rng : Type := mkRng { draws : nat -> R; cursor : nat }.

(** [random.random()] *)
Definition random (g : Rng) : R * Rng :=
  (draws g (cursor g), mkRng (draws g) (S (cursor g))).

(** [random.uniform(a, b)] *)
Definition uniform (a b : R) (g : Rng) : R * Rng :=
  let '(u, g') := random g in (a + (b - a) * u, g').

(** [random.randint(a, b)] *)
Definition randint (a b : Z) (g : Rng) : Z * Rng :=
  let '(u, g') := random g in ((a + Int_part (u * IZR (b - a + 1)))%Z, g').

(** [random.choice(items)] on a non-empty list. *)
Definition choice {A : Type} (default : A) (items : list A) (g : Rng) : A * Rng :=
  let '(u, g') := random g in
  (nth (Z.to_nat (Int_part (u * INR (List.length items)))) items default, g').

Definition WORLD_WIDTH : R := 2000.
Definition WORLD_HEIGHT : R := 2000.

(** [pygame.Rect]: integer coordinates; float arguments are truncated.
    pygame keeps the four fields in C [int]s; here they are in [Z], which
    is the same as long as the fields and the sums [x + w], [y + h] stay in
    the 32-bit range, as they do for every rectangle taken inside the
    world. *)
Record Rect : Type := mkRect
  { rect_x : Z; rect_y : Z; rect_width : Z; rect_height : Z }.

Definition Rect_of (x y : R) (w h : Z) : Rect :=
  mkRect (truncate x) (truncate y) w h.

(** [a.colliderect(b)] as pygame computes it: empty rectangles collide with
    nothing, touching edges do not overlap. *)
Definition colliderect (a b : Rect) : bool :=
  if ((rect_width a =? 0) || (rect_height a =? 0)
      || (rect_width b =? 0) || (rect_height b =? 0))%Z
  then false
  else
    ((Z.min (rect_x a) (rect_x a + rect_width a)
        <? Z.max (rect_x b) (rect_x b + rect_width b))
     && (Z.min (rect_y a) (rect_y a + rect_height a)
           <? Z.max (rect_y b) (rect_y b + rect_height b))
     && (Z.min (rect_x b) (rect_x b + rect_width b)
           <? Z.max (rect_x a) (rect_x a + rect_width a))
     && (Z.min (rect_y b) (rect_y b + rect_height b)
           <? Z.max (rect_y a) (rect_y a + rect_height a)))%Z.

Inductive PatrolState : Type :=
| PATROL_STATE_FORWARD      (* 0 *)
| PATROL_STATE_TURNING      (* 1 *)
| PATROL_STATE_WALL_AVOID.  (* 2 *)

(** [SpaceObject]; the [concurrents] attribute aliases the engine's list of
    ships and is passed to [check_wall_collision] as an argument. *)
Record SpaceObject : Type := mkSpaceObject
  { x : R; y : R; angle : R; vx : R; vy : R; hp : Z;
    patrol_state : PatrolState;
    patrol_timer : Z;
    patrol_turn_target : R;
    patrol_direction : Z }.

(** [SpaceObject(x, y, angle=angle, hp=hp)] *)
Definition new_ship (x y angle : R) (hp : Z) : SpaceObject :=
  mkSpaceObject x y angle 0 0 hp PATROL_STATE_FORWARD 0 0 1.

Definition with_motion (s : SpaceObject) (x' y' vx' vy' : R) : SpaceObject :=
  mkSpaceObject x' y' (angle s) vx' vy' (hp s)
    (patrol_state s) (patrol_timer s) (patrol_turn_target s) (patrol_direction s).

Definition with_angle (s : SpaceObject) (angle' : R) : SpaceObject :=
  mkSpaceObject (x s) (y s) angle' (vx s) (vy s) (hp s)
    (patrol_state s) (patrol_timer s) (patrol_turn_target s) (patrol_direction s).

Definition with_hp (s : SpaceObject) (hp' : Z) : SpaceObject :=
  mkSpaceObject (x s) (y s) (angle s) (vx s) (vy s) hp'
    (patrol_state s) (patrol_timer s) (patrol_turn_target s) (patrol_direction s).

Definition with_patrol (s : SpaceObject) (state : PatrolState) (timer : Z)
    (target : R) (direction : Z) : SpaceObject :=
  mkSpaceObject (x s) (y s) (angle s) (vx s) (vy s) (hp s)
    state timer target direction.

(** [update_position(is_enemy)] *)
Definition update_position (is_enemy : bool) (s : SpaceObject) : SpaceObject :=
  let max_speed := if negb is_enemy then 8 else 3 in
  let friction := 0.99 in
  let vx1 := Rmax (- max_speed) (Rmin (vx s * friction) max_speed) in
  let vy1 := Rmax (- max_speed) (Rmin (vy s * friction) max_speed) in
  let x1 := Rmax 0 (Rmin (x s + vx1) WORLD_WIDTH) in
  let y1 := Rmax 0 (Rmin (y s + vy1) WORLD_HEIGHT) in
  with_motion s x1 y1 vx1 vy1.

(** [thrust(amount)] *)
Definition thrust (amount : R) (s : SpaceObject) : SpaceObject :=
  let rad := radians (angle s) in
  with_motion s (x s) (y s) (vx s + cos rad * amount) (vy s + sin rad * amount).

(** [rotate(degrees)] *)
Definition rotate (degrees : R) (s : SpaceObject) : SpaceObject :=
  with_angle s (py_mod (angle s + degrees) 360).

(** One round of the loop in [check_wall_collision]: [ship_rect] is the
    rectangle taken before the loop, the coordinates those of the moment. *)
Definition bounce (ship_rect : Rect) (s : SpaceObject) (wall : Rect) : SpaceObject :=
  if colliderect ship_rect wall then
    let '(x1, vx1) :=
      if Rltb (x s) (IZR (rect_x wall)) then (IZR (rect_x wall) - 10, 0)
      else if Rltb (IZR (rect_x wall + rect_width wall)) (x s)
           then (IZR (rect_x wall + rect_width wall) + 10, 0)
           else (x s, vx s) in
    let '(y1, vy1) :=
      if Rltb (y s) (IZR (rect_y wall)) then (IZR (rect_y wall) - 10, 0)
      else if Rltb (IZR (rect_y wall + rect_height wall)) (y s)
           then (IZR (rect_y wall + rect_height wall) + 10, 0)
           else (y s, vy s) in
    with_motion s x1 y1 vx1 vy1
  else s.

(** [check_wall_collision(walls)]; [others] are the objects of
    [self.concurrents] other than [self]. *)
Definition check_wall_collision (walls : list Rect) (others : list SpaceObject)
    (s : SpaceObject) : SpaceObject :=
  let ship_rect := Rect_of (x s - 10) (y s - 10) 20 20 in
  let concurrent_react := map (fun so => Rect_of (x so - 10) (y so - 10) 20 20) others in
  fold_left (bounce ship_rect) (walls ++ concurrent_react) s.

(** [Bullet] *)
Record Bullet : Type := mkBullet
  { bullet_x : R; bullet_y : R; bullet_angle : R; owner : Z; lifespan : Z;
    bullet_vx : R; bullet_vy : R }.

(** [Bullet.update()] *)
Definition bullet_update (b : Bullet) : Bullet :=
  mkBullet (bullet_x b + bullet_vx b) (bullet_y b + bullet_vy b) (bullet_angle b)
    (owner b) (lifespan b - 1) (bullet_vx b) (bullet_vy b).

(** [Bullet.is_offscreen(world_width, world_height)] *)
Definition is_offscreen (world_width world_height : R) (b : Bullet) : bool :=
  negb ((Rleb 0 (bullet_x b) && Rleb (bullet_x b) world_width)
        && (Rleb 0 (bullet_y b) && Rleb (bullet_y b) world_height))
  || (lifespan b <=? 0)%Z.

(** The attempts loop of [generate_valid_position]. *)
Fixpoint try_positions (attempts : nat) (walls : list Rect) (world_width world_height : Z)
    (g : Rng) : option (Z * Z) * Rng :=
  match attempts with
  | O => (None, g)
  | S n =>
      let '(px, g1) := randint 100 (world_width - 100) g in
      let '(py, g2) := randint 100 (world_height - 100) g1 in
      let rect := mkRect (px - 10) (py - 10) 20 20 in
      if existsb (colliderect rect) walls
      then try_positions n walls world_width world_height g2
      else (Some (px, py), g2)
  end.

(** [generate_valid_position(walls, world_width, world_height)] *)
Definition generate_valid_position (walls : list Rect) (world_width world_height : Z)
    (g : Rng) : (Z * Z) * Rng :=
  let max_attempts := 100%nat in
  match try_positions max_attempts walls world_width world_height g with
  | (Some p, g') => (p, g')
  | (None, g') =>
      let fallback_positions := [(400, 400); (1600, 1600); (400, 1600); (1600, 400)]%Z in
      choice (400, 400)%Z fallback_positions g'
  end.

(** [GameEngine]: the attributes [update] works on. *)
Record GameEngine : Type := mkEngine
  { ships : list SpaceObject; bullets : list Bullet; score : list Z }.

(** The [for _ in range(2)] loop that spawns replacement enemies. *)
Fixpoint spawn_enemies (n : nat) (walls : list Rect) (g : Rng) : list SpaceObject * Rng :=
  match n with
  | O => ([], g)
  | S m =>
      let '((px, py), g1) := generate_valid_position walls 2000 2000 g in
      let '(a, g2) := randint 0 360 g1 in
      let '(rest, g3) := spawn_enemies m walls g2 in
      (new_ship (IZR px) (IZR py) (IZR a) 100 :: rest, g3)
  end.

(** The first loop of [update], over the snapshot [self.ships[:]].  At
    round [i] the live list [self.ships] is [kept ++ todo]: the ships
    already visited that were not removed, then the ones still to visit,
    the first of which is the current ship.  [self.ships.remove(ship)]
    drops the current ship; [new_ships] is extended at the end. *)
Fixpoint update_ships (walls : list Rect) (i : nat) (kept todo new_ships : list SpaceObject)
    (g : Rng) : list SpaceObject * list SpaceObject * Rng :=
  match todo with
  | [] => (kept, new_ships, g)
  | ship :: rest =>
      let is_enemy := Nat.eqb i 1 in
      let ship1 := update_position is_enemy ship in
      let ship2 := check_wall_collision walls (kept ++ rest) ship1 in
      if (hp ship2 <=? 0)%Z then
        if is_enemy then
          let '(spawned, g') := spawn_enemies 2 walls g in
          update_ships walls (S i) kept rest (new_ships ++ spawned) g'
        else update_ships walls (S i) kept rest new_ships g
      else update_ships walls (S i) (kept ++ [ship2]) rest new_ships g
  end.

(** [_collides(bullet, ship)], with the distance taken over the reals:
    where the distance is 15 up to rounding, the comparison of the floats
    can go either way, and no property below rests on such a case. *)
Definition _collides (b : Bullet) (s : SpaceObject) : bool :=
  Rltb (hypot (bullet_x b - x s) (bullet_y b - y s)) 15.

(** [self.score[0] += points], on the non-empty score the engine has
    from [__init__] on ([[0, 0]], never shortened).  On an empty list the
    statement raises [IndexError]; that case is not followed here, the
    list is returned as it is, and the properties of the score below are
    stated for non-empty lists. *)
Definition add_player_score (points : Z) (score : list Z) : list Z :=
  match score with
  | s0 :: rest => (s0 + points)%Z :: rest
  | [] => []
  end.

(** The [for i, ship in enumerate(self.ships)] loop run for one bullet:
    the ships after the damage, whether the bullet hit, and the score. *)
Fixpoint hit_ships (b : Bullet) (i : Z) (todo : list SpaceObject) (hit : bool) (score : list Z)
    : list SpaceObject * bool * list Z :=
  match todo with
  | [] => ([], hit, score)
  | ship :: rest =>
      if negb (i =? owner b)%Z && _collides b ship then
        let ship' := with_hp ship (hp ship - 10) in
        let score' := if ((hp ship' <=? 0) && (i =? 1))%Z
                      then add_player_score 10 score else score in
        let '(rest', hit', score'') := hit_ships b (i + 1)%Z rest true score' in
        (ship' :: rest', hit', score'')
      else
        let '(rest', hit', score') := hit_ships b (i + 1)%Z rest hit score in
        (ship :: rest', hit', score')
  end.

(** The second loop over [self.bullets]. *)
Fixpoint resolve_bullets (walls : list Rect) (todo : list Bullet)
    (ships : list SpaceObject) (score : list Z) (new_bullets : list Bullet)
    : list SpaceObject * list Z * list Bullet :=
  match todo with
  | [] => (ships, score, new_bullets)
  | bullet :: rest =>
      let bullet_rect := Rect_of (bullet_x bullet - 3) (bullet_y bullet - 3) 6 6 in
      let hit_wall := existsb (colliderect bullet_rect) walls in
      let '(ships', hit, score') := hit_ships bullet 0%Z ships hit_wall score in
      let new_bullets' :=
        if negb hit && (0 <? lifespan bullet)%Z
        then new_bullets ++ [bullet] else new_bullets in
      resolve_bullets walls rest ships' score' new_bullets'
  end.

(** [GameEngine.update(walls)], up to the publication of the state, which
    changes nothing in the engine but the time of the last send. *)
Definition update (walls : list Rect) (g : Rng) (e : GameEngine) : GameEngine * Rng :=
  let '(kept, new_ships, g') := update_ships walls 0 [] (ships e) [] g in
  let ships1 := kept ++ new_ships in
  let moved := map bullet_update (bullets e) in
  let '(ships2, score', new_bullets) := resolve_bullets walls moved ships1 (score e) [] in
  (mkEngine ships2
     (filter (fun b => negb (is_offscreen WORLD_WIDTH WORLD_HEIGHT b)) new_bullets)
     score',
   g').

(** The look-ahead probe at the head of [patrol_movement]. *)
Definition wall_ahead (enemy : SpaceObject) (walls : list Rect) : bool :=
  let ahead_distance := 80 in
  let rad := radians (angle enemy) in
  let look_x := x enemy + cos rad * ahead_distance in
  let look_y := y enemy + sin rad * ahead_distance in
  let look_rect := Rect_of (look_x - 10) (look_y - 10) 20 20 in
  existsb (colliderect look_rect) walls.

Definition set_state (s : SpaceObject) (state : PatrolState) : SpaceObject :=
  with_patrol s state 0 (patrol_turn_target s) (patrol_direction s).

(** [patrol_movement(enemy, walls)]: the enemy after the call, the returned
    [wall_ahead] and the random source. *)
Definition patrol_movement (enemy : SpaceObject) (walls : list Rect) (g : Rng)
    : SpaceObject * bool * Rng :=
  (* Update patrol timer *)
  let enemy := with_patrol enemy (patrol_state enemy) (patrol_timer enemy + 1)
                 (patrol_turn_target enemy) (patrol_direction enemy) in
  let ahead := wall_ahead enemy walls in
  match patrol_state enemy with
  | PATROL_STATE_FORWARD =>
      let enemy := thrust 0.2 enemy in
      (* Occasionally make course adjustments *)
      let '(enemy, g) :=
        if (patrol_timer enemy mod 60 =? 0)%Z
        then let '(jitter, g') := uniform (-2) 2 g in (rotate jitter enemy, g')
        else (enemy, g) in
      (* Change to turning state periodically *)
      let '(enemy, g) :=
        if (180 <? patrol_timer enemy)%Z then
          let '(u, g1) := random g in
          if Rltb u 0.01 then
            let '(sgn, g2) := choice 1%Z [(-1)%Z; 1%Z] g1 in
            let '(deg, g3) := randint 70 110 g2 in
            let target := IZR (sgn * deg) in
            (with_patrol enemy PATROL_STATE_TURNING 0 target
               (if Rltb 0 target then 1 else -1)%Z, g3)
          else (enemy, g1)
        else (enemy, g) in
      (* Wall avoidance takes priority *)
      let enemy := if ahead then set_state enemy PATROL_STATE_WALL_AVOID else enemy in
      (enemy, ahead, g)
  | PATROL_STATE_TURNING =>
      (* Gradual turning to target angle *)
      let turn_amount := Rmin 2.0 (Rabs (patrol_turn_target enemy) * 0.1) in
      let enemy := rotate (turn_amount * IZR (patrol_direction enemy)) enemy in
      let enemy := with_patrol enemy (patrol_state enemy) (patrol_timer enemy)
                     (patrol_turn_target enemy - turn_amount * IZR (patrol_direction enemy))
                     (patrol_direction enemy) in
      (* Keep some momentum while turning *)
      let enemy := thrust 0.1 enemy in
      let enemy :=
        if Rltb (Rabs (patrol_turn_target enemy)) 5 || (120 <? patrol_timer enemy)%Z
        then set_state enemy PATROL_STATE_FORWARD else enemy in
      let enemy := if ahead then set_state enemy PATROL_STATE_WALL_AVOID else enemy in
      (enemy, ahead, g)
  | PATROL_STATE_WALL_AVOID =>
      let enemy := rotate (IZR (4 * patrol_direction enemy)) enemy in
      (* Apply reverse thrust *)
      let enemy := if (patrol_timer enemy <? 15)%Z then thrust (-0.2) enemy else enemy in
      (* Check if we're now clear of walls *)
      let enemy :=
        if (30 <? patrol_timer enemy)%Z && negb ahead
        then with_patrol enemy PATROL_STATE_FORWARD 0 (patrol_turn_target enemy)
               (patrol_direction enemy * -1)%Z
        else enemy in
      (* If wall avoidance is taking too long, force a state change *)
      let enemy :=
        if (90 <? patrol_timer enemy)%Z
        then with_patrol enemy PATROL_STATE_TURNING 0 180 (patrol_direction enemy)
        else enemy in
      (enemy, ahead, g)
  end.

(** *** Runs and readings of the engine *)

(** The enemy and the random source after [n] successive calls of
    [patrol_movement]. *)
Fixpoint patrol_run (n : nat) (enemy : SpaceObject) (walls : list Rect) (g : Rng)
    : SpaceObject * Rng :=
  match n with
  | O => (enemy, g)
  | S k =>
      let '(e, g1) := patrol_run k enemy walls g in
      let '(e', _, g2) := patrol_movement e walls g1 in
      (e', g2)
  end.

(** The ship at index 1 of the list has no hit points left. *)
Definition enemy_dead (ships : list SpaceObject) : bool :=
  match nth_error ships 1 with
  | Some s => (hp s <=? 0)%Z
  | None => false
  end.

(** The bullet [b] hits the ship at index 1 of the list and leaves it no
    hit points. *)
Definition enemy_killed_by (b : Bullet) (ships : list SpaceObject) : bool :=
  match nth_error ships 1 with
  | Some s => negb (1 =? owner b)%Z && _collides b s && (hp s - 10 <=? 0)%Z
  | None => false
  end.

Definition alive (s : SpaceObject) : bool := (0 <? hp s)%Z.

(** *** Shooting and the behaviour of the enemies *)

(** [Bullet(x, y, angle, owner, speed=speed)], with the default lifespan. *)
Definition new_bullet (x y angle : R) (owner : Z) (speed : R) : Bullet :=
  let rad := radians angle in
  mkBullet x y angle owner 60 (cos rad * speed) (sin rad * speed).

(** [GameEngine.shoot(ship_index)] *)
Definition shoot (ship_index : Z) (e : GameEngine) : Py.Result GameEngine :=
  match Py.index_list (ships e) ship_index with
  | Some ship =>
      (* Spawn bullet slightly in front of the ship *)
      let rad := radians (angle ship) in
      let bullet_x := x ship + cos rad * 15 in
      let bullet_y := y ship + sin rad * 15 in
      let bullet := new_bullet bullet_x bullet_y (angle ship) ship_index 15 in
      Py.Ok (mkEngine (ships e) (bullets e ++ [bullet]) (score e))
  | None => Py.Raise Py.IndexError
  end.

(** [range(start, stop)] *)
Definition range (start stop : Z) : list Z :=
  map (fun k => (start + Z.of_nat k)%Z) (seq 0 (Z.to_nat (stop - start))).

(** [can_see_player(enemy, player, walls)] *)
Definition can_see_player (enemy player : SpaceObject) (walls : list Rect) : bool :=
  let dx := x player - x enemy in
  let dy := y player - y enemy in
  let distance := hypot dx dy in
  let steps := truncate (distance / 10) in
  forallb (fun step =>
             let check_x := x enemy + dx * (IZR step / IZR steps) in
             let check_y := y enemy + dy * (IZR step / IZR steps) in
             let check_rect := Rect_of (check_x - 5) (check_y - 5) 10 10 in
             negb (existsb (colliderect check_rect) walls))
    (range 1 steps).

(** [chase_player(enemy, player)] *)
Definition chase_player (enemy player : SpaceObject) : SpaceObject :=
  let dx := x player - x enemy in
  let dy := y player - y enemy in
  let angle_to_target := Server.degrees (Server.atan2 dy dx) in
  let angle_difference := py_mod (angle_to_target - angle enemy + 360) 360 in
  let angle_difference :=
    if Rltb 180 angle_difference then angle_difference - 360 else angle_difference in
  thrust 0.3 (rotate (angle_difference * 0.1) enemy).

(** [rect.inflate(dx, dy)]: the size grows, the centre stays. *)
Definition inflate (r : Rect) (dx dy : Z) : Rect :=
  mkRect (rect_x r - Z.quot dx 2) (rect_y r - Z.quot dy 2)
    (rect_width r + dx) (rect_height r + dy).

(** [avoid_walls(ship, walls)]: the ship after the call and the returned
    flag. *)
Definition avoid_walls (ship : SpaceObject) (walls : list Rect) : SpaceObject * bool :=
  let ship_rect := Rect_of (x ship - 10) (y ship - 10) 20 20 in
  (* Check further ahead (50 pixels instead of 30) *)
  let lookahead_rect := inflate ship_rect 50 50 in
  match find (colliderect lookahead_rect) walls with
  | Some wall =>
      let wall_center_x := (rect_x wall + rect_width wall / 2)%Z in
      let wall_center_y := (rect_y wall + rect_height wall / 2)%Z in
      let angle_to_wall :=
        Server.degrees (Server.atan2 (IZR wall_center_y - y ship)
                          (IZR wall_center_x - x ship)) in
      let angle_difference := py_mod (angle_to_wall - angle ship + 360) 360 in
      let ship := if Rltb 180 angle_difference then rotate 5 ship else rotate (-5) ship in
      (thrust (-0.3) ship, true)
  | None => (ship, false)
  end.

Definition is_wall_avoid (state : PatrolState) : bool :=
  match state with
  | PATROL_STATE_WALL_AVOID => true
  | _ => false
  end.

(** [chase_and_shoot(enemy, player, walls, engine)]: the enemy after the
    call, whether [engine.shoot] was called for it, and the random source. *)
Definition chase_and_shoot (enemy player : SpaceObject) (walls : list Rect) (g : Rng)
    : SpaceObject * bool * Rng :=
  if can_see_player enemy player walls then
    (* Chase the player *)
    let enemy := chase_player enemy player in
    (* Shoot at the player *)
    let '(u, g) := random g in
    (enemy, Rltb u 0.02, g)
  else
    (* Improved patrol behavior when player not visible *)
    let '(enemy, wall_detected, g) := patrol_movement enemy walls g in
    (* If wall detection failed in patrol, use backup avoidance *)
    let enemy :=
      if wall_detected && negb (is_wall_avoid (patrol_state enemy))
      then fst (avoid_walls enemy walls) else enemy in
    (enemy, false, g).

(** The bullet is inside the world and has frames left. *)
Definition in_flight (b : Bullet) : Prop :=
  0 <= bullet_x b <= WORLD_WIDTH /\ 0 <= bullet_y b <= WORLD_HEIGHT
  /\ (0 < lifespan b)%Z.

(** The object is inside the world, where [update_position] keeps it. *)
Definition in_world (s : SpaceObject) : Prop :=
  0 <= x s <= WORLD_WIDTH /\ 0 <= y s <= WORLD_HEIGHT.

(** A rectangle of non-negative size inside the world. *)
Definition rect_in_world (r : Rect) : Prop :=
  (0 <= rect_x r /\ 0 <= rect_width r /\ rect_x r + rect_width r <= 2000
   /\ 0 <= rect_y r /\ 0 <= rect_height r /\ rect_y r + rect_height r <= 2000)%Z.

(** The 20 by 20 square around the ship, taken in the plane, has no inner
    point in common with the wall. *)
Definition clear_of_wall (s : SpaceObject) (wall : Rect) : Prop :=
  x s + 10 <= IZR (rect_x wall)
  \/ IZR (rect_x wall + rect_width wall) <= x s - 10
  \/ y s + 10 <= IZR (rect_y wall)
  \/ IZR (rect_y wall + rect_height wall) <= y s - 10.

(** The other ship is at least 21 units away along one axis: the squares
    of the two ships are a unit apart, which the truncation of their
    corners to integers cannot bridge. *)
Definition clear_of_ship (s other : SpaceObject) : Prop :=
  21 <= Rabs (x other - x s) \/ 21 <= Rabs (y other - y s).

(** [patrol_direction] is one of the two values the code assigns. *)
Definition unit_direction (s : SpaceObject) : Prop :=
  patrol_direction s = 1%Z \/ patrol_direction s = (-1)%Z.

End Engine.
(* ================================================================== *)
(** * Properties *)
(* ================================================================== *)

(** ** Real comparisons *)

Lemma Rltb_true (a b : R) : Rltb a b = true <-> a < b.
Proof. unfold Rltb; destruct (Rlt_dec a b); split; intros; congruence || assumption. Qed.

Lemma Rltb_false (a b : R) : Rltb a b = false <-> b <= a.
Proof.
  unfold Rltb; destruct (Rlt_dec a b); split; intros; try congruence; lra.
Qed.

Lemma Rleb_true (a b : R) : Rleb a b = true <-> a <= b.
Proof. unfold Rleb; destruct (Rle_dec a b); split; intros; congruence || assumption. Qed.

Lemma Rleb_false (a b : R) : Rleb a b = false <-> b < a.
Proof.
  unfold Rleb; destruct (Rle_dec a b); split; intros; try congruence; lra.
Qed.

Lemma Reqb_true (a b : R) : Reqb a b = true <-> a = b.
Proof. unfold Reqb; destruct (Req_dec_T a b); split; intros; congruence || assumption. Qed.

Lemma Reqb_false (a b : R) : Reqb a b = false <-> a <> b.
Proof. unfold Reqb; destruct (Req_dec_T a b); split; intros; congruence. Qed.

(** Replaces every comparison of the goal by its two possible answers and
    drops the ones linear arithmetic refutes. *)
Ltac rcmp :=
  repeat match goal with
  | |- context [Rltb ?a ?b] =>
      let E := fresh "E" in
      destruct (Rltb a b) eqn:E;
      [ apply Rltb_true in E | apply Rltb_false in E ]; try (exfalso; lra)
  | |- context [Rleb ?a ?b] =>
      let E := fresh "E" in
      destruct (Rleb a b) eqn:E;
      [ apply Rleb_true in E | apply Rleb_false in E ]; try (exfalso; lra)
  | |- context [Reqb ?a ?b] =>
      let E := fresh "E" in
      destruct (Reqb a b) eqn:E;
      [ apply Reqb_true in E | apply Reqb_false in E ]; try (exfalso; lra)
  end.

Lemma hypot_axis_x (d : R) : 0 <= d -> hypot d 0 = d.
Proof.
  intros Hd; unfold hypot.
  replace (d * d + 0 * 0) with (d * d) by ring.
  now apply sqrt_square.
Qed.

Lemma radians_0 : radians 0 = 0.
Proof. unfold radians; lra. Qed.

(** ** Geometry kernel *)

Module GeometryFacts.
Import Server.

(** When the test passes, both parameters lie in [[0, 1]] and name one
    point: the one [get_intersection_point] returns, on the first segment
    at [ua] and on the second at [ub]. *)
Lemma line_intersects_line_point (x1 y1 x2 y2 x3 y3 x4 y4 : R) :
  line_intersects_line x1 y1 x2 y2 x3 y3 x4 y4 = true ->
  exists ua ub,
    0 <= ua <= 1 /\ 0 <= ub <= 1 /\
    get_intersection_point x1 y1 x2 y2 x3 y3 x4 y4
      = Some (x1 + ua * (x2 - x1), y1 + ua * (y2 - y1)) /\
    x1 + ua * (x2 - x1) = x3 + ub * (x4 - x3) /\
    y1 + ua * (y2 - y1) = y3 + ub * (y4 - y3).
Proof.
  unfold line_intersects_line, get_intersection_point.
  set (den := (y4 - y3) * (x2 - x1) - (x4 - x3) * (y2 - y1)).
  destruct (Reqb den 0) eqn:Hden; [discriminate|].
  apply Reqb_false in Hden.
  set (ua := ((x4 - x3) * (y1 - y3) - (y4 - y3) * (x1 - x3)) / den).
  set (ub := ((x2 - x1) * (y1 - y3) - (y2 - y1) * (x1 - x3)) / den).
  intros H.
  apply andb_true_iff in H as [Ha Hb].
  apply andb_true_iff in Ha as [Ha0 Ha1].
  apply andb_true_iff in Hb as [Hb0 Hb1].
  apply Rleb_true in Ha0, Ha1, Hb0, Hb1.
  exists ua, ub; repeat split; try assumption.
  - unfold ua, ub, den in *; field; exact Hden.
  - unfold ua, ub, den in *; field; exact Hden.
Qed.

(** The agent's orientation test read as a sign condition. *)
Lemma ccw_true (a b c : R * R) :
  Agent.ccw a b c = true
  <-> (snd b - snd a) * (fst c - fst a) < (snd c - snd a) * (fst b - fst a).
Proof. unfold Agent.ccw; apply Rltb_true. Qed.

Lemma ccw_false (a b c : R * R) :
  Agent.ccw a b c = false
  <-> (snd c - snd a) * (fst b - fst a) <= (snd b - snd a) * (fst c - fst a).
Proof. unfold Agent.ccw; apply Rltb_false. Qed.

(** Three points on one line are not counter-clockwise: the comparison in
    [ccw] is strict. *)
Lemma ccw_collinear (x1 y1 x2 y2 t : R) :
  Agent.ccw (x1, y1) (x2, y2) (x1 + t * (x2 - x1), y1 + t * (y2 - y1)) = false.
Proof. apply ccw_false; simpl; nra. Qed.

(** C7, as stated, fails on both tests: the segment from
    (1,0) to (1,1) touches the segment from (0,0) to (2,0) with its
    endpoint (1,0), and both tests answer that the segments intersect. *)
Lemma touching_endpoint_reported :
  (1 = 0 + (1 / 2) * (2 - 0) /\ 0 = 0 + (1 / 2) * (0 - 0))
  /\ Agent._line_intersects_line 0 0 2 0 1 0 1 1 = true
  /\ Server.line_intersects_line 0 0 2 0 1 0 1 1 = true.
Proof.
  split; [split; lra|]. split.
  - unfold Agent._line_intersects_line, Agent.ccw; simpl. rcmp. reflexivity.
  - unfold Server.line_intersects_line.
    replace ((1 - 0) * (2 - 0) - (1 - 1) * (0 - 0)) with 2 by ring.
    replace (((1 - 1) * (0 - 0) - (1 - 0) * (0 - 1)) / 2) with (1 / 2) by field.
    replace (((2 - 0) * (0 - 0) - (0 - 0) * (0 - 1)) / 2) with 0 by field.
    rcmp. reflexivity.
Qed.

(** The orientation tests of the goal, taken one by one; what is left is
    arithmetic on the signs. *)
Ltac ccw_cases :=
  repeat match goal with
         | |- context [Agent.ccw ?a ?b ?c] =>
             let E := fresh "E" in
             destruct (Agent.ccw a b c) eqn:E;
             [apply ccw_true in E|apply ccw_false in E]; cbn [fst snd] in E
         end;
  cbn [xorb andb negb]; try reflexivity; exfalso; nra.

(** C7, amended.  Write [a], [b] for the ends of the first segment and
    [c], [d] for those of the second, and let one of the four lie on the
    other segment, at parameter [t] of [[0, 1]].  The agent's test, whose
    orientation comparison is strict (three points on a line are not
    counter-clockwise), then answers false when the contact joins the two
    first ends ([a] and [c]) or the two second ends ([b] and [d]), and
    otherwise exactly what [ccw] answers for the other end of the touching
    segment: the contact counts as an intersection when that end is
    strictly counter-clockwise of the touched segment, and as none
    otherwise.  The server's test, whose bounds [0 <= ua <= 1] and
    [0 <= ub <= 1] are inclusive, answers true for every such contact of
    two segments that are not parallel. *)
Theorem touching_endpoint_verdicts (x1 y1 x2 y2 x3 y3 x4 y4 t : R) :
  0 <= t <= 1 ->
  let a := (x1, y1) in
  let b := (x2, y2) in
  let c := (x3, y3) in
  let d := (x4, y4) in
  let test := Agent._line_intersects_line x1 y1 x2 y2 x3 y3 x4 y4 in
  Agent.ccw a b (along a b t) = false
  /\ (c = along a b t -> test = negb (Reqb t 0) && Agent.ccw a b d)
  /\ (d = along a b t -> test = negb (Reqb t 1) && Agent.ccw a b c)
  /\ (a = along c d t -> test = negb (Reqb t 0) && Agent.ccw b c d)
  /\ (b = along c d t -> test = negb (Reqb t 1) && Agent.ccw a c d)
  /\ (c = along a b t \/ d = along a b t \/ a = along c d t \/ b = along c d t ->
      (y4 - y3) * (x2 - x1) - (x4 - x3) * (y2 - y1) <> 0 ->
      Server.line_intersects_line x1 y1 x2 y2 x3 y3 x4 y4 = true).
Proof.
  intros Ht a b c d test.
  unfold test, Agent._line_intersects_line, a, b, c, d, along; cbn [fst snd].
  split; [apply ccw_collinear|].
  split; [|split; [|split; [|split]]].
  - intros H; injection H as -> ->.
    destruct (Reqb t 0) eqn:E; [apply Reqb_true in E|apply Reqb_false in E]; ccw_cases.
  - intros H; injection H as -> ->.
    destruct (Reqb t 1) eqn:E; [apply Reqb_true in E|apply Reqb_false in E]; ccw_cases.
  - intros H; injection H as -> ->.
    destruct (Reqb t 0) eqn:E; [apply Reqb_true in E|apply Reqb_false in E]; ccw_cases.
  - intros H; injection H as -> ->.
    destruct (Reqb t 1) eqn:E; [apply Reqb_true in E|apply Reqb_false in E]; ccw_cases.
  - intros H Hden.
    unfold Server.line_intersects_line.
    destruct (Reqb _ 0) eqn:E; [apply Reqb_true in E; contradiction|].
    set (den := (y4 - y3) * (x2 - x1) - (x4 - x3) * (y2 - y1)) in *.
    assert (Hab : 0 <= ((x4 - x3) * (y1 - y3) - (y4 - y3) * (x1 - x3)) / den <= 1
                  /\ 0 <= ((x2 - x1) * (y1 - y3) - (y2 - y1) * (x1 - x3)) / den <= 1).
    { destruct H as [H|[H|[H|H]]]; injection H as Hx Hy.
      - replace (((x4 - x3) * (y1 - y3) - (y4 - y3) * (x1 - x3)) / den) with t
          by (unfold den in *; subst x3 y3; field; exact Hden).
        replace (((x2 - x1) * (y1 - y3) - (y2 - y1) * (x1 - x3)) / den) with 0
          by (unfold den in *; subst x3 y3; field; exact Hden).
        lra.
      - replace (((x4 - x3) * (y1 - y3) - (y4 - y3) * (x1 - x3)) / den) with t
          by (unfold den in *; subst x4 y4; field; exact Hden).
        replace (((x2 - x1) * (y1 - y3) - (y2 - y1) * (x1 - x3)) / den) with 1
          by (unfold den in *; subst x4 y4; field; exact Hden).
        lra.
      - replace (((x4 - x3) * (y1 - y3) - (y4 - y3) * (x1 - x3)) / den) with 0
          by (unfold den in *; subst x1 y1; field; exact Hden).
        replace (((x2 - x1) * (y1 - y3) - (y2 - y1) * (x1 - x3)) / den) with t
          by (unfold den in *; subst x1 y1; field; exact Hden).
        lra.
      - replace (((x4 - x3) * (y1 - y3) - (y4 - y3) * (x1 - x3)) / den) with 1
          by (unfold den in *; subst x2 y2; field; exact Hden).
        replace (((x2 - x1) * (y1 - y3) - (y2 - y1) * (x1 - x3)) / den) with t
          by (unfold den in *; subst x2 y2; field; exact Hden).
        lra. }
    destruct Hab as [[Ha0 Ha1] [Hb0 Hb1]].
    apply Rleb_true in Ha0, Ha1, Hb0, Hb1.
    rewrite Ha0, Ha1, Hb0, Hb1. reflexivity.
Qed.

(** The second segment, from (2,1) down to (2,0), ends on the second end
    of the first, from (0,0) to (2,0): no intersection, although (2,1) is
    counter-clockwise of the first segment.  Turned round, from (2,0) up
    to (2,1), it starts there and the test answers true. *)
Lemma touching_endpoint_verdicts_witness :
  0 <= 1 <= 1
  /\ Agent.ccw (0, 0) (2, 0) (2, 1) = true
  /\ Agent._line_intersects_line 0 0 2 0 2 1 2 0 = false
  /\ Agent._line_intersects_line 0 0 2 0 2 0 2 1 = true.
Proof.
  assert (Ht : 0 <= 1 <= 1) by lra.
  assert (Hc : Agent.ccw (0, 0) (2, 0) (2, 1) = true) by (apply ccw_true; cbn [fst snd]; lra).
  assert (Hp : (2, 0) = along (0, 0) (2, 0) 1) by (unfold along; cbn [fst snd]; f_equal; lra).
  split; [exact Ht|]. split; [exact Hc|]. split.
  - destruct (touching_endpoint_verdicts 0 0 2 0 2 1 2 0 1 Ht) as (_ & _ & H & _).
    rewrite (H Hp).
    replace (Reqb 1 1) with true by (symmetry; apply Reqb_true; reflexivity).
    reflexivity.
  - destruct (touching_endpoint_verdicts 0 0 2 0 2 0 2 1 1 Ht) as (_ & H & _).
    rewrite (H Hp), Hc.
    replace (Reqb 1 0) with false by (symmetry; apply Reqb_false; lra).
    reflexivity.
Defined.

(** *** The laser *)

Lemma laser_scan_spec (x y end_x end_y : R) (walls : list Wall) :
  forall (c : option Point) (m : R) (c' : option Point) (m' : R),
  laser_scan x y end_x end_y walls c m = (c', m') ->
  m' <= m
  /\ (forall w p, In w walls -> line_intersects_rect x y end_x end_y w = Some p ->
                 m' <= hit_distance x y p)
  /\ ((c' = c /\ m' = m)
      \/ (exists w p, In w walls /\ line_intersects_rect x y end_x end_y w = Some p
                      /\ c' = Some p /\ m' = hit_distance x y p /\ m' < m)).
Proof.
  induction walls as [|wall rest IH]; intros c m c' m' H; simpl in H.
  - inversion H; subst. split; [lra|]. split; [intros w p []|]. now left.
  - destruct (line_intersects_rect x y end_x end_y wall) as [[hit_x hit_y]|] eqn:Hw.
    + destruct (Rltb _ m) eqn:Hlt.
      * apply Rltb_true in Hlt.
        apply IH in H as (Hle & Hmin & Hsrc).
        split; [lra|]. split.
        -- intros w p [<-|Hin] Hp.
           ++ rewrite Hw in Hp; inversion Hp; subst p. unfold hit_distance; simpl. lra.
           ++ eauto.
        -- right. destruct Hsrc as [[-> ->]|(w & p & Hin & Hp & -> & -> & Hlt')].
           ++ exists wall, (hit_x, hit_y). repeat split; auto. now left.
           ++ exists w, p. repeat split; auto. now right. lra.
      * apply Rltb_false in Hlt.
        apply IH in H as (Hle & Hmin & Hsrc).
        split; [lra|]. split.
        -- intros w p [<-|Hin] Hp.
           ++ rewrite Hw in Hp; inversion Hp; subst p. unfold hit_distance; simpl. lra.
           ++ eauto.
        -- destruct Hsrc as [[-> ->]|(w & p & Hin & Hp & -> & -> & Hlt')].
           ++ now left.
           ++ right. exists w, p. repeat split; auto. now right.
    + apply IH in H as (Hle & Hmin & Hsrc).
      split; [lra|]. split.
      * intros w p [<-|Hin] Hp; [congruence|eauto].
      * destruct Hsrc as [[-> ->]|(w & p & Hin & Hp & -> & -> & Hlt')].
        -- now left.
        -- right. exists w, p. repeat split; auto. now right.
Qed.

(** A reported hit is closer than the 50-unit range, is the distance to
    the point [line_intersects_rect] returns for some wall, and no wall's
    returned point is closer. *)
Lemma check_laser_hit (x y angle d : R) (walls : list Wall) :
  check_laser x y angle walls = (true, Some d) ->
  let end_x := x + cos (radians angle) * max_distance in
  let end_y := y + sin (radians angle) * max_distance in
  d < max_distance
  /\ (exists w p, In w walls /\ line_intersects_rect x y end_x end_y w = Some p
                  /\ d = hit_distance x y p)
  /\ (forall w p, In w walls -> line_intersects_rect x y end_x end_y w = Some p ->
                 d <= hit_distance x y p).
Proof.
  intros H end_x end_y; unfold check_laser in H; fold end_x end_y in H.
  destruct (laser_scan _ _ _ _ walls None max_distance) as [[hit|] m] eqn:Hscan;
    inversion H; subst m.
  apply laser_scan_spec in Hscan as (Hle & Hmin & Hsrc).
  destruct Hsrc as [[Hc _]|(w & p & Hin & Hp & _ & Hd & Hlt)]; [discriminate|].
  split; [exact Hlt|]. split; [|exact Hmin]. now exists w, p.
Qed.

(** When no wall is met by the 50-unit ray, no hit is reported. *)
Lemma check_laser_clear (x y angle : R) (walls : list Wall) :
  (forall w, In w walls ->
     line_intersects_rect x y (x + cos (radians angle) * max_distance)
       (y + sin (radians angle) * max_distance) w = None) ->
  check_laser x y angle walls = (false, None).
Proof.
  unfold check_laser; intros Hnone.
  destruct (laser_scan _ _ _ _ walls None max_distance) as [[hit|] m] eqn:Hscan;
    [|reflexivity].
  apply laser_scan_spec in Hscan as (_ & _ & Hsrc).
  destruct Hsrc as [[Hc _]|(w & p & Hin & Hp & _)]; [discriminate|].
  rewrite (Hnone w Hin) in Hp; discriminate.
Qed.

(** The defect on a single wall.  A ship at (0, 5) heading 0 degrees
    faces the wall [{x: 20, y: 0, width: 10, height: 10}].  The ray enters
    the wall through its left edge at (20, 5), 20 units away, and leaves
    it through the right edge at (30, 5).  [line_intersects_rect] returns
    the right edge's point, because that edge comes first in its list, so
    the laser reports 30. *)
Example laser_reports_far_edge :
  let wall := mkWall 20 0 10 10 in
  check_laser 0 5 0 [wall] = (true, Some 30)
  /\ line_intersects_line 0 5 50 5 20 (0 + 10) 20 0 = true
  /\ get_intersection_point 0 5 50 5 20 (0 + 10) 20 0 = Some (20, 5)
  /\ hit_distance 0 5 (20, 5) = 20.
Proof.
  assert (Htop : line_intersects_line 0 5 50 5 20 0 (20 + 10) 0 = false)
    by (unfold line_intersects_line; rcmp; reflexivity).
  assert (Hright : line_intersects_line 0 5 50 5 (20 + 10) 0 (20 + 10) (0 + 10) = true)
    by (unfold line_intersects_line; rcmp; reflexivity).
  assert (Hpoint : get_intersection_point 0 5 50 5 (20 + 10) 0 (20 + 10) (0 + 10)
                   = Some (30, 5))
    by (unfold get_intersection_point; rcmp; f_equal; f_equal; field).
  cbv zeta. repeat split.
  - unfold check_laser. rewrite radians_0, cos_0, sin_0. unfold max_distance.
    replace (0 + 1 * 50) with 50 by ring. replace (5 + 0 * 50) with 5 by ring.
    cbv [laser_scan line_intersects_rect rect_edges first_edge_hit
         wall_x wall_y wall_width wall_height].
    rewrite Htop, Hright, Hpoint.
    replace ((30 - 0) ^ 2 + (5 - 5) ^ 2) with (30 * 30) by ring.
    rewrite sqrt_square by lra.
    rcmp. reflexivity.
  - unfold line_intersects_line; rcmp; reflexivity.
  - unfold get_intersection_point; rcmp; f_equal; f_equal; field.
  - unfold hit_distance; simpl fst; simpl snd.
    replace ((20 - 0) ^ 2 + (5 - 5) ^ 2) with (20 * 20) by ring.
    apply sqrt_square; lra.
Qed.

(** *** Line of sight *)

Lemma convex_between (a b t : R) :
  0 <= t <= 1 -> Rmin a b <= a + t * (b - a) <= Rmax a b.
Proof.
  intros Ht. unfold Rmin, Rmax. destruct (Rle_dec a b); nra.
Qed.

Lemma get_intersection_point_some (x1 y1 x2 y2 x3 y3 x4 y4 : R) :
  line_intersects_line x1 y1 x2 y2 x3 y3 x4 y4 = true ->
  get_intersection_point x1 y1 x2 y2 x3 y3 x4 y4 <> None.
Proof.
  intros H. apply line_intersects_line_point in H as (ua & ub & _ & _ & -> & _).
  discriminate.
Qed.

Lemma first_edge_hit_none (x1 y1 x2 y2 : R) (edges : list Edge) :
  first_edge_hit x1 y1 x2 y2 edges = None
  <-> (forall x3 y3 x4 y4, In (x3, y3, x4, y4) edges ->
         line_intersects_line x1 y1 x2 y2 x3 y3 x4 y4 = false).
Proof.
  induction edges as [|[[[x3 y3] x4] y4] rest IH]; simpl.
  - split; [intros _ ? ? ? ? []|reflexivity].
  - destruct (line_intersects_line x1 y1 x2 y2 x3 y3 x4 y4) eqn:Hl.
    + split.
      * intros Hg. now apply get_intersection_point_some in Hl.
      * intros Hall. rewrite (Hall x3 y3 x4 y4) in Hl by now left. discriminate.
    + rewrite IH. split.
      * intros Hall a b c d [Heq|Hin]; [inversion Heq; subst; exact Hl|auto].
      * intros Hall a b c d Hin. apply Hall. now right.
Qed.

(** A returned point lies on the segment, at some parameter in [[0, 1]],
    and inside the bounding box of the rectangle. *)
Lemma line_intersects_rect_point (x1 y1 x2 y2 : R) (rect : Wall) (p : Point) :
  line_intersects_rect x1 y1 x2 y2 rect = Some p ->
  exists ua px py,
    0 <= ua <= 1
    /\ px = x1 + ua * (x2 - x1) /\ py = y1 + ua * (y2 - y1)
    /\ Rmin (wall_x rect) (wall_x rect + wall_width rect) <= px
         <= Rmax (wall_x rect) (wall_x rect + wall_width rect)
    /\ Rmin (wall_y rect) (wall_y rect + wall_height rect) <= py
         <= Rmax (wall_y rect) (wall_y rect + wall_height rect).
Proof.
  unfold line_intersects_rect, rect_edges.
  set (left := wall_x rect). set (top := wall_y rect).
  set (right := left + wall_width rect). set (bottom := top + wall_height rect).
  assert (Hedge : forall x3 y3 x4 y4,
            (x3 = left \/ x3 = right) -> (x4 = left \/ x4 = right) ->
            (y3 = top \/ y3 = bottom) -> (y4 = top \/ y4 = bottom) ->
            line_intersects_line x1 y1 x2 y2 x3 y3 x4 y4 = true ->
            exists ua px py,
              0 <= ua <= 1
              /\ px = x1 + ua * (x2 - x1) /\ py = y1 + ua * (y2 - y1)
              /\ Rmin left right <= px <= Rmax left right
              /\ Rmin top bottom <= py <= Rmax top bottom).
  { intros x3 y3 x4 y4 Hx3 Hx4 Hy3 Hy4 Hl.
    apply line_intersects_line_point in Hl as (ua & ub & Hua & Hub & _ & Hx & Hy).
    exists ua, (x1 + ua * (x2 - x1)), (y1 + ua * (y2 - y1)).
    split; [exact Hua|]. split; [reflexivity|]. split; [reflexivity|].
    rewrite Hx, Hy.
    pose proof (convex_between x3 x4 ub Hub) as Bx.
    pose proof (convex_between y3 y4 ub Hub) as By.
    unfold Rmin, Rmax in *.
    destruct (Rle_dec left right), (Rle_dec top bottom),
             (Rle_dec x3 x4), (Rle_dec y3 y4);
      destruct Hx3, Hx4, Hy3, Hy4; subst; lra. }
  simpl first_edge_hit. intros H.
  destruct (line_intersects_line x1 y1 x2 y2 left top right top) eqn:E1;
    [apply Hedge in E1; auto|].
  destruct (line_intersects_line x1 y1 x2 y2 right top right bottom) eqn:E2;
    [apply Hedge in E2; auto|].
  destruct (line_intersects_line x1 y1 x2 y2 right bottom left bottom) eqn:E3;
    [apply Hedge in E3; auto|].
  destruct (line_intersects_line x1 y1 x2 y2 left bottom left top) eqn:E4;
    [apply Hedge in E4; auto|].
  discriminate.
Qed.

(** For a thin wall the pre-filter only skips walls the segment does not
    meet. *)
Lemma far_from_sight_sound (from_x from_y to_x to_y : R) (wall : Wall) :
  thin wall ->
  far_from_sight from_x from_y to_x to_y wall = true ->
  line_intersects_rect from_x from_y to_x to_y wall = None.
Proof.
  intros Hthin Hfar.
  destruct (line_intersects_rect from_x from_y to_x to_y wall) as [p|] eqn:Hp;
    [exfalso|reflexivity].
  apply line_intersects_rect_point in Hp
    as (ua & px & py & Hua & Hpx & Hpy & Bx & By).
  pose proof (convex_between from_x to_x ua Hua) as Sx.
  pose proof (convex_between from_y to_y ua Hua) as Sy.
  rewrite <- Hpx in Sx. rewrite <- Hpy in Sy.
  unfold far_from_sight in Hfar.
  apply andb_true_iff in Hfar as [Hx Hy].
  apply orb_true_iff in Hx. apply orb_true_iff in Hy.
  rewrite !Rltb_true in Hx, Hy.
  unfold thin in Hthin.
  revert Hthin Bx By Hx Hy Sx Sy.
  generalize (Rmin from_x to_x) (Rmax from_x to_x)
             (Rmin from_y to_y) (Rmax from_y to_y).
  intros mnx mxx mny mxy.
  unfold Rabs, Rmin, Rmax.
  destruct (Rcase_abs (wall_width wall)), (Rcase_abs (wall_height wall)),
           (Rle_dec (wall_x wall) (wall_x wall + wall_width wall)),
           (Rle_dec (wall_y wall) (wall_y wall + wall_height wall));
    intros [Hw|Hh] Bx By [Hx|Hx] [Hy|Hy] Sx Sy; lra.
Qed.

Lemma sight_clear_thin (from_x from_y to_x to_y : R) (walls : list Wall) :
  Forall thin walls ->
  sight_clear from_x from_y to_x to_y walls = true
  <-> (forall wall, In wall walls ->
         line_intersects_rect from_x from_y to_x to_y wall = None).
Proof.
  induction 1 as [|wall rest Hthin _ IH]; simpl.
  - split; [intros _ ? []|reflexivity].
  - destruct (far_from_sight from_x from_y to_x to_y wall) eqn:Hfar.
    + rewrite IH. split.
      * intros Hall w [<-|Hin]; [now apply far_from_sight_sound|auto].
      * intros Hall w Hin. apply Hall. now right.
    + destruct (line_intersects_rect from_x from_y to_x to_y wall) eqn:Hw.
      * split; [discriminate|]. intros Hall.
        rewrite (Hall wall) in Hw by now left. discriminate.
      * rewrite IH. split.
        -- intros Hall w [<-|Hin]; auto.
        -- intros Hall w Hin. apply Hall. now right.
Qed.

(** The parametric test answers true exactly for two segments that are
    not parallel and have a point in common. *)
Lemma line_intersects_line_meet (x1 y1 x2 y2 x3 y3 x4 y4 : R) :
  line_intersects_line x1 y1 x2 y2 x3 y3 x4 y4 = true
  <-> (y4 - y3) * (x2 - x1) - (x4 - x3) * (y2 - y1) <> 0
      /\ exists t u, 0 <= t <= 1 /\ 0 <= u <= 1
                     /\ x1 + t * (x2 - x1) = x3 + u * (x4 - x3)
                     /\ y1 + t * (y2 - y1) = y3 + u * (y4 - y3).
Proof.
  split.
  - intros H. split.
    + intros Hden. unfold line_intersects_line in H.
      apply Reqb_true in Hden. rewrite Hden in H. discriminate H.
    + apply line_intersects_line_point in H as (ua & ub & Hua & Hub & _ & Hx & Hy).
      exists ua, ub. split; [exact Hua|]. split; [exact Hub|]. split; assumption.
  - intros [Hden (t & u & Ht & Hu & Hx & Hy)].
    unfold line_intersects_line.
    destruct (Reqb _ 0) eqn:E; [apply Reqb_true in E; contradiction|].
    set (den := (y4 - y3) * (x2 - x1) - (x4 - x3) * (y2 - y1)) in *.
    assert (Hdx : x1 - x3 = u * (x4 - x3) - t * (x2 - x1)) by lra.
    assert (Hdy : y1 - y3 = u * (y4 - y3) - t * (y2 - y1)) by lra.
    assert (Hua : ((x4 - x3) * (y1 - y3) - (y4 - y3) * (x1 - x3)) / den = t).
    { apply Rmult_eq_reg_r with den; [|exact Hden].
      unfold Rdiv. rewrite Rmult_assoc, Rinv_l, Rmult_1_r by exact Hden.
      unfold den. rewrite Hdx, Hdy. ring. }
    assert (Hub : ((x2 - x1) * (y1 - y3) - (y2 - y1) * (x1 - x3)) / den = u).
    { apply Rmult_eq_reg_r with den; [|exact Hden].
      unfold Rdiv. rewrite Rmult_assoc, Rinv_l, Rmult_1_r by exact Hden.
      unfold den. rewrite Hdx, Hdy. ring. }
    rewrite Hua, Hub.
    destruct Ht as [Ht0 Ht1], Hu as [Hu0 Hu1].
    apply Rleb_true in Ht0, Ht1, Hu0, Hu1.
    rewrite Ht0, Ht1, Hu0, Hu1. reflexivity.
Qed.

(** An edge along the x axis is met exactly by a segment that is not
    horizontal and passes its height between its ends. *)
Lemma horizontal_edge_met (x1 y1 x2 y2 xa xb yc : R) :
  xa <> xb ->
  line_intersects_line x1 y1 x2 y2 xa yc xb yc = true
  <-> y1 <> y2
      /\ exists t, 0 <= t <= 1 /\ y1 + t * (y2 - y1) = yc
                   /\ Rmin xa xb <= x1 + t * (x2 - x1) <= Rmax xa xb.
Proof.
  intros Hab. rewrite line_intersects_line_meet. split.
  - intros [Hden (t & u & Ht & Hu & Hx & Hy)]. split; [intros E; apply Hden; rewrite E; ring|].
    exists t. split; [exact Ht|]. split; [lra|].
    rewrite Hx. apply convex_between. exact Hu.
  - intros [Hy (t & Ht & Hyc & Hx)]. split.
    + intros E. assert (E' : (xb - xa) * (y2 - y1) = 0) by lra.
      apply Rmult_integral in E'. lra.
    + exists t, ((x1 + t * (x2 - x1) - xa) / (xb - xa)).
      split; [exact Ht|].
      assert (Hd : xb - xa <> 0) by lra.
      split; [|split; [field; exact Hd|lra]].
      unfold Rmin, Rmax in Hx. destruct (Rle_dec xa xb).
      * assert (0 < xb - xa) by lra. split.
        -- apply Rmult_le_reg_r with (xb - xa); [lra|].
           unfold Rdiv; rewrite Rmult_assoc, Rinv_l by exact Hd. lra.
        -- apply Rmult_le_reg_r with (xb - xa); [lra|].
           unfold Rdiv; rewrite Rmult_assoc, Rinv_l by exact Hd. lra.
      * assert (0 < xa - xb) by lra.
        replace ((x1 + t * (x2 - x1) - xa) / (xb - xa))
          with ((xa - (x1 + t * (x2 - x1))) / (xa - xb)) by (field; lra).
        assert (Hd' : xa - xb <> 0) by lra. split.
        -- apply Rmult_le_reg_r with (xa - xb); [lra|].
           unfold Rdiv; rewrite Rmult_assoc, Rinv_l by exact Hd'. lra.
        -- apply Rmult_le_reg_r with (xa - xb); [lra|].
           unfold Rdiv; rewrite Rmult_assoc, Rinv_l by exact Hd'. lra.
Qed.

(** The same for an edge along the y axis. *)
Lemma vertical_edge_met (x1 y1 x2 y2 xc ya yb : R) :
  ya <> yb ->
  line_intersects_line x1 y1 x2 y2 xc ya xc yb = true
  <-> x1 <> x2
      /\ exists t, 0 <= t <= 1 /\ x1 + t * (x2 - x1) = xc
                   /\ Rmin ya yb <= y1 + t * (y2 - y1) <= Rmax ya yb.
Proof.
  intros Hab. rewrite line_intersects_line_meet. split.
  - intros [Hden (t & u & Ht & Hu & Hx & Hy)]. split; [intros E; apply Hden; rewrite E; ring|].
    exists t. split; [exact Ht|]. split; [lra|].
    rewrite Hy. apply convex_between. exact Hu.
  - intros [Hx (t & Ht & Hxc & Hy)]. split.
    + intros E. assert (E' : (yb - ya) * (x2 - x1) = 0) by lra.
      apply Rmult_integral in E'. lra.
    + exists t, ((y1 + t * (y2 - y1) - ya) / (yb - ya)).
      split; [exact Ht|].
      assert (Hd : yb - ya <> 0) by lra.
      split; [|split; [lra|field; exact Hd]].
      unfold Rmin, Rmax in Hy. destruct (Rle_dec ya yb).
      * assert (0 < yb - ya) by lra. split.
        -- apply Rmult_le_reg_r with (yb - ya); [lra|].
           unfold Rdiv; rewrite Rmult_assoc, Rinv_l by exact Hd. lra.
        -- apply Rmult_le_reg_r with (yb - ya); [lra|].
           unfold Rdiv; rewrite Rmult_assoc, Rinv_l by exact Hd. lra.
      * assert (0 < ya - yb) by lra.
        replace ((y1 + t * (y2 - y1) - ya) / (yb - ya))
          with ((ya - (y1 + t * (y2 - y1))) / (ya - yb)) by (field; lra).
        assert (Hd' : ya - yb <> 0) by lra. split.
        -- apply Rmult_le_reg_r with (ya - yb); [lra|].
           unfold Rdiv; rewrite Rmult_assoc, Rinv_l by exact Hd'. lra.
        -- apply Rmult_le_reg_r with (ya - yb); [lra|].
           unfold Rdiv; rewrite Rmult_assoc, Rinv_l by exact Hd'. lra.
Qed.

Lemma between_param (a b c : R) :
  a <> b -> Rmin a b <= c <= Rmax a b ->
  exists t, 0 <= t <= 1 /\ a + t * (b - a) = c.
Proof.
  intros Hab Hc. exists ((c - a) / (b - a)).
  assert (Hd : b - a <> 0) by lra.
  split; [|field; exact Hd].
  unfold Rmin, Rmax in Hc. destruct (Rle_dec a b).
  - split.
    + apply Rmult_le_reg_r with (b - a); [lra|].
      unfold Rdiv; rewrite Rmult_assoc, Rinv_l by exact Hd. lra.
    + apply Rmult_le_reg_r with (b - a); [lra|].
      unfold Rdiv; rewrite Rmult_assoc, Rinv_l by exact Hd. lra.
  - replace ((c - a) / (b - a)) with ((a - c) / (a - b)) by (field; lra).
    assert (Hd' : a - b <> 0) by lra. split.
    + apply Rmult_le_reg_r with (a - b); [lra|].
      unfold Rdiv; rewrite Rmult_assoc, Rinv_l by exact Hd'. lra.
    + apply Rmult_le_reg_r with (a - b); [lra|].
      unfold Rdiv; rewrite Rmult_assoc, Rinv_l by exact Hd'. lra.
Qed.

(** [line_intersects_rect] for a wall of positive size and a segment of
    positive length: it finds a point exactly when the boundary of the wall
    meets the segment other than by the segment running along one edge
    between its corners. *)
Lemma line_intersects_rect_blocks (x1 y1 x2 y2 : R) (wall : Wall) :
  solid wall -> (x1 <> x2 \/ y1 <> y2) ->
  line_intersects_rect x1 y1 x2 y2 wall = None <-> ~ blocks x1 y1 x2 y2 wall.
Proof.
  intros [Hw Hh] Hlen.
  unfold line_intersects_rect. rewrite first_edge_hit_none.
  unfold blocks, on_segment, on_boundary, runs_along_edge, rect_edges, along.
  cbn [fst snd].
  set (left := wall_x wall) in *. set (top := wall_y wall) in *.
  set (right := left + wall_width wall). set (bottom := top + wall_height wall).
  assert (Hlr : left < right) by (unfold right; lra).
  assert (Htb : top < bottom) by (unfold bottom; lra).
  assert (Rlr : Rmin left right = left /\ Rmax left right = right
                /\ Rmin right left = left /\ Rmax right left = right).
  { unfold Rmin, Rmax. destruct (Rle_dec left right), (Rle_dec right left); lra. }
  assert (Rtb : Rmin top bottom = top /\ Rmax top bottom = bottom
                /\ Rmin bottom top = top /\ Rmax bottom top = bottom).
  { unfold Rmin, Rmax. destruct (Rle_dec top bottom), (Rle_dec bottom top); lra. }
  destruct Rlr as (Rlr1 & Rlr2 & Rlr3 & Rlr4), Rtb as (Rtb1 & Rtb2 & Rtb3 & Rtb4).
  pose proof (horizontal_edge_met x1 y1 x2 y2 left right top ltac:(lra)) as Htop.
  pose proof (horizontal_edge_met x1 y1 x2 y2 right left bottom ltac:(lra)) as Hbot.
  pose proof (vertical_edge_met x1 y1 x2 y2 right top bottom ltac:(lra)) as Hright.
  pose proof (vertical_edge_met x1 y1 x2 y2 left bottom top ltac:(lra)) as Hleft.
  rewrite Rlr1, Rlr2 in Htop. rewrite Rlr3, Rlr4 in Hbot.
  rewrite Rtb1, Rtb2 in Hright. rewrite Rtb3, Rtb4 in Hleft.
  split.
  - intros Hall [(p & (t & Ht & ->) & Hb) Hrun]. cbn [fst snd] in Hb.
    assert (Etop : line_intersects_line x1 y1 x2 y2 left top right top = false)
      by (apply Hall; cbn; auto).
    assert (Eright : line_intersects_line x1 y1 x2 y2 right top right bottom = false)
      by (apply Hall; cbn; auto).
    assert (Ebot : line_intersects_line x1 y1 x2 y2 right bottom left bottom = false)
      by (apply Hall; cbn; auto).
    assert (Eleft : line_intersects_line x1 y1 x2 y2 left bottom left top = false)
      by (apply Hall; cbn; auto 6).
    assert (Ntop : ~ (y1 <> y2 /\ exists t, 0 <= t <= 1 /\ y1 + t * (y2 - y1) = top
                        /\ left <= x1 + t * (x2 - x1) <= right))
      by (rewrite <- Htop, Etop; discriminate).
    assert (Nbot : ~ (y1 <> y2 /\ exists t, 0 <= t <= 1 /\ y1 + t * (y2 - y1) = bottom
                        /\ left <= x1 + t * (x2 - x1) <= right))
      by (rewrite <- Hbot, Ebot; discriminate).
    assert (Nright : ~ (x1 <> x2 /\ exists t, 0 <= t <= 1 /\ x1 + t * (x2 - x1) = right
                        /\ top <= y1 + t * (y2 - y1) <= bottom))
      by (rewrite <- Hright, Eright; discriminate).
    assert (Nleft : ~ (x1 <> x2 /\ exists t, 0 <= t <= 1 /\ x1 + t * (x2 - x1) = left
                        /\ top <= y1 + t * (y2 - y1) <= bottom))
      by (rewrite <- Hleft, Eleft; discriminate).
    clear Htop Hbot Hright Hleft Etop Ebot Eright Eleft Hall.
    pose proof (convex_between x1 x2 t Ht) as Bx.
    pose proof (convex_between y1 y2 t Ht) as By.
    destruct Hb as [[Hy Hx]|[Hx Hy]].
    + destruct (Req_dec_T y1 y2) as [Ey|Ny].
      * assert (Nx : x1 <> x2) by (destruct Hlen; [assumption|contradiction]).
        assert (Hyc : y1 = top \/ y1 = bottom).
        { replace (y1 + t * (y2 - y1)) with y1 in Hy by (rewrite Ey; ring). exact Hy. }
        assert (Hin : top <= y1 <= bottom) by (destruct Hyc; lra).
        destruct (Rlt_dec left (Rmin x1 x2)) as [Hl|Hl];
          [destruct (Rlt_dec (Rmax x1 x2) right) as [Hr|Hr]|].
        -- apply Hrun. left. auto.
        -- destruct (between_param x1 x2 right Nx ltac:(lra)) as (t' & Ht' & Et').
           apply Nright. split; [exact Nx|]. exists t'. split; [exact Ht'|].
           split; [exact Et'|]. rewrite <- Ey. replace (y1 + t' * (y1 - y1)) with y1 by ring.
           exact Hin.
        -- destruct (between_param x1 x2 left Nx ltac:(lra)) as (t' & Ht' & Et').
           apply Nleft. split; [exact Nx|]. exists t'. split; [exact Ht'|].
           split; [exact Et'|]. rewrite <- Ey. replace (y1 + t' * (y1 - y1)) with y1 by ring.
           exact Hin.
      * destruct Hy as [Hy|Hy].
        -- apply Ntop. split; [exact Ny|]. exists t. auto.
        -- apply Nbot. split; [exact Ny|]. exists t. auto.
    + destruct (Req_dec_T x1 x2) as [Ex|Nx].
      * assert (Ny : y1 <> y2) by (destruct Hlen; [contradiction|assumption]).
        assert (Hxc : x1 = left \/ x1 = right).
        { replace (x1 + t * (x2 - x1)) with x1 in Hx by (rewrite Ex; ring). exact Hx. }
        assert (Hin : left <= x1 <= right) by (destruct Hxc; lra).
        destruct (Rlt_dec top (Rmin y1 y2)) as [Hl|Hl];
          [destruct (Rlt_dec (Rmax y1 y2) bottom) as [Hr|Hr]|].
        -- apply Hrun. right. auto.
        -- destruct (between_param y1 y2 bottom Ny ltac:(lra)) as (t' & Ht' & Et').
           apply Nbot. split; [exact Ny|]. exists t'. split; [exact Ht'|].
           split; [exact Et'|]. rewrite <- Ex. replace (x1 + t' * (x1 - x1)) with x1 by ring.
           exact Hin.
        -- destruct (between_param y1 y2 top Ny ltac:(lra)) as (t' & Ht' & Et').
           apply Ntop. split; [exact Ny|]. exists t'. split; [exact Ht'|].
           split; [exact Et'|]. rewrite <- Ex. replace (x1 + t' * (x1 - x1)) with x1 by ring.
           exact Hin.
      * destruct Hx as [Hx|Hx].
        -- apply Nleft. split; [exact Nx|]. exists t. auto.
        -- apply Nright. split; [exact Nx|]. exists t. auto.
  - intros Hnot x3 y3 x4 y4 Hin.
    destruct (line_intersects_line x1 y1 x2 y2 x3 y3 x4 y4) eqn:E; [exfalso|reflexivity].
    apply Hnot. cbn [In] in Hin.
    destruct Hin as [Hin|[Hin|[Hin|[Hin|[]]]]]; injection Hin as <- <- <- <-.
    + apply Htop in E as [Ny (t & Ht & Ey & Bx)].
      pose proof (convex_between y1 y2 t Ht) as By. split.
      * exists (x1 + t * (x2 - x1), y1 + t * (y2 - y1)). split; [exists t; auto|].
        cbn [fst snd]. left. auto.
      * intros [[Ey' _]|(Ex' & _ & H1 & H2)]; [contradiction|lra].
    + apply Hright in E as [Nx (t & Ht & Ex & By)].
      pose proof (convex_between x1 x2 t Ht) as Bx. split.
      * exists (x1 + t * (x2 - x1), y1 + t * (y2 - y1)). split; [exists t; auto|].
        cbn [fst snd]. right. auto.
      * intros [(Ey' & _ & H1 & H2)|[Ex' _]]; [lra|contradiction].
    + apply Hbot in E as [Ny (t & Ht & Ey & Bx)].
      pose proof (convex_between y1 y2 t Ht) as By. split.
      * exists (x1 + t * (x2 - x1), y1 + t * (y2 - y1)). split; [exists t; auto|].
        cbn [fst snd]. left. auto.
      * intros [[Ey' _]|(Ex' & _ & H1 & H2)]; [contradiction|lra].
    + apply Hleft in E as [Nx (t & Ht & Ex & By)].
      pose proof (convex_between x1 x2 t Ht) as Bx. split.
      * exists (x1 + t * (x2 - x1), y1 + t * (y2 - y1)). split; [exists t; auto|].
        cbn [fst snd]. right. auto.
      * intros [(Ey' & _ & H1 & H2)|[Ex' _]]; [lra|contradiction].
Qed.

(** A wall whose box no point of the segment lies in is not met. *)
Lemma line_intersects_rect_apart (x1 y1 x2 y2 : R) (rect : Wall) :
  (forall px py,
     Rmin x1 x2 <= px <= Rmax x1 x2 -> Rmin y1 y2 <= py <= Rmax y1 y2 ->
     Rmin (wall_x rect) (wall_x rect + wall_width rect) <= px
       <= Rmax (wall_x rect) (wall_x rect + wall_width rect) ->
     Rmin (wall_y rect) (wall_y rect + wall_height rect) <= py
       <= Rmax (wall_y rect) (wall_y rect + wall_height rect) ->
     False) ->
  line_intersects_rect x1 y1 x2 y2 rect = None.
Proof.
  intros Hapart.
  destruct (line_intersects_rect x1 y1 x2 y2 rect) as [p|] eqn:Hp; [exfalso|reflexivity].
  apply line_intersects_rect_point in Hp as (ua & px & py & Hua & Hpx & Hpy & Bx & By).
  apply (Hapart px py); try assumption.
  - rewrite Hpx. now apply convex_between.
  - rewrite Hpy. now apply convex_between.
Qed.

Ltac apart :=
  apply line_intersects_rect_apart;
  cbn [wall_x wall_y wall_width wall_height];
  intros px py; unfold Rmin, Rmax;
  repeat match goal with
         | |- context [Rle_dec ?a ?b] => destruct (Rle_dec a b); try lra
         end;
  try (intros; lra).

(** With thin walls the loop of [is_visible] answers what it would answer
    without its pre-filter. *)
Lemma is_visible_unfiltered (from_x from_y to_x to_y : R) (walls : list Wall) :
  Forall thin walls ->
  is_visible from_x from_y to_x to_y walls = true
  <-> (sqrt ((to_x - from_x) ^ 2 + (to_y - from_y) ^ 2) < 30
       \/ forall wall, In wall walls ->
            line_intersects_rect from_x from_y to_x to_y wall = None).
Proof.
  intros Hthin. unfold is_visible.
  destruct (Rltb _ 30) eqn:Hnear.
  - apply Rltb_true in Hnear. split; auto.
  - apply Rltb_false in Hnear.
    rewrite (sight_clear_thin _ _ _ _ _ Hthin).
    split; [auto|]. intros [Hlt|Hall]; [lra|exact Hall].
Qed.

(** Every wall of the built-in layout is thin, and solid. *)
Lemma walls_data_thin : Forall thin walls_data.
Proof.
  unfold walls_data.
  repeat (apply Forall_cons;
          [unfold thin; simpl;
           first [ left; apply Rabs_le; lra | right; apply Rabs_le; lra ]|]).
  apply Forall_nil.
Qed.

Lemma walls_data_solid : Forall solid walls_data.
Proof.
  unfold walls_data.
  repeat (apply Forall_cons;
          [unfold solid; cbn [wall_width wall_height]; lra|]).
  apply Forall_nil.
Qed.

(** The pre-filter outside thin walls.  The wall
    [{x: 50, y: -10, width: 200, height: 100}] crosses the segment from
    (0, 0) to (100, 0) with its left edge at (50, 0), and [is_visible]
    answers true: the centre (150, 40) of the wall is outside both the x
    range and the y range of the filter, and the wall is skipped.  The
    source introduces the filter as a bounding box check made for
    efficiency; the layout has no wall that thick. *)
Lemma prefilter_skips_crossing_wall :
  let wall := mkWall 50 (-10) 200 100 in
  is_visible 0 0 100 0 [wall] = true
  /\ line_intersects_rect 0 0 100 0 wall = Some (50, 0)
  /\ ~ sqrt ((100 - 0) ^ 2 + (0 - 0) ^ 2) < 30.
Proof.
  assert (Hd : sqrt ((100 - 0) ^ 2 + (0 - 0) ^ 2) = 100).
  { replace ((100 - 0) ^ 2 + (0 - 0) ^ 2) with (100 * 100) by ring.
    apply sqrt_square; lra. }
  cbv zeta. repeat split.
  - unfold is_visible. rewrite Hd.
    assert (Hfar : far_from_sight 0 0 100 0 (mkWall 50 (-10) 200 100) = true).
    { unfold far_from_sight; simpl wall_x; simpl wall_y;
        simpl wall_width; simpl wall_height.
      unfold Rmin, Rmax. destruct (Rle_dec 0 100), (Rle_dec 0 0); try lra.
      rcmp; reflexivity. }
    simpl sight_clear. rewrite Hfar. rcmp. reflexivity.
  - cbv [line_intersects_rect rect_edges first_edge_hit
         wall_x wall_y wall_width wall_height].
    assert (E1 : line_intersects_line 0 0 100 0 50 (-10) (50 + 200) (-10) = false)
      by (unfold line_intersects_line; rcmp; reflexivity).
    assert (E2 : line_intersects_line 0 0 100 0 (50 + 200) (-10) (50 + 200) (-10 + 100)
                 = false)
      by (unfold line_intersects_line; rcmp; reflexivity).
    assert (E3 : line_intersects_line 0 0 100 0 (50 + 200) (-10 + 100) 50 (-10 + 100)
                 = false)
      by (unfold line_intersects_line; rcmp; reflexivity).
    assert (E4 : line_intersects_line 0 0 100 0 50 (-10 + 100) 50 (-10) = true)
      by (unfold line_intersects_line; rcmp; reflexivity).
    rewrite E1, E2, E3, E4.
    unfold get_intersection_point; rcmp; f_equal; f_equal; field.
  - rewrite Hd; lra.
Qed.

(** C2, as stated, fails in the built-in layout.  The points (200, 300)
    and (200, 400) are 100 units apart and lie on the left side of the
    wall [{x: 200, y: 200, width: 20, height: 400}], so the boundary of
    that wall meets the segment between them, at (200, 350) for one; and
    [is_visible] answers true.  The side the segment lies on is parallel
    to it, which [line_intersects_line] answers with false, and the
    segment reaches no other side. *)
Lemma sight_along_wall_edge :
  let wall := mkWall 200 200 20 400 in
  In wall walls_data
  /\ ~ sqrt ((200 - 200) ^ 2 + (400 - 300) ^ 2) < 30
  /\ on_segment 200 300 200 400 (200, 350)
  /\ on_boundary wall (200, 350)
  /\ is_visible 200 300 200 400 walls_data = true.
Proof.
  cbv zeta.
  assert (Hrun : runs_along_edge 200 300 200 400 (mkWall 200 200 20 400)).
  { right. cbn [wall_x wall_y wall_width wall_height].
    unfold Rmin, Rmax. destruct (Rle_dec 300 400); [|lra].
    repeat split; lra. }
  assert (Hedge : line_intersects_rect 200 300 200 400 (mkWall 200 200 20 400) = None).
  { apply line_intersects_rect_blocks.
    - split; cbn [wall_width wall_height]; lra.
    - right; lra.
    - intros [_ Hnot]. exact (Hnot Hrun). }
  assert (Hall : Forall (fun w => line_intersects_rect 200 300 200 400 w = None)
                   walls_data).
  { unfold walls_data.
    repeat (apply Forall_cons; [first [exact Hedge | solve [apart]]|]).
    apply Forall_nil. }
  split; [unfold walls_data; cbn [In]; auto 6|].
  split.
  { replace ((200 - 200) ^ 2 + (400 - 300) ^ 2) with (100 * 100) by ring.
    rewrite sqrt_square; lra. }
  split; [exists (1 / 2); split; [lra|]; unfold along; cbn [fst snd]; f_equal; lra|].
  split; [right; cbn [fst snd wall_x wall_y wall_width wall_height]; split; [left; reflexivity|lra]|].
  apply (is_visible_unfiltered _ _ _ _ _ walls_data_thin). right.
  apply Forall_forall. exact Hall.
Qed.

(** C2, amended.  Two points less than 30 units apart are visible.
    Otherwise, when every wall has a positive width and height and is at
    most 40 units wide or at most 40 units high, as the walls of the
    layout are, the point is visible exactly when no wall blocks the
    segment: the boundary of no wall meets the segment, not counting a
    wall along one of whose sides the segment runs between the corners.
    For such walls the answer is also the one the loop gives without its
    pre-filter, which skips no wall the segment meets. *)
Theorem is_visible_thin_walls (from_x from_y to_x to_y : R) (walls : list Wall) :
  Forall thin walls -> Forall solid walls ->
  let near := sqrt ((to_x - from_x) ^ 2 + (to_y - from_y) ^ 2) < 30 in
  (is_visible from_x from_y to_x to_y walls = true
   <-> near \/ forall wall, In wall walls -> ~ blocks from_x from_y to_x to_y wall)
  /\ (is_visible from_x from_y to_x to_y walls = true
      <-> near \/ forall wall, In wall walls ->
                    line_intersects_rect from_x from_y to_x to_y wall = None).
Proof.
  intros Hthin Hsolid near.
  pose proof (is_visible_unfiltered from_x from_y to_x to_y walls Hthin) as Hloop.
  fold near in Hloop. split; [|exact Hloop].
  rewrite Hloop. clear Hloop.
  destruct (Rlt_dec (sqrt ((to_x - from_x) ^ 2 + (to_y - from_y) ^ 2)) 30) as [Hn|Hfar];
    [split; intros _; left; exact Hn|].
  assert (Hlen : from_x <> to_x \/ from_y <> to_y).
  { destruct (Req_dec_T from_x to_x) as [Ex|Nx]; [|left; exact Nx].
    destruct (Req_dec_T from_y to_y) as [Ey|Ny]; [|right; exact Ny].
    exfalso. apply Hfar. rewrite Ex, Ey.
    replace ((to_x - to_x) ^ 2 + (to_y - to_y) ^ 2) with 0 by ring.
    rewrite sqrt_0. lra. }
  rewrite Forall_forall in Hsolid.
  split; (intros [Hn|Hall]; [left; exact Hn|right]); intros wall Hin.
  - apply line_intersects_rect_blocks; auto.
  - apply line_intersects_rect_blocks; auto.
Qed.

(** The theorem in the built-in layout, for the segment of the
    counterexample. *)
Lemma is_visible_thin_walls_witness :
  (is_visible 200 300 200 400 walls_data = true
   <-> sqrt ((200 - 200) ^ 2 + (400 - 300) ^ 2) < 30
       \/ forall wall, In wall walls_data -> ~ blocks 200 300 200 400 wall)
  /\ (is_visible 200 300 200 400 walls_data = true
      <-> sqrt ((200 - 200) ^ 2 + (400 - 300) ^ 2) < 30
          \/ forall wall, In wall walls_data ->
               line_intersects_rect 200 300 200 400 wall = None).
Proof.
  apply (is_visible_thin_walls 200 300 200 400 walls_data).
  - exact walls_data_thin.
  - exact walls_data_solid.
Defined.

(** The corridor of the design document: a wall 1 unit wide across the
    line from (0, 0) to (100, 0) hides the candidate, and without the wall
    the candidate is visible. *)
Example corridor_wall_blocks :
  is_visible 0 0 100 0 [mkWall 50 (-10) 1 20] = false.
Proof.
  unfold is_visible.
  replace ((100 - 0) ^ 2 + (0 - 0) ^ 2) with (100 * 100) by ring.
  rewrite sqrt_square by lra.
  replace (Rltb 100 30) with false by (symmetry; apply Rltb_false; lra).
  cbn [sight_clear].
  assert (Hnear : far_from_sight 0 0 100 0 (mkWall 50 (-10) 1 20) = false).
  { unfold far_from_sight; cbn [wall_x wall_y wall_width wall_height].
    unfold Rmin, Rmax. destruct (Rle_dec 0 100), (Rle_dec 0 0); try lra.
    rcmp; reflexivity. }
  rewrite Hnear.
  cbv [line_intersects_rect rect_edges first_edge_hit
       wall_x wall_y wall_width wall_height].
  assert (E1 : line_intersects_line 0 0 100 0 50 (-10) (50 + 1) (-10) = false)
    by (unfold line_intersects_line; rcmp; reflexivity).
  assert (E2 : line_intersects_line 0 0 100 0 (50 + 1) (-10) (50 + 1) (-10 + 20) = true)
    by (unfold line_intersects_line; rcmp; reflexivity).
  rewrite E1, E2.
  unfold get_intersection_point. rcmp. reflexivity.
Qed.

Example corridor_clear : is_visible 0 0 100 0 [] = true.
Proof. unfold is_visible. destruct (Rltb _ 30); reflexivity. Qed.

(** *** The laser in the built-in layout *)

Lemma laser_scan_app (x y end_x end_y : R) (a b : list Wall) :
  forall c m,
    laser_scan x y end_x end_y (a ++ b) c m
    = let '(c', m') := laser_scan x y end_x end_y a c m in
      laser_scan x y end_x end_y b c' m'.
Proof.
  induction a as [|w a IH]; intros c m; cbn [app laser_scan]; [reflexivity|].
  destruct (line_intersects_rect x y end_x end_y w) as [[hx hy]|]; [|apply IH].
  destruct (Rltb _ m); apply IH.
Qed.

Lemma laser_scan_none (x y end_x end_y : R) (walls : list Wall) :
  Forall (fun w => line_intersects_rect x y end_x end_y w = None) walls ->
  forall c m, laser_scan x y end_x end_y walls c m = (c, m).
Proof.
  induction 1 as [|w walls Hw _ IH]; intros c m; cbn [laser_scan]; [reflexivity|].
  rewrite Hw. apply IH.
Qed.

Lemma laser_scan_hit (x y end_x end_y : R) (w : Wall) (rest : list Wall)
    (c : option Point) (m hit_x hit_y : R) :
  line_intersects_rect x y end_x end_y w = Some (hit_x, hit_y) ->
  laser_scan x y end_x end_y (w :: rest) c m
  = if Rltb (hit_distance x y (hit_x, hit_y)) m
    then laser_scan x y end_x end_y rest (Some (hit_x, hit_y))
           (hit_distance x y (hit_x, hit_y))
    else laser_scan x y end_x end_y rest c m.
Proof. intros H. cbn [laser_scan]. rewrite H. reflexivity. Qed.

(** C1: the code at a failing input of the built-in layout.  A ship at
    (175, 400) heading 0 degrees faces the wall
    [{x: 200, y: 200, width: 20, height: 400}], whose left face is 25
    units ahead, at (200, 400).  The laser reports 45, the distance to
    the right face of that wall at (220, 400): the reported distance is
    not the nearest intersection of the ray with the walls. *)
Theorem laser_reports_far_side_of_wall :
  check_laser 175 400 0 walls_data = (true, Some 45)
  /\ line_intersects_line 175 400 225 400 200 (200 + 400) 200 200 = true
  /\ get_intersection_point 175 400 225 400 200 (200 + 400) 200 200 = Some (200, 400)
  /\ hit_distance 175 400 (200, 400) = 25.
Proof.
  assert (Hbefore : Forall (fun w => line_intersects_rect 175 400 225 400 w = None)
            [mkWall 50 50 1900 20; mkWall 50 50 20 1900; mkWall 50 1930 1900 20;
             mkWall 1930 50 20 1900])
    by (repeat (apply Forall_cons; [apart|]); apply Forall_nil).
  assert (Hafter : Forall (fun w => line_intersects_rect 175 400 225 400 w = None)
            [mkWall 200 600 400 20; mkWall 600 200 20 400; mkWall 600 600 400 20;
             mkWall 1000 200 20 800; mkWall 200 1000 800 20; mkWall 1200 200 20 800;
             mkWall 1200 1000 400 20; mkWall 1600 200 20 800; mkWall 200 1400 400 20;
             mkWall 600 1400 20 400; mkWall 600 1800 400 20; mkWall 1000 1400 20 400;
             mkWall 1200 1400 400 20; mkWall 1600 1400 20 400;
             mkWall 300 300 100 20; mkWall 1500 1500 100 20; mkWall 800 800 20 100])
    by (repeat (apply Forall_cons; [apart|]); apply Forall_nil).
  assert (Hwall : line_intersects_rect 175 400 225 400 (mkWall 200 200 20 400)
                  = Some (220, 400)).
  { cbv [line_intersects_rect rect_edges first_edge_hit
         wall_x wall_y wall_width wall_height].
    assert (E1 : line_intersects_line 175 400 225 400 200 200 (200 + 20) 200 = false)
      by (unfold line_intersects_line; rcmp; reflexivity).
    assert (E2 : line_intersects_line 175 400 225 400
                   (200 + 20) 200 (200 + 20) (200 + 400) = true)
      by (unfold line_intersects_line; rcmp; reflexivity).
    rewrite E1, E2.
    unfold get_intersection_point; rcmp; f_equal; f_equal; field. }
  assert (Hd : hit_distance 175 400 (220, 400) = 45).
  { unfold hit_distance; cbn [fst snd].
    replace ((220 - 175) ^ 2 + (400 - 400) ^ 2) with (45 * 45) by ring.
    apply sqrt_square; lra. }
  repeat split.
  - unfold check_laser. rewrite radians_0, cos_0, sin_0. unfold max_distance.
    replace (175 + 1 * 50) with 225 by ring. replace (400 + 0 * 50) with 400 by ring.
    change walls_data
      with ([mkWall 50 50 1900 20; mkWall 50 50 20 1900; mkWall 50 1930 1900 20;
             mkWall 1930 50 20 1900]
            ++ mkWall 200 200 20 400
               :: [mkWall 200 600 400 20; mkWall 600 200 20 400; mkWall 600 600 400 20;
                   mkWall 1000 200 20 800; mkWall 200 1000 800 20;
                   mkWall 1200 200 20 800; mkWall 1200 1000 400 20;
                   mkWall 1600 200 20 800; mkWall 200 1400 400 20;
                   mkWall 600 1400 20 400; mkWall 600 1800 400 20;
                   mkWall 1000 1400 20 400; mkWall 1200 1400 400 20;
                   mkWall 1600 1400 20 400; mkWall 300 300 100 20;
                   mkWall 1500 1500 100 20; mkWall 800 800 20 100]).
    rewrite laser_scan_app, (laser_scan_none _ _ _ _ _ Hbefore).
    cbv beta iota.
    rewrite (laser_scan_hit _ _ _ _ _ _ _ _ _ _ Hwall), Hd.
    replace (Rltb 45 50) with true by (symmetry; apply Rltb_true; lra).
    rewrite (laser_scan_none _ _ _ _ _ Hafter).
    reflexivity.
  - unfold line_intersects_line; rcmp; reflexivity.
  - unfold get_intersection_point; rcmp; f_equal; f_equal; field.
  - unfold hit_distance; simpl fst; simpl snd.
    replace ((200 - 175) ^ 2 + (400 - 400) ^ 2) with (25 * 25) by ring.
    apply sqrt_square; lra.
Qed.

End GeometryFacts.
(** ** The decision policy *)

Module AgentFacts.
Import Py Agent.

(** *** Running a body *)

Lemma bind_run {S A B : Type} (c : SE S A) (k : A -> SE S B) (st : S) :
  bind c k st
  = match c st with
    | (Ok a, st') => k a st'
    | (Raise e, st') => (Raise e, st')
    end.
Proof. reflexivity. Qed.

Lemma bind_get {S B : Type} (k : S -> SE S B) (st : S) : bind get k st = k st st.
Proof. reflexivity. Qed.

Lemma bind_ret {S A B : Type} (a : A) (k : A -> SE S B) (st : S) :
  bind (ret a) k st = k a st.
Proof. reflexivity. Qed.

Lemma bind_lift_ok {S A B : Type} (a : A) (k : A -> SE S B) (st : S) :
  bind (lift (Ok a)) k st = k a st.
Proof. reflexivity. Qed.

Lemma bind_put {S B : Type} (st' : S) (k : unit -> SE S B) (st : S) :
  bind (put st') k st = k tt st'.
Proof. reflexivity. Qed.

(** *** What a body leaves of the stuck detector *)

Lemma keeps_ret {A : Type} (a : A) : keeps_stuck (ret a).
Proof. intros self; reflexivity. Qed.

Lemma keeps_lift {A : Type} (r : Result A) : keeps_stuck (lift r).
Proof. intros self; reflexivity. Qed.

Lemma keeps_get : keeps_stuck get.
Proof. intros self; reflexivity. Qed.

Lemma keeps_bind {A B : Type} (c : M A) (k : A -> M B) :
  keeps_stuck c -> (forall a, keeps_stuck (k a)) -> keeps_stuck (bind c k).
Proof.
  intros Hc Hk self. unfold bind.
  specialize (Hc self).
  destruct (c self) as [[a|e] self1]; simpl in *.
  - rewrite Hk. exact Hc.
  - exact Hc.
Qed.

(** [get] hands the current agent on: what follows may depend on it. *)
Lemma keeps_bind_get {B : Type} (k : DummyAgent -> M B) :
  (forall self, stuck_detection (snd (k self self)) = stuck_detection self) ->
  keeps_stuck (bind get k).
Proof. intros Hk self. unfold bind, get. apply Hk. Qed.

Lemma keeps_put_target_memory (self0 : DummyAgent) (tm : PyVal) {B : Type} (k : M B) :
  keeps_stuck k ->
  stuck_detection (snd ((put (set_target_memory self0 tm) ;;; k) self0))
  = stuck_detection self0.
Proof. intros Hk. unfold bind, put. rewrite Hk. reflexivity. Qed.

Lemma keeps_put_exploration (self0 : DummyAgent) (r t : R) {B : Type} (k : M B) :
  keeps_stuck k ->
  stuck_detection (snd ((put (set_exploration self0 r t) ;;; k) self0))
  = stuck_detection self0.
Proof. intros Hk. unfold bind, put. rewrite Hk. reflexivity. Qed.

Create HintDb keeps.
#[local] Hint Resolve keeps_ret keeps_lift keeps_get : keeps.

Lemma seek_targets_keeps (sensor_data : PyVal) (env : Env) :
  keeps_stuck (seek_targets sensor_data env).
Proof.
  unfold seek_targets.
  apply keeps_bind; [auto with keeps|intros radar].
  apply keeps_bind; [auto with keeps|intros objs].
  apply keeps_bind; [auto with keeps|intros [enemies coins]].
  destruct enemies as [|e es]; [destruct coins as [|c cs]|].
  - apply keeps_bind_get; intros self.
    unfold bind at 1, lift at 1.
    destruct (py_getitem (target_memory self) (VStr "type")) as [kind|]; [|reflexivity].
    unfold bind at 1, lift at 1.
    destruct (if truthy kind then _ else _) as [[|]|]; [| |reflexivity].
    + apply keeps_bind; [auto with keeps|intros angle].
      apply keeps_bind; auto with keeps.
    + destruct (Rltb _ _).
      * apply keeps_put_exploration. apply keeps_bind; auto with keeps.
      * unfold bind, ret, get; reflexivity.
  - apply keeps_bind; [auto with keeps|intros sorted].
    apply keeps_bind; [auto with keeps|intros nearest].
    apply keeps_bind; [auto with keeps|intros distance].
    apply keeps_bind; [auto with keeps|intros angle].
    apply keeps_bind_get; intros self.
    apply keeps_put_target_memory. auto with keeps.
  - apply keeps_bind; [auto with keeps|intros sorted].
    apply keeps_bind; [auto with keeps|intros nearest].
    apply keeps_bind; [auto with keeps|intros distance].
    apply keeps_bind; [auto with keeps|intros angle].
    apply keeps_bind_get; intros self.
    apply keeps_put_target_memory. auto with keeps.
Qed.

Lemma avoid_walls_or_seek_keeps (sensor_data : PyVal) (env : Env) :
  keeps_stuck (avoid_walls_or_seek sensor_data env).
Proof.
  unfold avoid_walls_or_seek.
  apply keeps_bind; [auto with keeps|intros self].
  apply keeps_bind; [auto with keeps|intros laser_hit].
  apply keeps_bind; [auto with keeps|intros [command|]]; [auto with keeps|].
  apply keeps_bind; [auto with keeps|intros laser_hit2].
  apply keeps_bind; [auto with keeps|intros [|]]; [auto with keeps|].
  apply seek_targets_keeps.
Qed.

(** *** Plain dictionaries never feed the stuck detector *)

(** A dict has no [position] attribute: the update only rolls the timers. *)
Lemma update_on_dict (d : list (string * PyVal)) (env : Env) (self : DummyAgent) :
  _update_stuck_detection (VDict d) env self
  = (Ok tt,
     let sd := stuck_detection self in
     set_stuck_detection self
       (mkStuck (position sd) (last_position sd) (now_update env) (check_time sd)
          (is_stuck sd) (stuck_count sd) (escape_direction sd))).
Proof.
  unfold _update_stuck_detection; simpl attribute.
  unfold bind, lift, get, put, ret; simpl.
  destruct (position (stuck_detection self)); reflexivity.
Qed.

Lemma init_idle (ship_index : Z) (t : Birth) : idle (init ship_index t).
Proof. repeat split. Qed.

(** On a dict the escape branch is not taken and the detector stays idle. *)
Lemma decide_dict_idle (d : list (string * PyVal)) (env : Env) (self : DummyAgent) :
  idle self ->
  idle (snd (decide_from_sensors (VDict d) env self))
  /\ decide_from_sensors (VDict d) env self
     = (if negb (truthy (VDict d)) then ret (_random_action env)
        else (if Rltb 1.0 (now env - check_time (stuck_detection self))
              then _update_stuck_detection (VDict d) env
              else ret tt) ;;; avoid_walls_or_seek (VDict d) env) self.
Proof.
  intros Hidle.
  unfold decide_from_sensors.
  destruct (negb (truthy (VDict d))); [split; [exact Hidle|reflexivity]|].
  rewrite bind_get.
  set (upd := if Rltb 1.0 (now env - check_time (stuck_detection self))
              then _update_stuck_detection (VDict d) env else ret tt).
  assert (Hupd : exists self1, upd self = (Ok tt, self1) /\ idle self1).
  { unfold upd. destruct (Rltb _ _).
    - rewrite update_on_dict. eexists; split; [reflexivity|].
      destruct Hidle as (Hs & Hc & He & Hp). repeat split; assumption.
    - eexists; split; [reflexivity|exact Hidle]. }
  destruct Hupd as (self1 & Hu & Hidle1).
  rewrite !(bind_run upd), Hu, bind_get.
  destruct Hidle1 as (Hs & Hc & He & Hp). rewrite Hs.
  split; [|reflexivity].
  unfold idle. rewrite avoid_walls_or_seek_keeps. repeat split; assumption.
Qed.

Lemma run_calls_idle (calls : list (PyVal * Env)) :
  Forall (fun call => is_dict (fst call)) calls ->
  forall self, idle self -> idle (run_calls calls self).
Proof.
  induction 1 as [|[sensor_data env] rest Hd _ IH]; intros self Hidle; simpl.
  - exact Hidle.
  - destruct sensor_data; try contradiction.
    apply IH. now apply decide_dict_idle.
Qed.

(** C9.  After any sequence of calls of [decide_from_sensors] on plain
    dictionaries, an agent fresh from [__init__] still has
    [is_stuck = False] and [stuck_count = 0], its escape direction has
    never been flipped, and the next call on a dictionary runs the update
    (when due) and the wall and target rules, never the escape branch. *)
Theorem stuck_detection_idle_on_dicts
    (ship_index : Z) (t : Birth) (calls : list (PyVal * Env)) :
  Forall (fun call => is_dict (fst call)) calls ->
  let self := run_calls calls (init ship_index t) in
  is_stuck (stuck_detection self) = false
  /\ stuck_count (stuck_detection self) = 0%Z
  /\ escape_direction (stuck_detection self) = 1%Z
  /\ forall d env,
       decide_from_sensors (VDict d) env self
       = (if negb (truthy (VDict d)) then ret (_random_action env)
          else (if Rltb 1.0 (now env - check_time (stuck_detection self))
                then _update_stuck_detection (VDict d) env
                else ret tt) ;;; avoid_walls_or_seek (VDict d) env) self.
Proof.
  intros Hcalls self.
  assert (Hidle : idle self)
    by (apply run_calls_idle; [exact Hcalls|apply init_idle]).
  destruct Hidle as (Hs & Hc & He & Hp).
  repeat split; try assumption.
  intros d env. apply decide_dict_idle. repeat split; assumption.
Qed.

Lemma stuck_detection_idle_on_dicts_witness :
  let env := mkEnv 2 2 0 0 0 1 0 0 0 0 0 in
  let calls := [(VDict [("laser_hit", VBool false)]%string, env)] in
  Forall (fun call => is_dict (fst call)) calls
  /\ is_stuck (stuck_detection (run_calls calls (init 0 (mkBirth 0 0 0)))) = false.
Proof.
  cbv zeta.
  assert (H : Forall (fun call => is_dict (fst call))
                [(VDict [("laser_hit", VBool false)]%string,
                  mkEnv 2 2 0 0 0 1 0 0 0 0 0)])
    by (repeat constructor).
  split; [exact H|].
  exact (proj1 (stuck_detection_idle_on_dicts 0 (mkBirth 0 0 0) _ H)).
Defined.

(** *** The stuck detector on position samples *)

Lemma update_first_sample (p : R * R) (env : Env) (self : DummyAgent) :
  position (stuck_detection self) = None ->
  _update_stuck_detection (sample p) env self
  = (Ok tt,
     let sd := stuck_detection self in
     set_stuck_detection self
       (mkStuck (Some (VFloat (fst p), VFloat (snd p)))
          (Some (VFloat (fst p), VFloat (snd p)))
          (now_update env) (now_update env)
          (is_stuck sd) (stuck_count sd) (escape_direction sd))).
Proof.
  intros Hpos.
  unfold _update_stuck_detection, sample.
  cbn [attribute lookup String.eqb Ascii.eqb Bool.eqb py_getitem bindR].
  rewrite bind_lift_ok, bind_get, Hpos. reflexivity.
Qed.

Lemma update_next_sample (p q : R * R) (env : Env) (self : DummyAgent) :
  tracks p self ->
  _update_stuck_detection (sample q) env self
  = (Ok tt,
     let sd := stuck_detection self in
     set_stuck_detection self
       (mkStuck (Some (VFloat (fst q), VFloat (snd q)))
          (position sd)
          (now_update env) (check_time sd)
          (if Rltb (displacement p q) 5
           then (if (3 <=? stuck_count sd + 1)%Z then true else is_stuck sd)
           else false)
          (if Rltb (displacement p q) 5
           then (stuck_count sd + 1)%Z
           else Z.max 0 (stuck_count sd - 1))
          (escape_direction sd))).
Proof.
  intros Hpos. unfold tracks in Hpos.
  unfold _update_stuck_detection, sample.
  cbn [attribute lookup String.eqb Ascii.eqb Bool.eqb py_getitem bindR].
  rewrite bind_lift_ok, bind_get, Hpos.
  unfold bind, lift, ret, put.
  cbn [fst snd py_sub as_num bindR].
  fold (displacement p q).
  destruct (Rltb (displacement p q) 5); reflexivity.
Qed.

Lemma feed_app (a b : list ((R * R) * Env)) (self : DummyAgent) :
  feed (a ++ b) self = feed b (feed a self).
Proof.
  revert self; induction a as [|[p env] a IH]; intros self; simpl; auto.
Qed.

(** One sample keeps the detector sound and leaves it tracking the sample. *)
Lemma update_sound (q : R * R) (env : Env) (self : DummyAgent) :
  sound self ->
  let self' := snd (_update_stuck_detection (sample q) env self) in
  sound self' /\ tracks q self'.
Proof.
  intros ([Hnone|[p Hp]] & Hpos & Hflag); cbv zeta.
  - rewrite (update_first_sample q env self Hnone).
    unfold sound, tracks;
      cbn [snd stuck_detection set_stuck_detection position is_stuck stuck_count].
    split; [|reflexivity].
    split; [right; exists q; reflexivity|]. split; assumption.
  - rewrite (update_next_sample p q env self Hp).
    unfold sound, tracks;
      cbn [snd stuck_detection set_stuck_detection position is_stuck stuck_count].
    split; [|reflexivity].
    split; [right; exists q; reflexivity|].
    destruct (Rltb (displacement p q) 5).
    + split; [lia|].
      destruct (3 <=? stuck_count (stuck_detection self) + 1)%Z eqn:E.
      * intros _. now apply Z.leb_le in E.
      * intros Hs. apply Hflag in Hs. lia.
    + split; [lia|discriminate].
Qed.

Lemma feed_sound (samples : list ((R * R) * Env)) :
  forall self, sound self -> sound (feed samples self).
Proof.
  induction samples as [|[p env] rest IH]; intros self Hs; simpl.
  - exact Hs.
  - apply IH. now apply update_sound.
Qed.

Lemma init_sound (ship_index : Z) (t : Birth) : sound (init ship_index t).
Proof.
  split; [now left|]. split; simpl; [lia|discriminate].
Qed.

(** The flag and the counter after one more sample [q], the detector
    tracking [p] before. *)
Lemma feed_one (p q : R * R) (env : Env) (self : DummyAgent) :
  tracks p self ->
  let sd := stuck_detection self in
  let sd' := stuck_detection (feed [(q, env)] self) in
  tracks q (feed [(q, env)] self)
  /\ (displacement p q < 5 ->
      stuck_count sd' = (stuck_count sd + 1)%Z
      /\ is_stuck sd' = (if (3 <=? stuck_count sd + 1)%Z then true else is_stuck sd))
  /\ (5 <= displacement p q ->
      stuck_count sd' = Z.max 0 (stuck_count sd - 1) /\ is_stuck sd' = false).
Proof.
  intros Hp; simpl feed.
  rewrite (update_next_sample p q env self Hp).
  unfold tracks;
    cbn [snd stuck_detection set_stuck_detection position is_stuck stuck_count].
  split; [reflexivity|]. split; intros Hd.
  - apply Rltb_true in Hd; rewrite Hd. now split.
  - apply Rltb_false in Hd; rewrite Hd. now split.
Qed.

(** C4.  Let the detector, started by [__init__], have processed any
    samples and then the sample [p], and let [q] be the next sample.  If
    [q] is less than 5 units from [p], the counter grows by one and the
    flag is set exactly when the counter is then 3 or more.  If [q] is 5
    units or more from [p], the flag is cleared and the counter drops by
    one, not below 0.  In particular the third of three successive samples
    each less than 5 units from its predecessor leaves the flag set, and a
    next sample 5 units or more away clears it. *)
Theorem stuck_detector_steps
    (ship_index : Z) (t : Birth) (samples : list ((R * R) * Env))
    (p q : R * R) (env_p env_q : Env) :
  let before := feed (samples ++ [(p, env_p)]) (init ship_index t) in
  let after := feed [(q, env_q)] before in
  (displacement p q < 5 ->
     stuck_count (stuck_detection after)
       = (stuck_count (stuck_detection before) + 1)%Z
     /\ (is_stuck (stuck_detection after) = true
         <-> (3 <= stuck_count (stuck_detection after))%Z))
  /\ (5 <= displacement p q ->
      is_stuck (stuck_detection after) = false
      /\ stuck_count (stuck_detection after)
         = Z.max 0 (stuck_count (stuck_detection before) - 1))
  /\ (forall (q2 q3 q4 : R * R) (e2 e3 e4 : Env),
        displacement p q < 5 -> displacement q q2 < 5 -> displacement q2 q3 < 5 ->
        is_stuck (stuck_detection (feed [(q2, e2); (q3, e3)] after)) = true
        /\ (5 <= displacement q3 q4 ->
            is_stuck (stuck_detection (feed [(q2, e2); (q3, e3); (q4, e4)] after))
            = false)).
Proof.
  intros before after.
  assert (Hb : sound before /\ tracks p before).
  { unfold before. rewrite feed_app. simpl feed.
    apply update_sound, feed_sound, init_sound. }
  destruct Hb as [(_ & Hpos & Hflag) Hp].
  destruct (feed_one p q env_q before Hp) as (Hq & Hlow & Hhigh).
  fold after in Hq, Hlow, Hhigh.
  split; [|split].
  - intros Hd. destruct (Hlow Hd) as [Hc Hs]. split; [exact Hc|].
    rewrite Hs, Hc.
    destruct (3 <=? stuck_count (stuck_detection before) + 1)%Z eqn:E.
    + apply Z.leb_le in E. tauto.
    + apply Z.leb_gt in E. split.
      * intros Hst. apply Hflag in Hst. lia.
      * lia.
  - intros Hd. destruct (Hhigh Hd) as [Hc Hs]. now split.
  - intros q2 q3 q4 e2 e3 e4 H1 H2 H3.
    destruct (Hlow H1) as [Hc1 _].
    destruct (feed_one q q2 e2 after Hq) as (Hq2 & Hlow2 & _).
    destruct (Hlow2 H2) as [Hc2 _].
    destruct (feed_one q2 q3 e3 _ Hq2) as (Hq3 & Hlow3 & _).
    destruct (Hlow3 H3) as [Hc3 Hs3].
    change (feed [(q3, e3)] (feed [(q2, e2)] after))
      with (feed [(q2, e2); (q3, e3)] after) in *.
    assert (Hset : is_stuck (stuck_detection (feed [(q2, e2); (q3, e3)] after)) = true).
    { rewrite Hs3.
      match goal with
      | |- (if ?c then _ else _) = true =>
          replace c with true; [reflexivity|symmetry; apply Z.leb_le; lia]
      end. }
    split; [exact Hset|].
    intros H4.
    destruct (feed_one q3 q4 e4 _ Hq3) as (_ & _ & Hhigh4).
    destruct (Hhigh4 H4) as [_ Hs4].
    exact Hs4.
Qed.

(** Counted in positions: the first position after [__init__] only
    initialises the detector, so three positions close together leave the
    counter at 2 and the flag unset; the fourth sets it. *)
Lemma three_positions_do_not_set_the_flag
    (ship_index : Z) (t : Birth) (p0 p1 p2 : R * R) (e0 e1 e2 : Env) :
  displacement p0 p1 < 5 -> displacement p1 p2 < 5 ->
  let self := feed [(p0, e0); (p1, e1); (p2, e2)] (init ship_index t) in
  is_stuck (stuck_detection self) = false
  /\ stuck_count (stuck_detection self) = 2%Z.
Proof.
  intros H1 H2.
  change (feed [(p0, e0); (p1, e1); (p2, e2)] (init ship_index t))
    with (feed [(p2, e2)] (feed [(p1, e1)] (feed [(p0, e0)] (init ship_index t)))).
  set (s0 := feed [(p0, e0)] (init ship_index t)).
  assert (Hp0 : tracks p0 s0).
  { unfold s0; cbn [feed]. rewrite update_first_sample by reflexivity. reflexivity. }
  assert (Hc0 : stuck_count (stuck_detection s0) = 0%Z
                /\ is_stuck (stuck_detection s0) = false).
  { unfold s0; cbn [feed]. rewrite update_first_sample by reflexivity.
    split; reflexivity. }
  destruct Hc0 as [Hc0 Hs0].
  destruct (feed_one p0 p1 e1 s0 Hp0) as (Hp1 & Hlow1 & _).
  destruct (Hlow1 H1) as [Hc1 Hs1].
  destruct (feed_one p1 p2 e2 _ Hp1) as (_ & Hlow2 & _).
  destruct (Hlow2 H2) as [Hc2 Hs2].
  cbv zeta. rewrite Hs2, Hc2, Hs1, Hc1, Hc0, Hs0. split; reflexivity.
Qed.

Lemma stuck_detector_steps_witness :
  let env := mkEnv 0 0 0 0 0 1 0 0 0 0 0 in
  let before := feed [((0, 0), env)] (init 0 (mkBirth 0 0 0)) in
  displacement (0, 0) (1, 0) < 5
  /\ stuck_count (stuck_detection (feed [((1, 0), env)] before)) = 1%Z.
Proof.
  cbv zeta.
  assert (Hd : displacement (0, 0) (1, 0) < 5).
  { unfold displacement; simpl fst; simpl snd.
    replace (1 - 0) with 1 by ring. replace (0 - 0) with 0 by ring.
    rewrite hypot_axis_x; lra. }
  split; [exact Hd|].
  exact (proj1 (proj1 (stuck_detector_steps 0 (mkBirth 0 0 0) [] (0, 0) (1, 0)
                         (mkEnv 0 0 0 0 0 1 0 0 0 0 0)
                         (mkEnv 0 0 0 0 0 1 0 0 0 0 0)) Hd)).
Defined.

(** *** The top-level handlers *)

Lemma try_except_returns {S A : Type} (body : SE S A) (a0 : A) (st : S) :
  exists a st',
    try_except body (fun _ => ret a0) st = (Ok a, st')
    /\ st' = snd (body st)
    /\ match fst (body st) with
       | Ok b => a = b
       | Raise _ => a = a0
       end.
Proof.
  unfold try_except, ret.
  destruct (body st) as [[b|e] st']; simpl; eauto.
Qed.

(** Malformed inputs do raise inside the [try] blocks: [None] is not a
    container, and a laser hit without a distance cannot be compared. *)
Example decide_body_raises_on_none (env : Env) (self : DummyAgent) :
  decide_body VNone env self = (Raise TypeError, self).
Proof. reflexivity. Qed.

Example decide_body_raises_on_missing_distance (env : Env) (self : DummyAgent) :
  idle self ->
  now env - check_time (stuck_detection self) <= 1 ->
  decide_body (VDict [("laser_hit", VBool true); ("laser_distance", VNone)]%string)
    env self
  = (Raise TypeError, self).
Proof.
  intros (Hs & _) Hdue.
  unfold decide_body.
  change (py_contains "laser_hit" _) with (@Ok bool true).
  rewrite bind_lift_ok.
  unfold decide_from_sensors; cbn [truthy negb].
  rewrite bind_get.
  replace (Rltb 1.0 (now env - check_time (stuck_detection self))) with false
    by (symmetry; apply Rltb_false; lra).
  rewrite bind_ret, bind_get, Hs.
  reflexivity.
Qed.

(** A request body without ships makes the [/decide/] handler raise
    [KeyError] inside its [try] block and answer the neutral command. *)
Example decide_endpoint_without_ships
    (validate_int : PyVal -> Result Z) (validate_float : PyVal -> Result R)
    (env : Env) (st : Server.ServerState) :
  Server.decide_body validate_int validate_float (VDict []) env st = (Raise KeyError, st)
  /\ Server.decide validate_int validate_float (VDict []) env st = (Ok neutral, st).
Proof. split; reflexivity. Qed.

(** C5.  Whatever the game state, the clock and the random draws,
    [DummyAgent.decide] returns a command and raises nothing: the command
    its [try] block returns, or the neutral command when that block
    raises.  The same holds of the [/decide/] handler, whatever the
    request body, the cached state and pydantic's coercions. *)
Theorem decision_never_raises :
  (forall (game_state : PyVal) (env : Env) (self : DummyAgent),
     exists command self',
       decide game_state env self = (Ok command, self')
       /\ match fst (decide_body game_state env self) with
          | Ok c => command = c
          | Raise _ => command = neutral
          end)
  /\ (forall (validate_int : PyVal -> Result Z) (validate_float : PyVal -> Result R)
             (game_data : PyVal) (env : Env) (st : Server.ServerState),
        exists command st',
          Server.decide validate_int validate_float game_data env st = (Ok command, st')
          /\ match fst (Server.decide_body validate_int validate_float game_data env st) with
             | Ok c => command = c
             | Raise _ => command = neutral
             end).
Proof.
  split.
  - intros game_state env self. unfold decide.
    destruct (try_except_returns (decide_body game_state env) neutral self)
      as (a & st' & H1 & _ & H2).
    now exists a, st'.
  - intros vi vf game_data env st. unfold Server.decide.
    destruct (try_except_returns (Server.decide_body vi vf game_data env) neutral st)
      as (a & st' & H1 & _ & H2).
    now exists a, st'.
Qed.

End AgentFacts.
(** ** Enemies before coins *)

Module PriorityFacts.
Import Py Server Agent AgentFacts.

Lemma radar_dict_type (o : RadarResult) :
  py_getitem (radar_dict o) (VStr "type") = Ok (VStr (kind o)).
Proof. reflexivity. Qed.

Lemma radar_dict_distance (o : RadarResult) :
  py_getitem (radar_dict o) (VStr "distance") = Ok (VFloat (distance o)).
Proof. reflexivity. Qed.

Lemma radar_dict_angle (o : RadarResult) :
  py_getitem (radar_dict o) (VStr "angle") = Ok (VFloat (bearing o)).
Proof. reflexivity. Qed.

Lemma partition_radar_typed (l : list RadarResult) :
  forall es cs,
  partition_radar (map radar_dict l) es cs
  = Ok (es ++ map radar_dict (filter is_enemy l),
        cs ++ map radar_dict (filter (fun o => negb (is_enemy o) && is_coin o) l)).
Proof.
  induction l as [|o l IH]; intros es cs; cbn [map partition_radar filter].
  - now rewrite !app_nil_r.
  - rewrite radar_dict_type; cbn [bindR].
    change (is_str "enemy" (VStr (kind o))) with (is_enemy o).
    change (is_str "coin" (VStr (kind o))) with (is_coin o).
    destruct (is_enemy o).
    + rewrite IH. cbn [negb andb map]. now rewrite <- !app_assoc.
    + destruct (is_coin o); rewrite IH; cbn [negb andb map].
      * now rewrite <- !app_assoc.
      * reflexivity.
Qed.

Lemma keyed_typed (l : list RadarResult) :
  keyed "distance" (map radar_dict l) = Ok (map keyed_entry l).
Proof.
  induction l as [|o l IH]; cbn [map keyed]; [reflexivity|].
  rewrite radar_dict_distance; cbn [bindR]. rewrite IH. reflexivity.
Qed.

Lemma insert_keyed_typed (o : RadarResult) (l : list RadarResult) :
  StronglySorted nearer l ->
  exists l',
    insert_keyed (keyed_entry o) (map keyed_entry l) = Ok (map keyed_entry l')
    /\ StronglySorted nearer l'
    /\ (forall x, In x l' <-> In x (o :: l)).
Proof.
  induction l as [|y l IH]; intros Hs.
  - exists [o]. split; [reflexivity|]. split; [repeat constructor|].
    intros x; tauto.
  - apply StronglySorted_inv in Hs as [Hs Hy].
    cbn [map insert_keyed]. cbn [py_lt num_of keyed_entry fst].
    destruct (Rltb (distance y) (distance o)) eqn:E.
    + apply Rltb_true in E.
      destruct (IH Hs) as (l' & Hl' & Hs' & Hin).
      fold (keyed_entry o). rewrite Hl'. cbn [bindR].
      exists (y :: l'). split; [reflexivity|]. split.
      * constructor; [exact Hs'|].
        apply Forall_forall. intros x Hx. apply Hin in Hx as [<-|Hx].
        -- unfold nearer; lra.
        -- rewrite Forall_forall in Hy. now apply Hy.
      * intros x; simpl. rewrite Hin. simpl. tauto.
    + apply Rltb_false in E.
      exists (o :: y :: l). split; [reflexivity|]. split.
      * constructor; [constructor; assumption|].
        constructor; [exact E|].
        rewrite Forall_forall in *. intros x Hx. specialize (Hy x Hx).
        unfold nearer in *; lra.
      * intros x; simpl; tauto.
Qed.

Lemma sort_keyed_typed (l : list RadarResult) :
  exists l',
    sort_keyed (map keyed_entry l) = Ok (map keyed_entry l')
    /\ StronglySorted nearer l'
    /\ (forall x, In x l' <-> In x l).
Proof.
  induction l as [|o l (l1 & Hl1 & Hs1 & Hin1)].
  - exists []. split; [reflexivity|]. split; [constructor|]. tauto.
  - cbn [map sort_keyed]. rewrite Hl1. cbn [bindR].
    destruct (insert_keyed_typed o l1 Hs1) as (l' & Hl' & Hs' & Hin').
    exists l'. split; [exact Hl'|]. split; [exact Hs'|].
    intros x. rewrite Hin'. simpl. rewrite Hin1. tauto.
Qed.

Lemma sort_by_typed (l : list RadarResult) :
  exists l',
    sort_by "distance" (map radar_dict l) = Ok (map radar_dict l')
    /\ StronglySorted nearer l'
    /\ (forall x, In x l' <-> In x l).
Proof.
  destruct (sort_keyed_typed l) as (l' & Hl' & Hs' & Hin').
  exists l'. split; [|split; assumption].
  unfold sort_by. rewrite keyed_typed. cbn [bindR]. rewrite Hl'. cbn [bindR].
  rewrite map_map. reflexivity.
Qed.

Lemma engage_enemy_float (d a : R) :
  exists command, engage_enemy (VFloat d) (VFloat a) = Ok command.
Proof.
  unfold engage_enemy, _calculate_turn_rate. cbn [as_num bindR].
  destruct (Rltb d 100); [destruct (Rltb d 50)|]; eexists; reflexivity.
Qed.

Lemma response_dict_truthy (sr : SensorResponse) : truthy (response_dict sr) = true.
Proof. reflexivity. Qed.

Lemma response_laser_hit (sr : SensorResponse) :
  py_get (response_dict sr) "laser_hit" (VBool false) = Ok (VBool (laser_hit sr)).
Proof. reflexivity. Qed.

Lemma response_laser_distance (sr : SensorResponse) (default : PyVal) :
  py_get (response_dict sr) "laser_distance" default
  = Ok (match laser_distance sr with Some d => VFloat d | None => VNone end).
Proof. reflexivity. Qed.

Lemma response_radar (sr : SensorResponse) :
  py_get (response_dict sr) "radar_objects" (VList [])
  = Ok (VList (map radar_dict (radar_objects sr))).
Proof. reflexivity. Qed.

(** With the laser silent or its hit 50 units or more away, neither wall
    rule fires. *)
Lemma no_wall_rule (sr : SensorResponse) (env : Env) (self : DummyAgent) :
  (laser_hit sr = false \/ exists d, laser_distance sr = Some d /\ 50 <= d) ->
  avoid_walls_or_seek (response_dict sr) env self
  = seek_targets (response_dict sr) env self.
Proof.
  intros Hlaser. unfold avoid_walls_or_seek.
  rewrite bind_get, !response_laser_hit, bind_lift_ok. cbn [truthy].
  destruct (laser_hit sr) eqn:Hhit.
  - destruct Hlaser as [?|(d & Hd & Hfar)]; [discriminate|].
    rewrite !response_laser_distance, Hd. cbn [bindR as_num].
    replace (Rltb d 50) with false by (symmetry; apply Rltb_false; lra).
    replace (Rltb d 30) with false by (symmetry; apply Rltb_false; lra).
    rewrite !bind_lift_ok. reflexivity.
  - rewrite !bind_lift_ok. reflexivity.
Qed.

Lemma seek_targets_enemy (sr : SensorResponse) (env : Env) (self : DummyAgent) :
  (exists e, In e (radar_objects sr) /\ kind e = "enemy"%string) ->
  exists e command,
    In e (radar_objects sr) /\ kind e = "enemy"%string
    /\ (forall e', In e' (radar_objects sr) -> kind e' = "enemy"%string ->
                   distance e <= distance e')
    /\ engage_enemy (VFloat (distance e)) (VFloat (bearing e)) = Ok command
    /\ seek_targets (response_dict sr) env self
       = (Ok command,
          set_target_memory self
            (memory_of "enemy" (VFloat (distance e)) (VFloat (bearing e)) (now env))).
Proof.
  intros (e0 & Hin0 & Hk0).
  assert (He0 : In e0 (filter is_enemy (radar_objects sr))).
  { apply filter_In. split; [exact Hin0|]. unfold is_enemy. now rewrite Hk0. }
  destruct (sort_by_typed (filter is_enemy (radar_objects sr)))
    as (sorted & Hsort & Hsorted & Hmem).
  destruct sorted as [|e rest]; [apply Hmem in He0; contradiction|].
  assert (He : In e (filter is_enemy (radar_objects sr))) by (apply Hmem; now left).
  apply filter_In in He as [Hin Hk]. apply String.eqb_eq in Hk.
  destruct (engage_enemy_float (distance e) (bearing e)) as (command & Hcmd).
  exists e, command. split; [exact Hin|]. split; [exact Hk|]. split; [|split; [exact Hcmd|]].
  - intros e' Hin' Hk'.
    assert (He' : In e' (e :: rest)).
    { apply Hmem, filter_In. split; [exact Hin'|]. unfold is_enemy. now rewrite Hk'. }
    apply StronglySorted_inv in Hsorted as [_ Hall].
    destruct He' as [<-|He']; [lra|].
    rewrite Forall_forall in Hall. now apply Hall.
  - unfold seek_targets.
    rewrite response_radar, bind_lift_ok. cbn [py_iter]. rewrite bind_lift_ok.
    rewrite partition_radar_typed, bind_lift_ok. cbn [app].
    destruct (filter is_enemy (radar_objects sr)) as [|e1 es] eqn:Hes;
      [contradiction|].
    cbn [map] in Hsort |- *.
    rewrite Hsort, bind_lift_ok. cbn [map]. rewrite bind_lift_ok.
    rewrite radar_dict_distance, bind_lift_ok, radar_dict_angle, bind_lift_ok.
    rewrite bind_get, bind_put. unfold lift. rewrite Hcmd. reflexivity.
Qed.

(** The scene of the design document, an enemy 40 units away and a coin
    30 units away, both dead ahead: the agent backs up and shoots. *)
Example design_scene_command (env : Env) (self : DummyAgent) :
  is_stuck (stuck_detection self) = false ->
  now env - check_time (stuck_detection self) <= 1 ->
  let sr := mkResponse false None [mkRadar "coin" 30 0; mkRadar "enemy" 40 0] in
  decide_from_sensors (response_dict sr) env self
  = (Ok (mkCommand (0 * 0.2) (-0.5) true),
     set_target_memory self (memory_of "enemy" (VFloat 40) (VFloat 0) (now env))).
Proof.
  intros Hstuck Hdue sr.
  unfold decide_from_sensors.
  rewrite response_dict_truthy. cbn [negb]. rewrite bind_get.
  replace (Rltb 1.0 (now env - check_time (stuck_detection self))) with false
    by (symmetry; apply Rltb_false; lra).
  rewrite bind_ret, bind_get, Hstuck.
  rewrite (no_wall_rule sr env self) by (left; reflexivity).
  destruct (seek_targets_enemy sr env self) as (e & command & Hin & Hk & _ & Hcmd & Hseek).
  { exists (mkRadar "enemy" 40 0). split; [right; left; reflexivity|reflexivity]. }
  rewrite Hseek.
  destruct Hin as [<-|[<-|[]]]; [discriminate|].
  change (distance (mkRadar "enemy" 40 0)) with 40 in *.
  change (bearing (mkRadar "enemy" 40 0)) with 0 in *.
  assert (Hc : engage_enemy (VFloat 40) (VFloat 0) = Ok (mkCommand (0 * 0.2) (-0.5) true)).
  { unfold engage_enemy, _calculate_turn_rate, turn_rate. cbn [as_num bindR negb].
    rewrite Rabs_R0.
    replace (Rltb 40 100) with true by (symmetry; apply Rltb_true; lra).
    replace (Rltb 40 50) with true by (symmetry; apply Rltb_true; lra).
    replace (Rltb 0 20) with true by (symmetry; apply Rltb_true; lra).
    replace (Rltb 0 15) with true by (symmetry; apply Rltb_true; lra).
    reflexivity. }
  rewrite Hc in Hcmd. inversion Hcmd; subst command. reflexivity.
Qed.

(** C3.  Take a sensor reading in the shape [sense] returns, with at least
    one radar object of type enemy and one of type coin, an agent that is
    not stuck, and a laser that reports no hit or a hit 50 units or more
    away, so that no earlier rule fires.  Then [decide_from_sensors]
    returns the command the enemy branch computes for a nearest enemy and
    stores that enemy in the target memory; the coins, however near, play
    no part. *)
Theorem enemies_preempt_coins (sr : SensorResponse) (env : Env) (self : DummyAgent) :
  is_stuck (stuck_detection self) = false ->
  (laser_hit sr = false \/ exists d, laser_distance sr = Some d /\ 50 <= d) ->
  (exists e, In e (radar_objects sr) /\ kind e = "enemy"%string) ->
  (exists c, In c (radar_objects sr) /\ kind c = "coin"%string) ->
  exists e command self',
    In e (radar_objects sr) /\ kind e = "enemy"%string
    /\ (forall e', In e' (radar_objects sr) -> kind e' = "enemy"%string ->
                   distance e <= distance e')
    /\ engage_enemy (VFloat (distance e)) (VFloat (bearing e)) = Ok command
    /\ decide_from_sensors (response_dict sr) env self = (Ok command, self')
    /\ target_memory self'
       = memory_of "enemy" (VFloat (distance e)) (VFloat (bearing e)) (now env).
Proof.
  intros Hstuck Hlaser Henemy _.
  unfold decide_from_sensors.
  rewrite response_dict_truthy. cbn [negb]. rewrite bind_get.
  set (upd := if Rltb 1.0 (now env - check_time (stuck_detection self))
              then _update_stuck_detection (response_dict sr) env else ret tt).
  assert (Hupd : exists self1,
            upd self = (Ok tt, self1)
            /\ is_stuck (stuck_detection self1) = false).
  { unfold upd. destruct (Rltb _ _).
    - unfold response_dict. rewrite update_on_dict.
      eexists; split; [reflexivity|exact Hstuck].
    - eexists; split; [reflexivity|exact Hstuck]. }
  destruct Hupd as (self1 & Hu & Hstuck1).
  rewrite (bind_run upd), Hu, bind_get, Hstuck1.
  rewrite (no_wall_rule sr env self1 Hlaser).
  destruct (seek_targets_enemy sr env self1 Henemy)
    as (e & command & Hin & Hk & Hmin & Hcmd & Hseek).
  exists e, command. eexists.
  split; [exact Hin|]. split; [exact Hk|]. split; [exact Hmin|].
  split; [exact Hcmd|]. split; [exact Hseek|reflexivity].
Qed.

(** The scene of the design document: an enemy 40 units away and a coin
    30 units away. *)
Lemma enemies_preempt_coins_witness :
  let sr := mkResponse false None
              [mkRadar "coin" 30 0; mkRadar "enemy" 40 0] in
  let env := mkEnv 0 0 0 0 0 1 0 0 0 0 0 in
  let self := init 0 (mkBirth 0 0 0) in
  (is_stuck (stuck_detection self) = false
   /\ (laser_hit sr = false \/ exists d, laser_distance sr = Some d /\ 50 <= d)
   /\ (exists e, In e (radar_objects sr) /\ kind e = "enemy"%string)
   /\ (exists c, In c (radar_objects sr) /\ kind c = "coin"%string))
  /\ exists e command self',
       In e (radar_objects sr) /\ kind e = "enemy"%string
       /\ (forall e', In e' (radar_objects sr) -> kind e' = "enemy"%string ->
                      distance e <= distance e')
       /\ engage_enemy (VFloat (distance e)) (VFloat (bearing e)) = Ok command
       /\ decide_from_sensors (response_dict sr) env self = (Ok command, self')
       /\ target_memory self'
          = memory_of "enemy" (VFloat (distance e)) (VFloat (bearing e)) (now env).
Proof.
  cbv zeta.
  assert (H1 : is_stuck (stuck_detection (init 0 (mkBirth 0 0 0))) = false) by reflexivity.
  assert (H2 : laser_hit (mkResponse false None
                            [mkRadar "coin" 30 0; mkRadar "enemy" 40 0]) = false
               \/ exists d,
                    laser_distance (mkResponse false None
                                      [mkRadar "coin" 30 0; mkRadar "enemy" 40 0])
                    = Some d /\ 50 <= d)
    by (left; reflexivity).
  assert (H3 : exists e,
                 In e (radar_objects (mkResponse false None
                                        [mkRadar "coin" 30 0; mkRadar "enemy" 40 0]))
                 /\ kind e = "enemy"%string)
    by (exists (mkRadar "enemy" 40 0); split; [right; left; reflexivity|reflexivity]).
  assert (H4 : exists c,
                 In c (radar_objects (mkResponse false None
                                        [mkRadar "coin" 30 0; mkRadar "enemy" 40 0]))
                 /\ kind c = "coin"%string)
    by (exists (mkRadar "coin" 30 0); split; [left; reflexivity|reflexivity]).
  split; [repeat split; assumption|].
  exact (enemies_preempt_coins _ (mkEnv 0 0 0 0 0 1 0 0 0 0 0) (init 0 (mkBirth 0 0 0)) H1 H2 H3 H4).
Defined.

End PriorityFacts.

(** ** The state cache *)

Module CacheFacts.
Import Py Server.

Lemma decide_keeps_cache (validate_int : PyVal -> Result Z)
    (validate_float : PyVal -> Result R)
    (game_data : PyVal) (env : Agent.Env) (st : ServerState) :
  cache (snd (decide validate_int validate_float game_data env st)) = cache st.
Proof.
  unfold decide, try_except, decide_body.
  unfold bind at 1, lift at 1.
  destruct (make_request validate_int validate_float game_data) as [request|e];
    [|reflexivity].
  unfold bind, get, on_agent.
  destruct (Agent.decide_from_sensors _ env (agent st)) as [[command|e] self'];
    reflexivity.
Qed.

(** C8, as stated, fails: at start-up the cached score is the
    empty list, not [[0, 0]]. *)
Lemma default_score_is_empty :
  get_game_state (startup (Agent.mkBirth 0 0 0)) <> mkGameState [] [] [] [0; 0]%Z.
Proof. unfold get_game_state, startup, game_state; simpl. discriminate. Qed.

(** C8, amended.  Until a state is published, that is from start-up on and
    through any number of [/decide/] requests, the state query returns
    [{ships: [], bullets: [], coins: [], score: []}]. *)
Theorem default_state_before_publication
    (validate_int : PyVal -> Result Z) (validate_float : PyVal -> Result R)
    (t : Agent.Birth) (requests : list (PyVal * Agent.Env)) :
  get_game_state (serve validate_int validate_float requests (startup t))
  = mkGameState [] [] [] [].
Proof.
  unfold get_game_state.
  assert (H : forall st,
            cache (serve validate_int validate_float requests st) = cache st).
  { induction requests as [|[game_data env] rest IH]; intros st; simpl.
    - reflexivity.
    - rewrite IH. apply decide_keeps_cache. }
  rewrite H. reflexivity.
Qed.

(** Once a state is published, the query returns it. *)
Lemma published_state_is_returned (state : GameState) (st : ServerState) :
  get_game_state (update_state state st) = state.
Proof. reflexivity. Qed.

End CacheFacts.

(** ** The patrol state machine *)

Module PatrolFacts.
Import Engine.

(** In FORWARD, with nothing ahead and a source whose draws all reach the
    1 % threshold, one call stays in FORWARD and advances the timer. *)
Lemma forward_step (enemy : SpaceObject) (walls : list Rect) (g : Rng) :
  patrol_state enemy = PATROL_STATE_FORWARD ->
  wall_ahead enemy walls = false ->
  (forall n, 0.01 <= draws g n) ->
  let '(enemy', ahead, g') := patrol_movement enemy walls g in
  patrol_state enemy' = PATROL_STATE_FORWARD
  /\ patrol_timer enemy' = (patrol_timer enemy + 1)%Z
  /\ ahead = false
  /\ draws g' = draws g.
Proof.
  intros Hstate Hclear Hdraws.
  unfold patrol_movement.
  change (wall_ahead (with_patrol enemy (patrol_state enemy) (patrol_timer enemy + 1)
                        (patrol_turn_target enemy) (patrol_direction enemy)) walls)
    with (wall_ahead enemy walls).
  rewrite Hclear.
  change (patrol_state (with_patrol enemy (patrol_state enemy) (patrol_timer enemy + 1)
                          (patrol_turn_target enemy) (patrol_direction enemy)))
    with (patrol_state enemy).
  rewrite Hstate.
  set (e1 := thrust 0.2 _).
  assert (Hs1 : patrol_state e1 = PATROL_STATE_FORWARD) by reflexivity.
  assert (Ht1 : patrol_timer e1 = (patrol_timer enemy + 1)%Z) by reflexivity.
  assert (Hjit : forall j, patrol_state (rotate j e1) = PATROL_STATE_FORWARD
                           /\ patrol_timer (rotate j e1) = (patrol_timer enemy + 1)%Z)
    by (intros j; split; reflexivity).
  clearbody e1.
  destruct (patrol_timer e1 mod 60 =? 0)%Z.
  - unfold uniform, random.
    destruct (Hjit (-2 + (2 - -2) * draws g (cursor g))) as [Hs2 Ht2].
    rewrite Ht2. cbn [draws cursor].
    destruct (180 <? patrol_timer enemy + 1)%Z.
    + replace (Rltb (draws g (S (cursor g))) 0.01) with false
        by (symmetry; apply Rltb_false; apply Hdraws).
      repeat split; assumption.
    + repeat split; assumption.
  - rewrite Ht1.
    destruct (180 <? patrol_timer enemy + 1)%Z.
    + unfold random.
      replace (Rltb (draws g (cursor g)) 0.01) with false
        by (symmetry; apply Rltb_false; apply Hdraws).
      repeat split; assumption.
    + repeat split; assumption.
Qed.

Lemma patrol_run_forward (enemy : SpaceObject) (walls : list Rect) (g : Rng) (n : nat) :
  patrol_state enemy = PATROL_STATE_FORWARD ->
  (forall m, 0.01 <= draws g m) ->
  (forall k, (k < n)%nat -> wall_ahead (fst (patrol_run k enemy walls g)) walls = false) ->
  forall k, (k <= n)%nat ->
    patrol_state (fst (patrol_run k enemy walls g)) = PATROL_STATE_FORWARD
    /\ draws (snd (patrol_run k enemy walls g)) = draws g
    /\ patrol_timer (fst (patrol_run k enemy walls g))
       = (patrol_timer enemy + Z.of_nat k)%Z.
Proof.
  intros Hstate Hdraws Hclear k.
  induction k as [|k IH]; intros Hk.
  - simpl. repeat split; auto. lia.
  - destruct IH as (Hs & Hd & Ht); [lia|].
    assert (Hc := Hclear k ltac:(lia)).
    simpl patrol_run.
    destruct (patrol_run k enemy walls g) as [e g1]; simpl fst in *; simpl snd in *.
    pose proof (forward_step e walls g1 Hs Hc) as Hstep.
    rewrite Hd in Hstep. specialize (Hstep Hdraws).
    destruct (patrol_movement e walls g1) as [[e' ahead] g2].
    destruct Hstep as (Hs' & Ht' & _ & Hd').
    simpl. repeat split; auto. lia.
Qed.

(** C6.  An enemy in FORWARD with a patrol timer below 180 stays in
    FORWARD through 1000 successive calls of [patrol_movement], provided
    the look-ahead probe finds no wall at any of these calls and no draw
    of the random source falls below the 1 % transition threshold. *)
Theorem patrol_stays_forward (enemy : SpaceObject) (walls : list Rect) (g : Rng) :
  patrol_state enemy = PATROL_STATE_FORWARD ->
  (patrol_timer enemy < 180)%Z ->
  (forall n, 0.01 <= draws g n) ->
  (forall k, (k < 1000)%nat ->
     wall_ahead (fst (patrol_run k enemy walls g)) walls = false) ->
  forall k, (k <= 1000)%nat ->
    patrol_state (fst (patrol_run k enemy walls g)) = PATROL_STATE_FORWARD.
Proof.
  intros Hstate _ Hdraws Hclear k Hk.
  now apply (patrol_run_forward enemy walls g 1000 Hstate Hdraws Hclear k Hk).
Qed.

Lemma patrol_stays_forward_witness :
  let enemy := new_ship 0 0 0 100 in
  let g := mkRng (fun _ => 1 / 2) 0 in
  (patrol_state enemy = PATROL_STATE_FORWARD
   /\ (patrol_timer enemy < 180)%Z
   /\ (forall n, 0.01 <= draws g n)
   /\ (forall k, (k < 1000)%nat ->
         wall_ahead (fst (patrol_run k enemy [] g)) [] = false))
  /\ patrol_state (fst (patrol_run 1000 enemy [] g)) = PATROL_STATE_FORWARD.
Proof.
  cbv zeta.
  assert (H1 : patrol_state (new_ship 0 0 0 100) = PATROL_STATE_FORWARD)
    by reflexivity.
  assert (H2 : (patrol_timer (new_ship 0 0 0 100) < 180)%Z) by (simpl; lia).
  assert (H3 : forall n, 0.01 <= draws (mkRng (fun _ => 1 / 2) 0) n)
    by (intros n; simpl; lra).
  assert (H4 : forall k, (k < 1000)%nat ->
                 wall_ahead (fst (patrol_run k (new_ship 0 0 0 100) []
                                    (mkRng (fun _ => 1 / 2) 0))) [] = false)
    by (intros k _; reflexivity).
  split; [repeat split; assumption|].
  exact (patrol_stays_forward _ _ _ H1 H2 H3 H4 1000%nat (le_n _)).
Defined.

End PatrolFacts.

(** ** The simulation step: who counts as the enemy *)

Module UpdateFacts.
Import Engine.

Lemma bounce_hp (ship_rect : Rect) (s : SpaceObject) (wall : Rect) :
  hp (bounce ship_rect s wall) = hp s.
Proof.
  unfold bounce.
  destruct (colliderect ship_rect wall); [|reflexivity].
  destruct (if Rltb (x s) _ then _ else _) as [x1 vx1].
  destruct (if Rltb (y s) _ then _ else _) as [y1 vy1].
  reflexivity.
Qed.

Lemma fold_bounce_hp (ship_rect : Rect) (rects : list Rect) :
  forall s, hp (fold_left (bounce ship_rect) rects s) = hp s.
Proof.
  induction rects as [|r rects IH]; intros s; simpl; [reflexivity|].
  rewrite IH. apply bounce_hp.
Qed.

(** Moving a ship and pushing it out of the walls leaves its hit points. *)
Lemma moved_hp (walls : list Rect) (others : list SpaceObject) (is_enemy : bool)
    (s : SpaceObject) :
  hp (check_wall_collision walls others (update_position is_enemy s)) = hp s.
Proof.
  unfold check_wall_collision. rewrite fold_bounce_hp. reflexivity.
Qed.

Lemma spawn_enemies_spec (n : nat) (walls : list Rect) :
  forall g,
    List.length (fst (spawn_enemies n walls g)) = n
    /\ Forall (fun s => hp s = 100%Z) (fst (spawn_enemies n walls g)).
Proof.
  induction n as [|n IH]; intros g; cbn [spawn_enemies].
  - split; [reflexivity|constructor].
  - destruct (generate_valid_position walls 2000 2000 g) as [[px py] g1].
    destruct (randint 0 360 g1) as [a g2].
    specialize (IH g2).
    destruct (spawn_enemies n walls g2) as [rest g3]; cbn [fst] in *.
    destruct IH as [Hlen Hall]. split; [simpl; now rewrite Hlen|].
    constructor; [reflexivity|exact Hall].
Qed.

(** The replacement enemies the ship loop spawns when it is at round [i]
    with [todo] left to visit: two if the ship of index 1 is among them
    and has no hit points, none otherwise. *)
Lemma update_ships_spec (walls : list Rect) (todo : list SpaceObject) :
  forall (i : nat) (kept new_ships : list SpaceObject) (g : Rng),
    let '(kept', new_ships', _) := update_ships walls i kept todo new_ships g in
    exists spawned,
      new_ships' = new_ships ++ spawned
      /\ Forall (fun s => hp s = 100%Z) spawned
      /\ List.length spawned
         = (if match nth_error todo (1 - i) with
               | Some s => Nat.leb i 1 && (hp s <=? 0)%Z
               | None => false
               end
            then 2 else 0)%nat
      /\ List.length kept'
         = (List.length kept + List.length (filter alive todo))%nat.
Proof.
  induction todo as [|ship rest IH]; intros i kept new_ships g.
  - cbn [update_ships]. exists [].
    split; [now rewrite app_nil_r|]. split; [constructor|].
    split; [now destruct (1 - i)%nat|simpl; lia].
  - cbn [update_ships].
    rewrite moved_hp.
    assert (Halive : alive ship = negb (hp ship <=? 0)%Z).
    { unfold alive. destruct (Z.leb_spec (hp ship) 0), (Z.ltb_spec 0 (hp ship));
        simpl; try reflexivity; lia. }
    cbn [filter]. rewrite Halive.
    destruct (hp ship <=? 0)%Z eqn:Hdead; cbn [negb].
    + destruct (Nat.eqb i 1) eqn:Hi.
      * apply Nat.eqb_eq in Hi; subst i.
        pose proof (spawn_enemies_spec 2 walls g) as [Hlen Hall].
        destruct (spawn_enemies 2 walls g) as [spawned g']; simpl in Hlen, Hall.
        specialize (IH 2%nat kept (new_ships ++ spawned) g').
        destruct (update_ships walls 2 kept rest (new_ships ++ spawned) g')
          as [[kept' new'] g''].
        destruct IH as (more & Hnew & Hall' & Hlen' & Hkept).
        simpl in Hlen'.
        assert (Hmore : more = []).
        { apply length_zero_iff_nil. rewrite Hlen'. now destruct rest. }
        subst more. rewrite app_nil_r in Hnew.
        cbv beta iota. exists spawned.
        cbn [nth_error Nat.sub Nat.leb andb]. rewrite Hdead.
        repeat split; assumption.
      * specialize (IH (S i) kept new_ships g).
        destruct (update_ships walls (S i) kept rest new_ships g)
          as [[kept' new'] g''].
        destruct IH as (spawned & Hnew & Hall & Hlen & Hkept).
        cbv beta iota. exists spawned. repeat split; try assumption.
        rewrite Hlen.
        apply Nat.eqb_neq in Hi.
        destruct i as [|[|i]]; [|lia|].
        -- cbn [nth_error Nat.sub]. now destruct (nth_error rest 1).
        -- cbn [Nat.sub Nat.leb nth_error andb].
           now destruct rest.
    + specialize (IH (S i) (kept ++ [check_wall_collision walls (kept ++ rest)
                                        (update_position (Nat.eqb i 1) ship)])
                     new_ships g).
      destruct (update_ships walls (S i) _ rest new_ships g) as [[kept' new'] g''].
      destruct IH as (spawned & Hnew & Hall & Hlen & Hkept).
      cbv beta iota. exists spawned. repeat split; try assumption.
      * rewrite Hlen.
        destruct i as [|[|i]].
        -- cbn [nth_error Nat.sub]. now destruct (nth_error rest 1).
        -- cbn [nth_error Nat.sub Nat.leb andb]. rewrite Hdead. now destruct rest.
        -- cbn [Nat.sub Nat.leb nth_error andb]. now destruct rest.
      * rewrite Hkept, length_app. simpl. lia.
Qed.

(** The score a bullet leaves, by the index [i] at which the loop over the
    ships stands: past index 1 nothing is added. *)
Lemma hit_ships_past_enemy (b : Bullet) (todo : list SpaceObject) :
  forall (i : Z) (hit : bool) (score : list Z),
    (1 < i)%Z ->
    snd (hit_ships b i todo hit score) = score
    /\ List.length (fst (fst (hit_ships b i todo hit score))) = List.length todo.
Proof.
  induction todo as [|ship rest IH]; intros i hit score Hi; cbn [hit_ships].
  - split; reflexivity.
  - destruct (negb (i =? owner b)%Z && _collides b ship).
    + replace (i =? 1)%Z with false by (symmetry; apply Z.eqb_neq; lia).
      rewrite andb_false_r.
      specialize (IH (i + 1)%Z true score ltac:(lia)).
      destruct (hit_ships b (i + 1) rest true score) as [[rest' hit'] score'].
      cbn [fst snd] in *. destruct IH as [Hs Hl]. subst score'.
      cbn [List.length]. rewrite Hl. split; reflexivity.
    + specialize (IH (i + 1)%Z hit score ltac:(lia)).
      destruct (hit_ships b (i + 1) rest hit score) as [[rest' hit'] score'].
      cbn [fst snd] in *. destruct IH as [Hs Hl]. subst score'.
      cbn [List.length]. rewrite Hl. split; reflexivity.
Qed.

Lemma hit_ships_at_enemy (b : Bullet) (ship : SpaceObject) (rest : list SpaceObject)
    (hit : bool) (score : list Z) :
  snd (hit_ships b 1 (ship :: rest) hit score)
  = (if negb (1 =? owner b)%Z && _collides b ship && (hp ship - 10 <=? 0)%Z
     then add_player_score 10 score else score)
  /\ List.length (fst (fst (hit_ships b 1 (ship :: rest) hit score)))
     = S (List.length rest).
Proof.
  cbn [hit_ships].
  destruct (negb (1 =? owner b)%Z && _collides b ship); cbn [andb].
  - change (hp (with_hp ship (hp ship - 10))) with (hp ship - 10)%Z.
    rewrite andb_true_r.
    set (score1 := if (hp ship - 10 <=? 0)%Z then add_player_score 10 score else score).
    destruct (hit_ships_past_enemy b rest (1 + 1)%Z true score1 ltac:(lia)) as [Hs Hl].
    destruct (hit_ships b (1 + 1) rest true score1) as [[rest' hit'] score'].
    cbn [fst snd] in *. subst score'. cbn [List.length]. rewrite Hl.
    split; reflexivity.
  - destruct (hit_ships_past_enemy b rest (1 + 1)%Z hit score ltac:(lia)) as [Hs Hl].
    destruct (hit_ships b (1 + 1) rest hit score) as [[rest' hit'] score'].
    cbn [fst snd] in *. subst score'. cbn [List.length]. rewrite Hl.
    split; reflexivity.
Qed.

(** One bullet adds 10 points exactly when it brings the ship of index 1
    to no hit points; the ships keep their places. *)
Lemma hit_ships_score (b : Bullet) (ships : list SpaceObject) (hit : bool) (score : list Z) :
  snd (hit_ships b 0 ships hit score)
  = (if enemy_killed_by b ships then add_player_score 10 score else score)
  /\ List.length (fst (fst (hit_ships b 0 ships hit score))) = List.length ships.
Proof.
  unfold enemy_killed_by.
  destruct ships as [|player rest]; [split; reflexivity|].
  cbn [hit_ships nth_error].
  destruct (negb (0 =? owner b)%Z && _collides b player).
  - cbn [Z.eqb andb]. rewrite andb_false_r.
    destruct rest as [|enemy rest].
    + split; reflexivity.
    + destruct (hit_ships_at_enemy b enemy rest true score) as [Hs Hl].
      change (0 + 1)%Z with 1%Z.
      destruct (hit_ships b 1 (enemy :: rest) true score) as [[rest' hit'] score'].
      cbn [fst snd nth_error] in *. subst score'. cbn [List.length]. rewrite Hl.
      split; reflexivity.
  - destruct rest as [|enemy rest].
    + split; reflexivity.
    + destruct (hit_ships_at_enemy b enemy rest hit score) as [Hs Hl].
      change (0 + 1)%Z with 1%Z.
      destruct (hit_ships b 1 (enemy :: rest) hit score) as [[rest' hit'] score'].
      cbn [fst snd nth_error] in *. subst score'. cbn [List.length]. rewrite Hl.
      split; reflexivity.
Qed.

Lemma resolve_bullets_length (walls : list Rect) (todo : list Bullet) :
  forall (ships : list SpaceObject) (score : list Z) (new_bullets : list Bullet),
    List.length (fst (fst (resolve_bullets walls todo ships score new_bullets)))
    = List.length ships.
Proof.
  induction todo as [|b rest IH]; intros ships score new_bullets; cbn [resolve_bullets].
  - reflexivity.
  - destruct (hit_ships_score b ships
                (existsb (colliderect (Rect_of (bullet_x b - 3) (bullet_y b - 3) 6 6)) walls)
                score) as [_ Hl].
    destruct (hit_ships b 0 ships _ score) as [[ships' hit] score'].
    cbn [fst] in Hl. rewrite IH. exact Hl.
Qed.

(** C10.  In [GameEngine.update] the ship at index 1, and no other, is the
    scoring enemy.  The ship loop appends two replacement enemies of 100
    hit points when the ship at index 1 of the list has no hit points left
    and none otherwise, whatever happens to the ships at other indices, so
    that the list afterwards holds the surviving ships and these
    replacements.  A bullet adds 10 points to the player's score when it
    leaves the ship at index 1 without hit points, and nothing for any
    other ship. *)
Theorem only_index_one_is_the_enemy :
  (forall (walls : list Rect) (g : Rng) (ships : list SpaceObject),
     let '(kept, new_ships, _) := update_ships walls 0 [] ships [] g in
     List.length kept = List.length (filter alive ships)
     /\ List.length new_ships = (if enemy_dead ships then 2 else 0)%nat
     /\ Forall (fun s => hp s = 100%Z) new_ships)
  /\ (forall (walls : list Rect) (g : Rng) (e : GameEngine),
        List.length (ships (fst (update walls g e)))
        = (List.length (filter alive (ships e))
           + (if enemy_dead (ships e) then 2 else 0))%nat)
  /\ (forall (b : Bullet) (ships : list SpaceObject) (hit : bool) (s0 : Z) (rest : list Z),
        snd (hit_ships b 0 ships hit (s0 :: rest))
        = (s0 + (if enemy_killed_by b ships then 10 else 0))%Z :: rest).
Proof.
  assert (Hloop : forall (walls : list Rect) (g : Rng) (ships : list SpaceObject),
            let '(kept, new_ships, _) := update_ships walls 0 [] ships [] g in
            List.length kept = List.length (filter alive ships)
            /\ List.length new_ships = (if enemy_dead ships then 2 else 0)%nat
            /\ Forall (fun s => hp s = 100%Z) new_ships).
  { intros walls g ships.
    pose proof (update_ships_spec walls ships 0 [] [] g) as H.
    destruct (update_ships walls 0 [] ships [] g) as [[kept new_ships] g'].
    destruct H as (spawned & Hnew & Hall & Hlen & Hkept).
    cbn [app] in Hnew. subst new_ships.
    split; [exact Hkept|]. split; [|exact Hall].
    rewrite Hlen. unfold enemy_dead. cbn [Nat.sub Nat.leb andb].
    now destruct (nth_error ships 1). }
  split; [exact Hloop|]. split.
  - intros walls g e. unfold update.
    specialize (Hloop walls g (ships e)).
    destruct (update_ships walls 0 [] (ships e) [] g) as [[kept new_ships] g'].
    destruct Hloop as (Hkept & Hnew & _).
    pose proof (resolve_bullets_length walls (map bullet_update (bullets e))
                  (kept ++ new_ships) (score e) []) as Hl.
    destruct (resolve_bullets walls _ (kept ++ new_ships) (score e) [])
      as [[ships2 score'] new_bullets].
    cbn [fst ships] in *. rewrite Hl, length_app, Hkept, Hnew. reflexivity.
  - intros b ships hit s0 rest.
    rewrite (proj1 (hit_ships_score b ships hit (s0 :: rest))).
    destruct (enemy_killed_by b ships); cbn [add_player_score];
      f_equal; lia.
Qed.

End UpdateFacts.


(* ================================================================== *)
(** ** Further facts about numbers *)
(* ================================================================== *)

(** [a % m] lands in [[0, m)] and differs from [a] by a multiple of [m]. *)
Lemma py_mod_range (a m : R) : 0 < m -> 0 <= py_mod a m < m.
Proof.
  intros Hm. unfold py_mod.
  destruct (base_Int_part (a / m)) as [H1 H2].
  assert (Ha : a = m * (a / m)) by (field; lra).
  set (q := IZR (Int_part (a / m))) in *.
  split.
  - assert (0 <= m * (a / m - q)) by (apply Rmult_le_pos; lra). lra.
  - assert (m * (a / m - q) < m * 1) by (apply Rmult_lt_compat_l; lra). lra.
Qed.

Lemma py_mod_congruent (a m : R) : exists k : Z, py_mod a m = a - m * IZR k.
Proof. exists (Int_part (a / m)). reflexivity. Qed.

(** The half-turn fold [if d > 180: d -= 360] after [% 360]. *)
Lemma signed_difference_range (a : R) :
  let d := py_mod a 360 in
  -180 < (if Rltb 180 d then d - 360 else d) <= 180.
Proof.
  intros d. subst d. pose proof (py_mod_range a 360 ltac:(lra)) as H.
  destruct (Rltb 180 (py_mod a 360)) eqn:E.
  - apply Rltb_true in E. lra.
  - apply Rltb_false in E. lra.
Qed.

Lemma Int_part_IZR (z : Z) : Int_part (IZR z) = z.
Proof. symmetry. apply Int_part_spec. lra. Qed.

Lemma truncate_IZR (z : Z) : truncate (IZR z) = z.
Proof.
  unfold truncate. destruct (Rleb 0 (IZR z)).
  - apply Int_part_IZR.
  - rewrite <- opp_IZR, Int_part_IZR. lia.
Qed.

Lemma truncate_small (r : R) (n : Z) : 0 <= r -> r < IZR n -> (truncate r < n)%Z.
Proof.
  intros H0 Hn. unfold truncate.
  replace (Rleb 0 r) with true by (symmetry; apply Rleb_true; exact H0).
  destruct (base_Int_part r) as [H1 _].
  apply lt_IZR. lra.
Qed.

(** [int(r)] is within one unit of [r] and keeps the order with the
    integers. *)
Lemma truncate_near (r : R) : r - 1 < IZR (truncate r) < r + 1.
Proof.
  unfold truncate. destruct (Rleb 0 r) eqn:E.
  - destruct (base_Int_part r). lra.
  - apply Rleb_false in E. destruct (base_Int_part (- r)).
    rewrite opp_IZR. lra.
Qed.

Lemma truncate_le (r : R) (n : Z) : r <= IZR n -> (truncate r <= n)%Z.
Proof.
  intros H. unfold truncate. destruct (Rleb 0 r) eqn:E.
  - destruct (base_Int_part r). apply le_IZR. lra.
  - destruct (base_Int_part (- r)) as [_ H2].
    assert (H3 : (- n - 1 < Int_part (- r))%Z)
      by (apply lt_IZR; rewrite minus_IZR, opp_IZR; lra).
    lia.
Qed.

Lemma truncate_ge (r : R) (n : Z) : IZR n <= r -> (n <= truncate r)%Z.
Proof.
  intros H. unfold truncate. destruct (Rleb 0 r) eqn:E.
  - destruct (base_Int_part r) as [_ H2].
    assert (H3 : (n - 1 < Int_part r)%Z) by (apply lt_IZR; rewrite minus_IZR; lra).
    lia.
  - destruct (base_Int_part (- r)) as [H1 _].
    assert (H3 : (Int_part (- r) <= - n)%Z) by (apply le_IZR; rewrite opp_IZR; lra).
    lia.
Qed.

Lemma truncate_gap (r r' : R) : r + 21 <= r' -> (truncate r + 20 <= truncate r')%Z.
Proof.
  intros H. pose proof (truncate_near r). pose proof (truncate_near r').
  assert (H3 : (truncate r + 19 < truncate r')%Z)
    by (apply lt_IZR; rewrite plus_IZR; lra).
  lia.
Qed.

(** [max(lo, min(v, hi))] *)
Lemma clamp_bounds (lo hi v : R) : lo <= hi -> lo <= Rmax lo (Rmin v hi) <= hi.
Proof.
  intros H. unfold Rmax, Rmin.
  destruct (Rle_dec v hi); destruct (Rle_dec lo _); lra.
Qed.

Lemma clamp_inside (lo hi v : R) : lo <= v <= hi -> Rmax lo (Rmin v hi) = v.
Proof.
  intros H. unfold Rmax, Rmin.
  destruct (Rle_dec v hi); destruct (Rle_dec lo _); lra.
Qed.

Lemma hypot_pos (dx dy : R) : 0 <= hypot dx dy.
Proof. apply sqrt_pos. Qed.

(** A step of length [k] along a heading. *)
Lemma hypot_heading (r k : R) : 0 <= k -> hypot (cos r * k) (sin r * k) = k.
Proof.
  intros Hk. unfold hypot.
  pose proof (sin2_cos2 r) as H. unfold Rsqr in H.
  replace (cos r * k * (cos r * k) + sin r * k * (sin r * k))
    with ((sin r * sin r + cos r * cos r) * (k * k)) by ring.
  rewrite H, Rmult_1_l. apply sqrt_square. exact Hk.
Qed.

(** Two numbers of which exactly one is positive: the first over their
    difference is a ratio in [[0, 1]]. *)
Lemma ratio_in_unit (n m : R) :
  (0 < n /\ m <= 0) \/ (n <= 0 /\ 0 < m) ->
  n - m <> 0 /\ 0 <= n / (n - m) <= 1.
Proof.
  intros [[Hn Hm]|[Hn Hm]].
  - assert (Hd : 0 < n - m) by lra. split; [lra|].
    split.
    + apply Rmult_le_pos; [lra|]. left. apply Rinv_0_lt_compat. exact Hd.
    + apply (Rmult_le_reg_r (n - m)); [exact Hd|]. unfold Rdiv.
      rewrite Rmult_assoc, Rinv_l by lra. lra.
  - assert (Hd : 0 < m - n) by lra. split; [lra|].
    replace (n / (n - m)) with ((- n) / (m - n)) by (field; lra).
    split.
    + apply Rmult_le_pos; [lra|]. left. apply Rinv_0_lt_compat. exact Hd.
    + apply (Rmult_le_reg_r (m - n)); [exact Hd|]. unfold Rdiv.
      rewrite Rmult_assoc, Rinv_l by lra. lra.
Qed.

(* ================================================================== *)
(** ** More on the sensors *)
(* ================================================================== *)

Module SensorFacts.
Import Py Server.

(** X1.  [line_intersects_rect] returns [None] for every segment that lies
    entirely to the left of, to the right of, above or below a wall of
    non-negative width and height. *)
Theorem segment_outside_box_misses (x1 y1 x2 y2 : R) (rect : Wall) :
  0 <= wall_width rect -> 0 <= wall_height rect ->
  (Rmax x1 x2 < wall_x rect \/ wall_x rect + wall_width rect < Rmin x1 x2
   \/ Rmax y1 y2 < wall_y rect \/ wall_y rect + wall_height rect < Rmin y1 y2) ->
  line_intersects_rect x1 y1 x2 y2 rect = None.
Proof.
  intros Hw Hh Hout. apply GeometryFacts.line_intersects_rect_apart.
  intros px py Hx Hy Hrx Hry.
  rewrite Rmin_left, Rmax_right in Hrx by lra.
  rewrite Rmin_left, Rmax_right in Hry by lra.
  lra.
Qed.

Lemma segment_outside_box_misses_witness :
  line_intersects_rect 0 0 100 0 (mkWall 200 (-10) 20 20) = None.
Proof.
  apply segment_outside_box_misses; cbn [wall_x wall_y wall_width wall_height]; try lra.
  left. rewrite Rmax_right; lra.
Defined.

(** *** Visibility does not depend on who looks *)

Lemma line_intersects_line_swap (x1 y1 x2 y2 x3 y3 x4 y4 : R) :
  line_intersects_line x2 y2 x1 y1 x3 y3 x4 y4
  = line_intersects_line x1 y1 x2 y2 x3 y3 x4 y4.
Proof.
  unfold line_intersects_line.
  set (den := (y4 - y3) * (x2 - x1) - (x4 - x3) * (y2 - y1)).
  replace ((y4 - y3) * (x1 - x2) - (x4 - x3) * (y1 - y2)) with (- den)
    by (subst den; ring).
  destruct (Reqb den 0) eqn:E.
  - apply Reqb_true in E. rewrite E.
    replace (Reqb (- 0) 0) with true by (symmetry; apply Reqb_true; lra). reflexivity.
  - apply Reqb_false in E.
    replace (Reqb (- den) 0) with false by (symmetry; apply Reqb_false; lra).
    set (ua := ((x4 - x3) * (y1 - y3) - (y4 - y3) * (x1 - x3)) / den).
    set (ub := ((x2 - x1) * (y1 - y3) - (y2 - y1) * (x1 - x3)) / den).
    replace (((x4 - x3) * (y2 - y3) - (y4 - y3) * (x2 - x3)) / - den) with (1 - ua)
      by (subst ua den; field; exact E).
    replace (((x1 - x2) * (y2 - y3) - (y1 - y2) * (x2 - x3)) / - den) with ub
      by (subst ub den; field; exact E).
    destruct (Rleb 0 ub && Rleb ub 1); [|now rewrite !andb_false_r].
    rewrite !andb_true_r.
    destruct (Rleb 0 ua) eqn:A; destruct (Rleb ua 1) eqn:B;
      [apply Rleb_true in A|apply Rleb_true in A|apply Rleb_false in A|apply Rleb_false in A];
      [apply Rleb_true in B|apply Rleb_false in B|apply Rleb_true in B|apply Rleb_false in B];
      cbn [andb]; rcmp; try reflexivity; exfalso; lra.
Qed.

Lemma line_intersects_rect_swap_none (x1 y1 x2 y2 : R) (rect : Wall) :
  line_intersects_rect x1 y1 x2 y2 rect = None ->
  line_intersects_rect x2 y2 x1 y1 rect = None.
Proof.
  unfold line_intersects_rect. rewrite !GeometryFacts.first_edge_hit_none.
  intros H x3 y3 x4 y4 Hin. rewrite line_intersects_line_swap. auto.
Qed.

Lemma far_from_sight_swap (x1 y1 x2 y2 : R) (wall : Wall) :
  far_from_sight x2 y2 x1 y1 wall = far_from_sight x1 y1 x2 y2 wall.
Proof.
  unfold far_from_sight.
  rewrite (Rmin_comm x2 x1), (Rmax_comm x2 x1), (Rmin_comm y2 y1), (Rmax_comm y2 y1).
  reflexivity.
Qed.

Lemma sight_clear_swap (x1 y1 x2 y2 : R) (walls : list Wall) :
  sight_clear x2 y2 x1 y1 walls = sight_clear x1 y1 x2 y2 walls.
Proof.
  induction walls as [|wall rest IH]; [reflexivity|].
  cbn [sight_clear]. rewrite far_from_sight_swap, IH.
  destruct (far_from_sight x1 y1 x2 y2 wall); [reflexivity|].
  destruct (line_intersects_rect x1 y1 x2 y2 wall) eqn:A.
  - destruct (line_intersects_rect x2 y2 x1 y1 wall) eqn:B; [reflexivity|].
    apply line_intersects_rect_swap_none in B. congruence.
  - apply line_intersects_rect_swap_none in A. rewrite A. reflexivity.
Qed.

(** X2.  [is_visible] gives the same answer in both directions: the point
    [(x2, y2)] is visible from [(x1, y1)] exactly when [(x1, y1)] is
    visible from [(x2, y2)], whatever the walls. *)
Theorem visibility_is_mutual (x1 y1 x2 y2 : R) (walls : list Wall) :
  is_visible x2 y2 x1 y1 walls = is_visible x1 y1 x2 y2 walls.
Proof.
  unfold is_visible. rewrite sight_clear_swap.
  replace ((x1 - x2) ^ 2 + (y1 - y2) ^ 2) with ((x2 - x1) ^ 2 + (y2 - y1) ^ 2) by ring.
  reflexivity.
Qed.

(** X3.  [check_laser] has two outcomes.  Either it reports no hit and no
    distance, and then every point [line_intersects_rect] finds on the ray
    is at least [max_distance] away (a wall met exactly at the end of the
    ray is not reported); or it reports a hit with a distance below
    [max_distance] that is the distance to the point
    [line_intersects_rect] returns for one of the walls and is not larger
    than that of any other wall. *)
Theorem laser_reading_cases (x y angle : R) (walls : list Wall) :
  let end_x := x + cos (radians angle) * max_distance in
  let end_y := y + sin (radians angle) * max_distance in
  (check_laser x y angle walls = (false, None)
   /\ forall w p, In w walls -> line_intersects_rect x y end_x end_y w = Some p ->
                  max_distance <= hit_distance x y p)
  \/ (exists d w p,
        check_laser x y angle walls = (true, Some d)
        /\ d < max_distance
        /\ In w walls /\ line_intersects_rect x y end_x end_y w = Some p
        /\ d = hit_distance x y p
        /\ forall w' p', In w' walls -> line_intersects_rect x y end_x end_y w' = Some p' ->
                         d <= hit_distance x y p').
Proof.
  intros end_x end_y. unfold check_laser. fold end_x end_y.
  destruct (laser_scan x y end_x end_y walls None max_distance) as [c m] eqn:E.
  destruct (GeometryFacts.laser_scan_spec _ _ _ _ _ _ _ _ _ E) as (Hle & Hmin & Hcase).
  destruct Hcase as [[-> ->] | (w & p & Hin & Hp & -> & -> & Hlt)].
  - left. split; [reflexivity|exact Hmin].
  - right. exists (hit_distance x y p), w, p. repeat split; auto.
Qed.

(** *** What [sense] puts in a reading *)

Lemma relative_bearing_range (dx dy ship_angle : R) :
  -180 < relative_bearing dx dy ship_angle <= 180.
Proof. unfold relative_bearing. apply signed_difference_range. Qed.

Lemma scan_ships_typed (ship_id : Z) (sx sy ship_angle : R) (others : list Ship) :
  forall i, exists objs,
    scan_ships ship_id sx sy ship_angle i others = map radar_dict objs
    /\ Forall (fun o => well_formed o /\ kind o = "enemy"%string) objs
    /\ (List.length objs <= List.length others)%nat
    /\ ((0 <= ship_id - i < Z.of_nat (List.length others))%Z ->
        (List.length objs < List.length others)%nat).
Proof.
  induction others as [|other rest IH]; intros i.
  - exists []. cbn. repeat split; auto. lia.
  - destruct (IH (i + 1)%Z) as (objs & Heq & Hall & Hlen & Hself).
    cbn [scan_ships]. rewrite Heq.
    destruct (i =? ship_id)%Z eqn:Ei.
    + exists objs. cbn [List.length]. repeat split; auto. lia.
    + apply Z.eqb_neq in Ei.
      destruct (Rltb radar_range _) eqn:Er.
      * exists objs. cbn [List.length] in *. repeat split; auto.
        intros H. assert ((List.length objs < List.length rest)%nat) by (apply Hself; lia).
        lia.
      * destruct (is_visible _ _ _ _ _).
        -- exists (mkRadar "enemy"
                     (hypot (ship_x other - sx) (ship_y other - sy))
                     (relative_bearing (ship_x other - sx) (ship_y other - sy) ship_angle)
                   :: objs).
           split; [reflexivity|]. split.
           ++ constructor; [|exact Hall]. split; [|reflexivity].
              unfold well_formed. cbn [kind distance bearing].
              apply Rltb_false in Er.
              split; [now left|]. split; [split; [apply hypot_pos|exact Er]|].
              apply relative_bearing_range.
           ++ cbn [List.length] in *. split; [lia|].
              intros H. assert ((List.length objs < List.length rest)%nat) by (apply Hself; lia).
              lia.
        -- exists objs. cbn [List.length] in *. repeat split; auto.
           intros H. assert ((List.length objs < List.length rest)%nat) by (apply Hself; lia).
           lia.
Qed.

Lemma scan_coins_typed (sx sy ship_angle : R) (cs : list Coin) :
  exists objs,
    scan_coins sx sy ship_angle cs = map radar_dict objs
    /\ Forall (fun o => well_formed o /\ kind o = "coin"%string) objs
    /\ (List.length objs <= List.length cs)%nat.
Proof.
  induction cs as [|coin rest (objs & Heq & Hall & Hlen)].
  - exists []. cbn. repeat split; auto.
  - cbn [scan_coins]. rewrite Heq.
    destruct (Rltb radar_range _) eqn:Er.
    + exists objs. cbn [List.length]. repeat split; auto.
    + destruct (is_visible _ _ _ _ _).
      * exists (mkRadar "coin"
                  (hypot (coin_x coin - sx) (coin_y coin - sy))
                  (relative_bearing (coin_x coin - sx) (coin_y coin - sy) ship_angle)
                :: objs).
        split; [reflexivity|]. split.
        -- constructor; [|exact Hall]. split; [|reflexivity].
           unfold well_formed. cbn [kind distance bearing].
           apply Rltb_false in Er.
           split; [now right|]. split; [split; [apply hypot_pos|exact Er]|].
           apply relative_bearing_range.
        -- cbn [List.length]. lia.
      * exists objs. cbn [List.length]. repeat split; auto.
Qed.

Lemma check_laser_shape (x y angle : R) (walls : list Wall) :
  check_laser x y angle walls = (false, None)
  \/ exists d, check_laser x y angle walls = (true, Some d) /\ 0 <= d < max_distance.
Proof.
  destruct (check_laser x y angle walls) as [[|] [d|]] eqn:E.
  - right. exists d. split; [reflexivity|].
    destruct (GeometryFacts.check_laser_hit _ _ _ _ _ E) as (Hlt & (w & p & _ & _ & Hd) & _).
    split; [|exact Hlt]. rewrite Hd. apply sqrt_pos.
  - exfalso. unfold check_laser in E.
    destruct (laser_scan _ _ _ _ _ _ _) as [[?|] ?]; discriminate E.
  - exfalso. unfold check_laser in E.
    destruct (laser_scan _ _ _ _ _ _ _) as [[?|] ?]; discriminate E.
  - left. reflexivity.
Qed.

(** The [try] block of [sense], when it returns, returns a
    [SensorResponse] in dict form. *)
Lemma sense_body_typed (request : SensorRequest) (gs : GameState) (v : PyVal) :
  sense_body request gs = Ok v ->
  exists sr,
    v = response_dict sr
    /\ (laser_hit sr = true -> exists d, laser_distance sr = Some d /\ 0 <= d < max_distance)
    /\ Forall well_formed (radar_objects sr)
    /\ (List.length (radar_objects sr)
        <= List.length (ships gs) + List.length (coins gs))%nat
    /\ ((0 <= ship_id request < Z.of_nat (List.length (ships gs)))%Z ->
        (List.length (radar_objects sr)
         < List.length (ships gs) + List.length (coins gs))%nat).
Proof.
  unfold sense_body. set (walls := walls_data). clearbody walls. intros H.
  destruct (py_getitem (position request) (VStr "x")) as [px|]; [|discriminate H].
  destruct (py_getitem (position request) (VStr "y")) as [py|]; [|discriminate H].
  cbv beta iota zeta delta [bindR] in H.
  destruct (format_f px) as [sx|]; [|discriminate H].
  destruct (format_f py) as [sy|]; [|discriminate H].
  cbv beta iota zeta delta [bindR] in H.
  destruct (scan_ships_typed (ship_id request) sx sy (angle request) (ships gs) 0)
    as (es & Hes & Hesall & Heslen & Hself).
  destruct (scan_coins_typed sx sy (angle request) (coins gs)) as (cs & Hcs & Hcsall & Hcslen).
  rewrite Hes, Hcs, <- map_app in H.
  assert (Hall : Forall well_formed (es ++ cs)).
  { apply Forall_app.
    split; [eapply Forall_impl; [|exact Hesall] | eapply Forall_impl; [|exact Hcsall]];
      cbn; intros o [Ho _]; exact Ho. }
  destruct (check_laser_shape sx sy (angle request) walls) as [Hl | (d & Hl & Hd)];
    rewrite Hl in H; cbv beta iota in H; injection H as Hv; subst v.
  - exists (mkResponse false None (es ++ cs)). cbn [laser_hit laser_distance radar_objects].
    split; [reflexivity|]. split; [discriminate|]. split; [exact Hall|].
    rewrite length_app. split; [lia|]. intros Hr.
    assert ((List.length es < List.length (ships gs))%nat) by (apply Hself; lia). lia.
  - exists (mkResponse true (Some d) (es ++ cs)). cbn [laser_hit laser_distance radar_objects].
    split; [reflexivity|]. split; [intros _; exists d; auto|]. split; [exact Hall|].
    rewrite length_app. split; [lia|]. intros Hr.
    assert ((List.length es < List.length (ships gs))%nat) by (apply Hself; lia). lia.
Qed.

Lemma sense_cases (request : SensorRequest) (gs : GameState) :
  (exists sr,
     sense request gs = response_dict sr
     /\ (laser_hit sr = true -> exists d, laser_distance sr = Some d /\ 0 <= d < max_distance)
     /\ Forall well_formed (radar_objects sr)
     /\ (List.length (radar_objects sr)
         <= List.length (ships gs) + List.length (coins gs))%nat
     /\ ((0 <= ship_id request < Z.of_nat (List.length (ships gs)))%Z ->
         (List.length (radar_objects sr)
          < List.length (ships gs) + List.length (coins gs))%nat))
  \/ ((exists e, sense_body request gs = Raise e)
      /\ sense request gs = fallback_response).
Proof.
  unfold sense. destruct (sense_body request gs) as [v|e] eqn:E.
  - left. apply sense_body_typed in E. exact E.
  - right. split; [exists e|]; reflexivity.
Qed.

Lemma sense_is_dict (request : SensorRequest) (gs : GameState) :
  exists d, sense request gs = VDict d.
Proof.
  destruct (sense_cases request gs) as [(sr & -> & _) | [_ ->]]; eexists; reflexivity.
Qed.

(** X4.  Whatever the request and the published state, [sense] returns a
    non-empty dict with a boolean [laser_hit] and a list [radar_objects].
    When [laser_hit] is true, [laser_distance] is a number in
    [[0, max_distance)].  Every radar object is an enemy or a coin, at a
    distance of at most [radar_range] and a bearing in [(-180, 180]];
    there are at most as many as published ships and coins, and fewer
    when the requesting ship is one of the published ships, which is
    never reported to itself. *)
Theorem sense_reading_is_well_formed (request : SensorRequest) (gs : GameState) :
  exists (hit : bool) (objs : list RadarResult),
    truthy (sense request gs) = true
    /\ py_get (sense request gs) "laser_hit" (VBool false) = Ok (VBool hit)
    /\ (hit = true ->
        exists d, py_get (sense request gs) "laser_distance" (VInt 100) = Ok (VFloat d)
                  /\ 0 <= d < max_distance)
    /\ py_get (sense request gs) "radar_objects" (VList []) = Ok (VList (map radar_dict objs))
    /\ Forall well_formed objs
    /\ (List.length objs <= List.length (ships gs) + List.length (coins gs))%nat
    /\ ((0 <= ship_id request < Z.of_nat (List.length (ships gs)))%Z ->
        (List.length objs < List.length (ships gs) + List.length (coins gs))%nat).
Proof.
  destruct (sense_cases request gs) as [(sr & -> & Hd & Hall & Hlen & Hself) | [_ ->]].
  - exists (laser_hit sr), (radar_objects sr).
    split; [reflexivity|]. split; [reflexivity|].
    split.
    { intros Hh. destruct (Hd Hh) as (d & Hsome & Hr). exists d. split; [|exact Hr].
      unfold response_dict, py_get. cbn [lookup String.eqb Ascii.eqb Bool.eqb].
      rewrite Hsome. reflexivity. }
    split; [reflexivity|]. auto.
  - exists false, []. split; [reflexivity|]. split; [reflexivity|].
    split; [discriminate|]. split; [reflexivity|]. split; [constructor|].
    cbn [List.length]. split; [lia|]. intros H. lia.
Qed.

End SensorFacts.

(* ================================================================== *)
(** ** More on the decision policy *)
(* ================================================================== *)

Module PolicyFacts.
Import Py Server Agent AgentFacts PriorityFacts.

(** X5.  [_calculate_turn_rate] never asks for more than 4 degrees per
    call, or 8 in aggressive mode, and never turns away from the target:
    the rate has the sign of the angle.  On a number it returns; on [None]
    it raises a [TypeError]. *)
Theorem turn_rate_is_bounded_and_toward_target (angle : R) (aggressive : bool) :
  Rabs (turn_rate angle aggressive) <= (if aggressive then 8 else 4)
  /\ 0 <= angle * turn_rate angle aggressive
  /\ (0 < angle -> 0 < turn_rate angle aggressive)
  /\ (angle < 0 -> turn_rate angle aggressive < 0)
  /\ _calculate_turn_rate (VFloat angle) aggressive = Ok (turn_rate angle aggressive)
  /\ _calculate_turn_rate VNone aggressive = Raise TypeError.
Proof.
  assert (Hnum : _calculate_turn_rate (VFloat angle) aggressive
                 = Ok (turn_rate angle aggressive)) by reflexivity.
  assert (Hnone : _calculate_turn_rate VNone aggressive = Raise TypeError) by reflexivity.
  revert Hnum Hnone.
  generalize (_calculate_turn_rate (VFloat angle) aggressive)
             (_calculate_turn_rate VNone aggressive).
  intros r1 r2 -> ->.
  unfold turn_rate, sign_of.
  assert (Habs : (0 <= angle /\ Rabs angle = angle) \/ (angle < 0 /\ Rabs angle = - angle)).
  { unfold Rabs. destruct (Rcase_abs angle); [right|left]; lra. }
  destruct aggressive; cbn [negb];
    destruct (Rltb (Rabs angle) 20) eqn:E1;
    [apply Rltb_true in E1|apply Rltb_false in E1|apply Rltb_true in E1|apply Rltb_false in E1];
    try destruct (Rltb (Rabs angle) 90) eqn:E2;
    try destruct (Rltb 0 angle) eqn:E3;
    try (apply Rltb_true in E3); try (apply Rltb_false in E3);
    (repeat split; try reflexivity; try (intros; nra);
     try (apply Rabs_le; destruct Habs as [[? ?]|[? ?]]; nra);
     try (destruct Habs as [[? ?]|[? ?]]; nra)).
Qed.

(** *** The stuck detector needs four positions *)

(** Each sample adds at most one to the counter, and the first sample of
    all adds nothing. *)
Lemma feed_count (samples : list ((R * R) * Env)) :
  forall self,
    sound self ->
    let self' := feed samples self in
    (stuck_count (stuck_detection self')
     <= stuck_count (stuck_detection self)
        + Z.of_nat (List.length samples)
        - match position (stuck_detection self), samples with
          | None, _ :: _ => 1
          | _, _ => 0
          end)%Z.
Proof.
  induction samples as [|[q env] rest IH]; intros self Hsound.
  - cbn. destruct (position (stuck_detection self)); lia.
  - cbn [feed]. destruct Hsound as (Hpos & Hnn & Hflag).
    destruct Hpos as [Hpos | (p & Hp)].
    + rewrite (update_first_sample q env self Hpos). cbn [snd].
      set (self1 := set_stuck_detection self _).
      assert (Hs1 : sound self1).
      { subst self1. split; [right; exists q; reflexivity|].
        cbn. split; [exact Hnn|exact Hflag]. }
      specialize (IH self1 Hs1). cbv zeta in IH. rewrite Hpos.
      change (position (stuck_detection self1))
        with (Some (VFloat (fst q), VFloat (snd q))) in IH.
      change (stuck_count (stuck_detection self1))
        with (stuck_count (stuck_detection self)) in IH.
      cbn [List.length]. cbv zeta. lia.
    + rewrite (update_next_sample p q env self Hp). cbn [snd].
      set (self1 := set_stuck_detection self _).
      assert (Hs1 : sound self1).
      { pose proof (update_sound q env self
                      (conj (or_intror (ex_intro _ p Hp)) (conj Hnn Hflag))) as H.
        cbv zeta in H. rewrite (update_next_sample p q env self Hp) in H. cbn [snd] in H.
        exact (proj1 H). }
      specialize (IH self1 Hs1). cbv zeta in IH.
      unfold tracks in Hp. rewrite Hp.
      change (position (stuck_detection self1))
        with (Some (VFloat (fst q), VFloat (snd q))) in IH.
      assert (Hc : (stuck_count (stuck_detection self1)
                    <= stuck_count (stuck_detection self) + 1)%Z).
      { subst self1. cbn [stuck_detection set_stuck_detection stuck_count].
        destruct (Rltb _ 5); lia. }
      cbn [List.length]. cbv zeta. lia.
Qed.

(** X6.  An agent fresh from [__init__] is not flagged as stuck by its
    first three position samples, however close together they are: the
    first sample is only stored, so the counter can reach 3 with the
    fourth at the earliest. *)
Theorem flag_needs_four_samples (ship_index : Z) (t : Birth)
    (samples : list ((R * R) * Env)) :
  (List.length samples <= 3)%nat ->
  is_stuck (stuck_detection (feed samples (init ship_index t))) = false.
Proof.
  intros Hlen.
  pose proof (feed_sound samples (init ship_index t) (init_sound ship_index t))
    as (_ & _ & Hflag).
  pose proof (feed_count samples (init ship_index t) (init_sound ship_index t)) as Hcount.
  cbv zeta in Hcount. cbn [init stuck_detection position stuck_count] in Hcount.
  destruct (is_stuck _) eqn:E; [|reflexivity].
  specialize (Hflag eq_refl). destruct samples; cbn [List.length] in *; lia.
Qed.

Lemma flag_needs_four_samples_witness :
  is_stuck (stuck_detection
              (feed [((0, 0), mkEnv 0 0 0 0 0 1 0 0 0 0 0);
                     ((0, 0), mkEnv 0 0 0 0 0 1 0 0 0 0 0);
                     ((0, 0), mkEnv 0 0 0 0 0 1 0 0 0 0 0)]
                 (init 0 (mkBirth 0 0 0)))) = false.
Proof.
  apply flag_needs_four_samples. cbn [List.length]. lia.
Defined.

(** *** The agent's rectangle helpers against the server's *)

Lemma first_crossing_agrees (x1 y1 x2 y2 : R) (l : list Server.Edge) :
  first_crossing x1 y1 x2 y2
    (map (fun e => let '(x3, y3, x4, y4) := e in ((x3, y3), (x4, y4))) l)
  = match first_edge_hit x1 y1 x2 y2 l with
    | Some p => p
    | None => (x2, y2)
    end.
Proof.
  induction l as [|[[[x3 y3] x4] y4] rest IH]; [reflexivity|].
  cbn [map first_crossing first_edge_hit].
  unfold line_intersects_line, get_intersection_point.
  set (den := (y4 - y3) * (x2 - x1) - (x4 - x3) * (y2 - y1)).
  replace ((x1 - x2) * (y3 - y4) - (y1 - y2) * (x3 - x4)) with den by (subst den; ring).
  destruct (Reqb den 0) eqn:E; [exact IH|].
  apply Reqb_false in E.
  replace (((x1 - x3) * (y3 - y4) - (y1 - y3) * (x3 - x4)) / den)
    with (((x4 - x3) * (y1 - y3) - (y4 - y3) * (x1 - x3)) / den)
    by (field; exact E).
  replace (- ((x1 - x2) * (y1 - y3) - (y1 - y2) * (x1 - x3)) / den)
    with (((x2 - x1) * (y1 - y3) - (y2 - y1) * (x1 - x3)) / den)
    by (field; exact E).
  destruct (_ && _); [reflexivity|exact IH].
Qed.

Lemma same_point_as_server (x1 y1 x2 y2 : R) (rect : Agent.Rect) :
  _get_intersection_point x1 y1 x2 y2 rect
  = match line_intersects_rect x1 y1 x2 y2
            (mkWall (rect_x rect) (rect_y rect) (rect_width rect) (rect_height rect)) with
    | Some p => p
    | None => (x2, y2)
    end.
Proof.
  unfold _get_intersection_point, line_intersects_rect.
  rewrite <- first_crossing_agrees. reflexivity.
Qed.

(** X7.  The agent's [_get_intersection_point] and the server's
    [line_intersects_rect] compute the same point: where the server finds
    a point the agent returns that point, and where the server finds none
    the agent returns the end of the segment.  Either way the point lies
    on the segment. *)
Theorem agent_and_server_find_the_same_point (x1 y1 x2 y2 : R) (rect : Agent.Rect) :
  let wall := mkWall (rect_x rect) (rect_y rect) (rect_width rect) (rect_height rect) in
  _get_intersection_point x1 y1 x2 y2 rect
  = match line_intersects_rect x1 y1 x2 y2 wall with
    | Some p => p
    | None => (x2, y2)
    end
  /\ exists t, 0 <= t <= 1
               /\ _get_intersection_point x1 y1 x2 y2 rect
                  = (x1 + t * (x2 - x1), y1 + t * (y2 - y1)).
Proof.
  intros wall. split; [apply same_point_as_server|].
  rewrite same_point_as_server. fold wall.
  destruct (line_intersects_rect x1 y1 x2 y2 wall) as [p|] eqn:E.
  - destruct (GeometryFacts.line_intersects_rect_point _ _ _ _ _ _ E)
      as (ua & px & py & Hua & Hpx & Hpy & _).
    apply GeometryFacts.line_intersects_rect_point in E as Hp.
    unfold line_intersects_rect in E.
    assert (Hon : forall edges, first_edge_hit x1 y1 x2 y2 edges = Some p ->
              exists t, 0 <= t <= 1 /\ p = (x1 + t * (x2 - x1), y1 + t * (y2 - y1))).
    { induction edges as [|[[[x3 y3] x4] y4] rest IH]; [discriminate|].
      cbn [first_edge_hit].
      destruct (line_intersects_line x1 y1 x2 y2 x3 y3 x4 y4) eqn:L; [|exact IH].
      destruct (GeometryFacts.line_intersects_line_point _ _ _ _ _ _ _ _ L)
        as (t & ub & Ht & _ & Hget & _).
      rewrite Hget. intros Hsome. inversion Hsome. exists t. split; [exact Ht|reflexivity]. }
    exact (Hon _ E).
  - exists 1. split; [lra|]. f_equal; ring.
Qed.

Lemma xorb_ccw (a b : bool) (n m : R) :
  (a = true <-> 0 < n) -> (b = true <-> 0 < m) ->
  xorb a b = true -> (0 < n /\ m <= 0) \/ (n <= 0 /\ 0 < m).
Proof.
  intros Ha Hb Hx. destruct a, b; try discriminate Hx.
  - left. split; [now apply Ha|].
    destruct (Rle_dec m 0); [assumption|].
    assert (E : false = true) by (apply Hb; lra). discriminate E.
  - right. split; [|now apply Hb].
    destruct (Rle_dec n 0); [assumption|].
    assert (E : false = true) by (apply Ha; lra). discriminate E.
Qed.

(** Two segments the agent's orientation test reports as crossing pass
    the server's parametric test too. *)
Lemma agent_crossing_is_a_server_crossing (x1 y1 x2 y2 x3 y3 x4 y4 : R) :
  _line_intersects_line x1 y1 x2 y2 x3 y3 x4 y4 = true ->
  line_intersects_line x1 y1 x2 y2 x3 y3 x4 y4 = true.
Proof.
  unfold _line_intersects_line. intros H. apply andb_prop in H as [H1 H2].
  set (na := (x4 - x3) * (y1 - y3) - (y4 - y3) * (x1 - x3)).
  set (nb := (x4 - x3) * (y2 - y3) - (y4 - y3) * (x2 - x3)).
  set (nc := (x2 - x1) * (y1 - y3) - (y2 - y1) * (x1 - x3)).
  set (nd := (x2 - x1) * (y1 - y4) - (y2 - y1) * (x1 - x4)).
  assert (Ha : ccw (x1, y1) (x3, y3) (x4, y4) = true <-> 0 < na).
  { rewrite GeometryFacts.ccw_true. cbn [fst snd]. subst na. split; intros; nra. }
  assert (Hb : ccw (x2, y2) (x3, y3) (x4, y4) = true <-> 0 < nb).
  { rewrite GeometryFacts.ccw_true. cbn [fst snd]. subst nb. split; intros; nra. }
  assert (Hc : ccw (x1, y1) (x2, y2) (x3, y3) = true <-> 0 < - nc).
  { rewrite GeometryFacts.ccw_true. cbn [fst snd]. subst nc. split; intros; nra. }
  assert (Hd : ccw (x1, y1) (x2, y2) (x4, y4) = true <-> 0 < - nd).
  { rewrite GeometryFacts.ccw_true. cbn [fst snd]. subst nd. split; intros; nra. }
  destruct (ratio_in_unit na nb (xorb_ccw _ _ _ _ Ha Hb H1)) as [Hden1 Hua].
  destruct (ratio_in_unit (- nc) (- nd) (xorb_ccw _ _ _ _ Hc Hd H2)) as [Hden2 Hub].
  unfold line_intersects_line.
  set (den := (y4 - y3) * (x2 - x1) - (x4 - x3) * (y2 - y1)).
  assert (E1 : na - nb = den) by (subst na nb den; ring).
  assert (E2 : - nc - - nd = - den) by (subst nc nd den; ring).
  rewrite E1 in Hua, Hden1. rewrite E2 in Hub.
  replace (- nc / - den) with (nc / den) in Hub by (field; exact Hden1).
  replace (Reqb den 0) with false by (symmetry; apply Reqb_false; exact Hden1).
  fold na nc.
  destruct Hua as [Hu1 Hu2]. destruct Hub as [Hv1 Hv2].
  replace (Rleb 0 (na / den)) with true by (symmetry; apply Rleb_true; exact Hu1).
  replace (Rleb (na / den) 1) with true by (symmetry; apply Rleb_true; exact Hu2).
  replace (Rleb 0 (nc / den)) with true by (symmetry; apply Rleb_true; exact Hv1).
  replace (Rleb (nc / den) 1) with true by (symmetry; apply Rleb_true; exact Hv2).
  reflexivity.
Qed.

(** X8.  Whenever the agent's [_line_intersects_rect] reports that a
    segment crosses a rectangle, the server's [line_intersects_rect] finds
    a crossing point for the same segment and wall, and
    [_get_intersection_point] returns that point. *)
Theorem agent_crossings_are_server_crossings (x1 y1 x2 y2 : R) (rect : Agent.Rect) :
  _line_intersects_rect x1 y1 x2 y2 rect = true ->
  exists p,
    line_intersects_rect x1 y1 x2 y2
      (mkWall (rect_x rect) (rect_y rect) (rect_width rect) (rect_height rect)) = Some p
    /\ _get_intersection_point x1 y1 x2 y2 rect = p.
Proof.
  intros H. rewrite same_point_as_server.
  set (wall := mkWall _ _ _ _).
  destruct (line_intersects_rect x1 y1 x2 y2 wall) as [p|] eqn:Hnone;
    [exists p; split; reflexivity|exfalso].
  unfold line_intersects_rect in Hnone.
  rewrite GeometryFacts.first_edge_hit_none in Hnone.
  unfold _line_intersects_rect in H.
  apply existsb_exists in H as ([[rx1 ry1] [rx2 ry2]] & Hin & Hcross).
  apply agent_crossing_is_a_server_crossing in Hcross.
  rewrite (Hnone rx1 ry1 rx2 ry2) in Hcross; [discriminate Hcross|].
  unfold rect_lines in Hin. unfold rect_edges, wall.
  cbn [wall_x wall_y wall_width wall_height].
  destruct Hin as [E|[E|[E|[E|[]]]]]; inversion E; subst; cbn; auto.
Qed.

Lemma agent_crossings_are_server_crossings_witness :
  exists p,
    line_intersects_rect 0 5 50 5 (mkWall 20 0 10 10) = Some p
    /\ _get_intersection_point 0 5 50 5 (Agent.mkRect 20 0 10 10) = p.
Proof.
  apply (agent_crossings_are_server_crossings 0 5 50 5 (Agent.mkRect 20 0 10 10)).
  unfold _line_intersects_rect. apply existsb_exists.
  exists ((20 + 10, 0), (20 + 10, 0 + 10)). split; [right; left; reflexivity|].
  unfold _line_intersects_line.
  replace (ccw (0, 5) (20 + 10, 0) (20 + 10, 0 + 10)) with true
    by (symmetry; apply GeometryFacts.ccw_true; cbn [fst snd]; lra).
  replace (ccw (50, 5) (20 + 10, 0) (20 + 10, 0 + 10)) with false
    by (symmetry; apply GeometryFacts.ccw_false; cbn [fst snd]; lra).
  replace (ccw (0, 5) (50, 5) (20 + 10, 0)) with false
    by (symmetry; apply GeometryFacts.ccw_false; cbn [fst snd]; lra).
  replace (ccw (0, 5) (50, 5) (20 + 10, 0 + 10)) with true
    by (symmetry; apply GeometryFacts.ccw_true; cbn [fst snd]; lra).
  reflexivity.
Defined.

(** *** What a call leaves untouched *)

Section Frame.

Context {X : Type} (f : DummyAgent -> X).
Hypothesis f_stuck : forall self sd, f (set_stuck_detection self sd) = f self.
Hypothesis f_memory : forall self tm, f (set_target_memory self tm) = f self.
Hypothesis f_exploration : forall self r t, f (set_exploration self r t) = f self.

Lemma frame_ret {A : Type} (a : A) : keeps f (ret a).
Proof. intros self; reflexivity. Qed.

Lemma frame_lift {A : Type} (r : Result A) : keeps f (lift r).
Proof. intros self; reflexivity. Qed.

Lemma frame_bind {A B : Type} (c : M A) (k : A -> M B) :
  keeps f c -> (forall a, keeps f (k a)) -> keeps f (bind c k).
Proof.
  intros Hc Hk self. rewrite bind_run. specialize (Hc self).
  destruct (c self) as [[a|e] self1]; cbn [snd] in *.
  - rewrite Hk. exact Hc.
  - exact Hc.
Qed.

Lemma frame_bind_get {B : Type} (k : DummyAgent -> M B) :
  (forall self, f (snd (k self self)) = f self) -> keeps f (bind get k).
Proof. intros Hk self. rewrite bind_get. apply Hk. Qed.

Lemma frame_bind_get_any {B : Type} (k : DummyAgent -> M B) :
  (forall self0, keeps f (k self0)) -> keeps f (bind get k).
Proof. intros Hk self. rewrite bind_get. apply Hk. Qed.

Lemma frame_put_then {B : Type} (self0 self1 : DummyAgent) (k : M B) :
  f self1 = f self0 -> keeps f k ->
  f (snd ((put self1 ;;; k) self0)) = f self0.
Proof. intros H1 Hk. rewrite bind_put, Hk. exact H1. Qed.

Lemma frame_seek_targets (sensor_data : PyVal) (env : Env) :
  keeps f (seek_targets sensor_data env).
Proof.
  unfold seek_targets.
  apply frame_bind; [apply frame_lift|intros radar].
  apply frame_bind; [apply frame_lift|intros objs].
  apply frame_bind; [apply frame_lift|intros [enemies coins]].
  destruct enemies as [|e es]; [destruct coins as [|c cs]|].
  - apply frame_bind_get; intros self.
    rewrite bind_run. unfold lift at 1.
    destruct (py_getitem (target_memory self) (VStr "type")) as [kind|]; [|reflexivity].
    rewrite bind_run. unfold lift at 1.
    destruct (if truthy kind then _ else _) as [[|]|]; [| |reflexivity].
    + apply frame_bind; [apply frame_lift|intros angle].
      apply frame_bind; [apply frame_lift|intros turn]. apply frame_ret.
    + destruct (Rltb _ _).
      * apply frame_put_then; [apply f_exploration|].
        apply frame_bind_get; intros self1. reflexivity.
      * reflexivity.
  - apply frame_bind; [apply frame_lift|intros sorted].
    apply frame_bind; [apply frame_lift|intros nearest].
    apply frame_bind; [apply frame_lift|intros distance].
    apply frame_bind; [apply frame_lift|intros angle].
    apply frame_bind_get; intros self.
    apply frame_put_then; [apply f_memory|apply frame_lift].
  - apply frame_bind; [apply frame_lift|intros sorted].
    apply frame_bind; [apply frame_lift|intros nearest].
    apply frame_bind; [apply frame_lift|intros distance].
    apply frame_bind; [apply frame_lift|intros angle].
    apply frame_bind_get; intros self.
    apply frame_put_then; [apply f_memory|apply frame_lift].
Qed.

Lemma frame_avoid_walls_or_seek (sensor_data : PyVal) (env : Env) :
  keeps f (avoid_walls_or_seek sensor_data env).
Proof.
  unfold avoid_walls_or_seek.
  apply frame_bind_get_any; intros self0.
  apply frame_bind; [apply frame_lift|intros laser_hit].
  apply frame_bind; [apply frame_lift|intros [command|]]; [apply frame_ret|].
  apply frame_bind; [apply frame_lift|intros laser_hit2].
  apply frame_bind; [apply frame_lift|intros [|]]; [apply frame_ret|].
  apply frame_seek_targets.
Qed.

Lemma frame_escape : keeps f escape.
Proof.
  unfold escape. apply frame_bind_get; intros self.
  apply frame_put_then; [apply f_stuck|].
  destruct (_ =? 0)%Z; apply frame_ret.
Qed.

Lemma frame_update (sensor_data : PyVal) (env : Env) :
  keeps f (_update_stuck_detection sensor_data env).
Proof.
  unfold _update_stuck_detection.
  apply frame_bind; [apply frame_lift|intros current_pos].
  apply frame_bind_get; intros self.
  destruct (position (stuck_detection self)) as [prev|] eqn:Hp;
    destruct current_pos as [[cx cy]|].
  - rewrite bind_run.
    destruct ((prev0 <- lift (Ok prev) ;; _) self) as [[sd1|e] self1] eqn:E.
    + assert (self1 = self).
      { revert E. rewrite bind_lift_ok, bind_run. unfold lift at 1.
        destruct (py_sub cx (fst prev)); [|intros E; now inversion E].
        rewrite bind_run. unfold lift at 1.
        destruct (py_sub cy (snd prev)); [|intros E; now inversion E].
        destruct (Rltb _ 5); intros E; now inversion E. }
      subst self1. cbn [snd put]. apply f_stuck.
    + assert (self1 = self).
      { revert E. rewrite bind_lift_ok, bind_run. unfold lift at 1.
        destruct (py_sub cx (fst prev)); [|intros E; now inversion E].
        rewrite bind_run. unfold lift at 1.
        destruct (py_sub cy (snd prev)); [|intros E; now inversion E].
        destruct (Rltb _ 5); intros E; now inversion E. }
      subst self1. reflexivity.
  - rewrite bind_ret. cbn [snd put]. apply f_stuck.
  - cbn [snd put]. apply f_stuck.
  - rewrite bind_ret. cbn [snd put]. apply f_stuck.
Qed.

Lemma frame_decide_from_sensors (sensor_data : PyVal) (env : Env) :
  keeps f (decide_from_sensors sensor_data env).
Proof.
  unfold decide_from_sensors.
  destruct (negb (truthy sensor_data)); [apply frame_ret|].
  apply frame_bind_get_any; intros self0.
  apply frame_bind.
  - destruct (Rltb _ _); [apply frame_update|apply frame_ret].
  - intros _. apply frame_bind_get_any; intros self1.
    destruct (is_stuck _); [apply frame_escape|apply frame_avoid_walls_or_seek].
Qed.

Lemma frame_run_calls (calls : list (PyVal * Env)) :
  forall self, f (run_calls calls self) = f self.
Proof.
  induction calls as [|[sensor_data env] rest IH]; intros self; [reflexivity|].
  cbn [run_calls]. rewrite IH. apply frame_decide_from_sensors.
Qed.

End Frame.

(** *** The branches of the policy on a typed reading *)

Lemma set_stuck_detection_same (self : DummyAgent) :
  set_stuck_detection self (stuck_detection self) = self.
Proof. destruct self; reflexivity. Qed.

(** On a non-empty dict the stuck detector only rolls its timers, and the
    call continues with the escape or with the wall and target rules. *)
Lemma decide_on_dict (d : list (string * PyVal)) (env : Env) (self : DummyAgent) :
  truthy (VDict d) = true ->
  exists sd1,
    is_stuck sd1 = is_stuck (stuck_detection self)
    /\ stuck_count sd1 = stuck_count (stuck_detection self)
    /\ escape_direction sd1 = escape_direction (stuck_detection self)
    /\ decide_from_sensors (VDict d) env self
       = (if is_stuck (stuck_detection self) then escape
          else avoid_walls_or_seek (VDict d) env) (set_stuck_detection self sd1).
Proof.
  intros Ht. unfold decide_from_sensors. rewrite Ht. cbn [negb]. rewrite bind_get.
  destruct (Rltb 1.0 (now env - check_time (stuck_detection self))).
  - rewrite bind_run, update_on_dict. cbv zeta. rewrite bind_get.
    eexists. split; [|split; [|split; [|reflexivity]]]; reflexivity.
  - rewrite bind_ret, bind_get. exists (stuck_detection self).
    rewrite set_stuck_detection_same. repeat split.
Qed.

Lemma decide_on_reading (sr : SensorResponse) (env : Env) (self : DummyAgent) :
  exists sd1,
    is_stuck sd1 = is_stuck (stuck_detection self)
    /\ stuck_count sd1 = stuck_count (stuck_detection self)
    /\ escape_direction sd1 = escape_direction (stuck_detection self)
    /\ decide_from_sensors (response_dict sr) env self
       = (if is_stuck (stuck_detection self) then escape
          else avoid_walls_or_seek (response_dict sr) env) (set_stuck_detection self sd1).
Proof. exact (decide_on_dict _ env self (response_dict_truthy sr)). Qed.

(** The rule [# Enhanced wall detection]. *)
Lemma wall_rule (sr : SensorResponse) (env : Env) (self : DummyAgent) (d : R) :
  laser_hit sr = true -> laser_distance sr = Some d -> d < 50 ->
  avoid_walls_or_seek (response_dict sr) env self
  = (Ok (mkCommand
           ((if Rltb d 20 then 15 else 8)
            * (if Rleb 0 (rotate (last_actions self)) then 1 else -1))
           (if Rltb d 20 then 0 else 0.1) false),
     self).
Proof.
  intros Hhit Hd Hnear. unfold avoid_walls_or_seek.
  rewrite bind_get, !response_laser_hit, bind_lift_ok. cbn [truthy]. rewrite Hhit.
  rewrite !response_laser_distance, Hd. cbn [bindR as_num].
  replace (Rltb d 50) with true by (symmetry; apply Rltb_true; lra).
  rewrite bind_lift_ok. reflexivity.
Qed.

Lemma partition_no_enemy (l : list RadarResult) :
  (forall o, In o l -> kind o <> "enemy"%string) ->
  filter is_enemy l = []
  /\ filter (fun o => negb (is_enemy o) && is_coin o) l = filter is_coin l.
Proof.
  intros H. induction l as [|o l IH]; [split; reflexivity|].
  destruct IH as [IH1 IH2]; [intros o' Ho'; apply H; now right|].
  assert (Ho : is_enemy o = false).
  { unfold is_enemy. apply String.eqb_neq. apply H. now left. }
  cbn [filter]. rewrite Ho, IH1, IH2. cbn [negb andb]. split; reflexivity.
Qed.

Lemma collect_coin_float (a : R) :
  collect_coin (VFloat a)
  = Ok (mkCommand (turn_rate a false) (if Rltb (Rabs a) 30 then 1.0 else 0.5) false).
Proof. reflexivity. Qed.

(** The branch [elif coins:]. *)
Lemma seek_targets_coin (sr : SensorResponse) (env : Env) (self : DummyAgent) :
  (forall o, In o (radar_objects sr) -> kind o <> "enemy"%string) ->
  (exists c, In c (radar_objects sr) /\ kind c = "coin"%string) ->
  exists c,
    In c (radar_objects sr) /\ kind c = "coin"%string
    /\ (forall c', In c' (radar_objects sr) -> kind c' = "coin"%string ->
                   distance c <= distance c')
    /\ seek_targets (response_dict sr) env self
       = (Ok (mkCommand (turn_rate (bearing c) false)
                (if Rltb (Rabs (bearing c)) 30 then 1.0 else 0.5) false),
          set_target_memory self
            (memory_of "coin" (VFloat (distance c)) (VFloat (bearing c)) (now env))).
Proof.
  intros Hno (c0 & Hin0 & Hk0).
  destruct (partition_no_enemy _ Hno) as [Hes Hcs].
  assert (Hc0 : In c0 (filter is_coin (radar_objects sr))).
  { apply filter_In. split; [exact Hin0|]. unfold is_coin. now rewrite Hk0. }
  destruct (sort_by_typed (filter is_coin (radar_objects sr)))
    as (sorted & Hsort & Hsorted & Hmem).
  destruct sorted as [|c rest]; [apply Hmem in Hc0; contradiction|].
  assert (Hc : In c (filter is_coin (radar_objects sr))) by (apply Hmem; now left).
  apply filter_In in Hc as [Hin Hk]. apply String.eqb_eq in Hk.
  exists c. split; [exact Hin|]. split; [exact Hk|]. split.
  - intros c' Hin' Hk'.
    assert (Hc' : In c' (c :: rest)).
    { apply Hmem, filter_In. split; [exact Hin'|]. unfold is_coin. now rewrite Hk'. }
    apply StronglySorted_inv in Hsorted as [_ Hall].
    destruct Hc' as [<-|Hc']; [lra|].
    rewrite Forall_forall in Hall. now apply Hall.
  - unfold seek_targets.
    rewrite response_radar, bind_lift_ok. cbn [py_iter]. rewrite bind_lift_ok.
    rewrite partition_radar_typed, bind_lift_ok. cbn [app].
    rewrite Hes, Hcs. cbn [map].
    destruct (filter is_coin (radar_objects sr)) as [|c1 cs] eqn:Hcoins;
      [contradiction|].
    cbn [map] in Hsort |- *.
    rewrite Hsort, bind_lift_ok. cbn [map]. rewrite bind_lift_ok.
    rewrite radar_dict_distance, bind_lift_ok, radar_dict_angle, bind_lift_ok.
    rewrite bind_get, bind_put. unfold lift. rewrite collect_coin_float. reflexivity.
Qed.

Lemma explore_tail (env : Env) (self : DummyAgent) :
  ((if Rltb 3.0 (now env - last_direction_change self)
    then put (set_exploration self (uniform_heading env) (now env))
    else ret tt) ;;;
   self1 <- get ;; ret (mkCommand (current_rotation self1) 0.5 false)) self
  = explore_result env self.
Proof.
  unfold explore_result. destruct (Rltb 3.0 _).
  - rewrite bind_put, bind_get. reflexivity.
  - rewrite bind_ret, bind_get. reflexivity.
Qed.

(** With nothing on the radar and the memory of [__init__], the agent
    explores. *)
Lemma seek_targets_quiet_fresh (v : PyVal) (env : Env) (self : DummyAgent) :
  py_get v "radar_objects" (VList []) = Ok (VList []) ->
  target_memory self
  = VDict [("type", VNone); ("position", VNone); ("last_seen", VInt 0)]%string ->
  seek_targets v env self = explore_result env self.
Proof.
  intros Hradar Hmem. unfold seek_targets.
  rewrite Hradar, bind_lift_ok. cbn [py_iter]. rewrite bind_lift_ok.
  cbn [partition_radar]. rewrite bind_lift_ok, bind_get, Hmem.
  change (py_getitem (VDict [("type", VNone); ("position", VNone); ("last_seen", VInt 0)]%string)
            (VStr "type")) with (@Ok PyVal VNone).
  rewrite bind_lift_ok. cbn [truthy]. rewrite bind_lift_ok.
  apply explore_tail.
Qed.

(** With nothing on the radar and a stored target, the agent follows the
    stored angle while the entry is less than 2 seconds old. *)
Lemma seek_targets_quiet_memory (v : PyVal) (env : Env) (self : DummyAgent)
    (kind : string) (d a t : R) :
  py_get v "radar_objects" (VList []) = Ok (VList []) ->
  target_memory self = memory_of kind (VFloat d) (VFloat a) t ->
  seek_targets v env self
  = if negb (String.eqb kind EmptyString) && Rltb (now env - t) 2.0
    then (Ok (mkCommand (turn_rate a false) 0.7 false), self)
    else explore_result env self.
Proof.
  intros Hradar Hmem. unfold seek_targets.
  rewrite Hradar, bind_lift_ok. cbn [py_iter]. rewrite bind_lift_ok.
  cbn [partition_radar]. rewrite bind_lift_ok, bind_get, Hmem.
  change (py_getitem (memory_of kind (VFloat d) (VFloat a) t) (VStr "type"))
    with (@Ok PyVal (VStr kind)).
  rewrite bind_lift_ok. cbn [truthy].
  change (py_getitem (memory_of kind (VFloat d) (VFloat a) t) (VStr "last_seen"))
    with (@Ok PyVal (VFloat t)).
  change (py_getitem (memory_of kind (VFloat d) (VFloat a) t) (VStr "angle"))
    with (@Ok PyVal (VFloat a)).
  destruct (negb (String.eqb kind EmptyString)).
  - cbn [bindR as_num andb]. rewrite bind_lift_ok.
    destruct (Rltb (now env - t) 2.0).
    + rewrite bind_lift_ok. unfold _calculate_turn_rate. cbn [as_num bindR].
      rewrite bind_lift_ok. reflexivity.
    + apply explore_tail.
  - cbn [andb]. rewrite bind_lift_ok. apply explore_tail.
Qed.

(** X9.  No call of [decide_from_sensors] ever assigns [last_actions]: after
    any sequence of calls, returning or raising, it is still the command
    [__init__] stored.  Wall avoidance therefore always turns the same
    way: on a reading with a laser hit nearer than 50, an agent that is
    not stuck returns a positive rotation, 15 degrees with no thrust when
    the hit is nearer than 20 and 8 degrees with thrust 0.1 otherwise, and
    does not shoot. *)
Theorem wall_avoidance_turns_one_way (ship_index : Z) (t : Birth)
    (calls : list (PyVal * Env)) (sr : SensorResponse) (env : Env) (d : R) :
  let self := run_calls calls (init ship_index t) in
  is_stuck (stuck_detection self) = false ->
  laser_hit sr = true -> laser_distance sr = Some d -> d < 50 ->
  last_actions self = mkCommand 0 0 false
  /\ exists self',
       decide_from_sensors (response_dict sr) env self
       = (Ok (mkCommand (if Rltb d 20 then 15 else 8) (if Rltb d 20 then 0 else 0.1) false),
          self').
Proof.
  intros self Hstuck Hhit Hd Hnear.
  assert (Hlast : last_actions self = mkCommand 0 0 false).
  { subst self. rewrite (frame_run_calls last_actions); [reflexivity| | |]; reflexivity. }
  split; [exact Hlast|].
  destruct (decide_on_reading sr env self) as (sd1 & _ & _ & _ & Hdec).
  rewrite Hstuck in Hdec.
  rewrite (wall_rule sr env _ d Hhit Hd Hnear) in Hdec.
  eexists. rewrite Hdec.
  change (last_actions (set_stuck_detection self sd1)) with (last_actions self).
  rewrite Hlast. cbn [rotate].
  replace (Rleb 0 0) with true by (symmetry; apply Rleb_true; lra).
  rewrite Rmult_1_r. reflexivity.
Qed.

Lemma wall_avoidance_turns_one_way_witness :
  exists self',
    decide_from_sensors (response_dict (mkResponse true (Some 10) []))
      (mkEnv 0 0 0 0 0 1 0 0 0 0 0) (run_calls [] (init 0 (mkBirth 0 0 0)))
    = (Ok (mkCommand (if Rltb 10 20 then 15 else 8) (if Rltb 10 20 then 0 else 0.1) false),
       self').
Proof.
  apply (wall_avoidance_turns_one_way 0 (mkBirth 0 0 0) []
           (mkResponse true (Some 10) []) (mkEnv 0 0 0 0 0 1 0 0 0 0 0) 10);
    try reflexivity.
  lra.
Defined.

(** X10.  On a reading in the shape [sense] returns, with no enemy but at
    least one coin on the radar, an agent that is not stuck, and no wall
    rule firing, [decide_from_sensors] steers at a nearest coin with the
    gentle turn rate, at full thrust when the coin is within 30 degrees
    of the heading and at half thrust otherwise, never shoots, and stores
    that coin in the target memory. *)
Theorem coins_are_collected_without_shooting (sr : SensorResponse) (env : Env)
    (self : DummyAgent) :
  is_stuck (stuck_detection self) = false ->
  (laser_hit sr = false \/ exists d, laser_distance sr = Some d /\ 50 <= d) ->
  (forall o, In o (radar_objects sr) -> kind o <> "enemy"%string) ->
  (exists c, In c (radar_objects sr) /\ kind c = "coin"%string) ->
  exists c self',
    In c (radar_objects sr) /\ kind c = "coin"%string
    /\ (forall c', In c' (radar_objects sr) -> kind c' = "coin"%string ->
                   distance c <= distance c')
    /\ decide_from_sensors (response_dict sr) env self
       = (Ok (mkCommand (turn_rate (bearing c) false)
                (if Rltb (Rabs (bearing c)) 30 then 1.0 else 0.5) false),
          self')
    /\ target_memory self'
       = memory_of "coin" (VFloat (distance c)) (VFloat (bearing c)) (now env).
Proof.
  intros Hstuck Hlaser Hno Hcoin.
  destruct (decide_on_reading sr env self) as (sd1 & _ & _ & _ & Hdec).
  rewrite Hstuck in Hdec.
  rewrite (no_wall_rule sr env _ Hlaser) in Hdec.
  destruct (seek_targets_coin sr env (set_stuck_detection self sd1) Hno Hcoin)
    as (c & Hin & Hk & Hmin & Hseek).
  exists c. eexists. split; [exact Hin|]. split; [exact Hk|]. split; [exact Hmin|].
  split; [rewrite Hdec; exact Hseek|reflexivity].
Qed.

Lemma coins_are_collected_without_shooting_witness :
  exists c self',
    In c [mkRadar "coin" 100 45] /\ kind c = "coin"%string
    /\ (forall c', In c' [mkRadar "coin" 100 45] -> kind c' = "coin"%string ->
                   distance c <= distance c')
    /\ decide_from_sensors (response_dict (mkResponse false None [mkRadar "coin" 100 45]))
         (mkEnv 0 0 0 0 0 1 0 0 0 0 0) (init 0 (mkBirth 0 0 0))
       = (Ok (mkCommand (turn_rate (bearing c) false)
                (if Rltb (Rabs (bearing c)) 30 then 1.0 else 0.5) false),
          self')
    /\ target_memory self'
       = memory_of "coin" (VFloat (distance c)) (VFloat (bearing c)) 0.
Proof.
  apply (coins_are_collected_without_shooting
           (mkResponse false None [mkRadar "coin" 100 45])
           (mkEnv 0 0 0 0 0 1 0 0 0 0 0) (init 0 (mkBirth 0 0 0))).
  - reflexivity.
  - left. reflexivity.
  - intros o [<-|[]]. discriminate.
  - exists (mkRadar "coin" 100 45). split; [left|]; reflexivity.
Defined.

(** X11.  With a target in memory, nothing on the radar, no wall rule
    firing and the agent not stuck, [decide_from_sensors] keeps the memory
    as it is and, while the entry is less than 2 seconds old, steers at
    the remembered angle with thrust 0.7; from 2 seconds on it explores:
    thrust 0.5 on the current heading, drawn anew when the last change is
    more than 3 seconds old.  Neither command shoots. *)
Theorem memory_is_followed_for_two_seconds (sr : SensorResponse) (env : Env)
    (self : DummyAgent) (kind : string) (d a t : R) :
  is_stuck (stuck_detection self) = false ->
  (laser_hit sr = false \/ exists d, laser_distance sr = Some d /\ 50 <= d) ->
  radar_objects sr = [] ->
  target_memory self = memory_of kind (VFloat d) (VFloat a) t ->
  kind <> EmptyString ->
  let result := decide_from_sensors (response_dict sr) env self in
  target_memory (snd result) = target_memory self
  /\ (now env - t < 2 -> fst result = Ok (mkCommand (turn_rate a false) 0.7 false))
  /\ (2 <= now env - t ->
      fst result
      = Ok (mkCommand (if Rltb 3 (now env - last_direction_change self)
                       then uniform_heading env else current_rotation self) 0.5 false)).
Proof.
  intros Hstuck Hlaser Hquiet Hmem Hkind result. subst result.
  destruct (decide_on_reading sr env self) as (sd1 & _ & _ & _ & Hdec).
  rewrite Hstuck in Hdec.
  rewrite (no_wall_rule sr env _ Hlaser) in Hdec.
  rewrite (seek_targets_quiet_memory _ env _ kind d a t) in Hdec;
    [|rewrite response_radar, Hquiet; reflexivity|exact Hmem].
  replace (negb (String.eqb kind EmptyString)) with true in Hdec
    by (symmetry; apply negb_true_iff, String.eqb_neq; exact Hkind).
  cbn [andb] in Hdec. rewrite Hdec. clear Hdec.
  replace 2.0 with 2 by lra.
  destruct (Rltb (now env - t) 2) eqn:E;
    [apply Rltb_true in E|apply Rltb_false in E].
  - cbn [fst snd]. split; [reflexivity|]. split; [reflexivity|intros; lra].
  - unfold explore_result. cbv zeta.
    change (last_direction_change (set_stuck_detection self sd1))
      with (last_direction_change self).
    replace 3.0 with 3 by lra.
    destruct (Rltb 3 _); cbn [fst snd]; (split; [reflexivity|]);
      (split; [intros; lra|intros _; reflexivity]).
Qed.

Lemma memory_is_followed_for_two_seconds_witness :
  let self := set_target_memory (init 0 (mkBirth 0 0 0))
                (memory_of "enemy" (VFloat 40) (VFloat 10) 0) in
  let result := decide_from_sensors (response_dict (mkResponse false None []))
                  (mkEnv 1 1 0 0 0 1 0 0 0 0 0) self in
  fst result = Ok (mkCommand (turn_rate 10 false) 0.7 false).
Proof.
  cbv zeta.
  apply (memory_is_followed_for_two_seconds (mkResponse false None [])
           (mkEnv 1 1 0 0 0 1 0 0 0 0 0)
           (set_target_memory (init 0 (mkBirth 0 0 0))
              (memory_of "enemy" (VFloat 40) (VFloat 10) 0))
           "enemy" 40 10 0).
  - reflexivity.
  - left. reflexivity.
  - reflexivity.
  - reflexivity.
  - discriminate.
  - cbn [now]. lra.
Defined.

(** *** What every returned command satisfies *)

Section Ensures.

Context {B : Type} (Q : B -> DummyAgent -> Prop).

Lemma ensures_bind {A : Type} (c : M A) (k : A -> M B) (self : DummyAgent) :
  (forall a s', c self = (Ok a, s') -> ensures (k a) s' Q) ->
  ensures (bind c k) self Q.
Proof.
  intros H. unfold ensures. rewrite bind_run.
  destruct (c self) as [[a|e] s']; [|exact I]. exact (H a s' eq_refl).
Qed.

Lemma ensures_lift_bind {A : Type} (r : Result A) (k : A -> M B) (self : DummyAgent) :
  (forall a, r = Ok a -> ensures (k a) self Q) ->
  ensures (bind (lift r) k) self Q.
Proof.
  intros H. apply ensures_bind. intros a s' E. unfold lift in E.
  inversion E; subst. apply H. reflexivity.
Qed.

Lemma ensures_get_bind (k : DummyAgent -> M B) (self : DummyAgent) :
  ensures (k self) self Q -> ensures (bind get k) self Q.
Proof. intros H. unfold ensures. rewrite bind_get. exact H. Qed.

Lemma ensures_put_bind (k : unit -> M B) (self self' : DummyAgent) :
  ensures (k tt) self' Q -> ensures (bind (put self') k) self Q.
Proof. intros H. unfold ensures. rewrite bind_put. exact H. Qed.

Lemma ensures_ret (b : B) (self : DummyAgent) : Q b self -> ensures (ret b) self Q.
Proof. intros H. exact H. Qed.

Lemma ensures_lift (r : Result B) (self : DummyAgent) :
  (forall b, r = Ok b -> Q b self) -> ensures (lift r) self Q.
Proof. intros H. unfold ensures, lift. destruct r; [apply H; reflexivity|exact I]. Qed.

End Ensures.

Lemma engage_enemy_limits (distance angle : PyVal) (command : Command) :
  engage_enemy distance angle = Ok command -> -0.5 <= thrust command <= 0.5.
Proof.
  unfold engage_enemy. destruct (as_num distance) as [d|]; [|discriminate].
  cbn [bindR]. destruct (Rltb d 100); [destruct (Rltb d 50)|].
  - destruct (_calculate_turn_rate angle true); [|discriminate]. cbn [bindR].
    destruct (as_num angle); [|discriminate]. cbn [bindR].
    intros E; inversion E; subst; cbn [thrust]. lra.
  - destruct (as_num angle); [|discriminate]. cbn [bindR].
    intros E; inversion E; subst; cbn [thrust]. lra.
  - destruct (_calculate_turn_rate angle false); [|discriminate]. cbn [bindR].
    destruct (as_num angle); [|discriminate]. cbn [bindR].
    intros E; inversion E; subst; cbn [thrust]. destruct (Rltb _ 30); lra.
Qed.

Lemma collect_coin_limits (angle : PyVal) (command : Command) :
  collect_coin angle = Ok command ->
  0.5 <= thrust command <= 1 /\ shoot command = false.
Proof.
  unfold collect_coin.
  destruct (_calculate_turn_rate angle false); [|discriminate]. cbn [bindR].
  destruct (as_num angle); [|discriminate]. cbn [bindR].
  intros E; inversion E; subst; cbn [thrust shoot]. destruct (Rltb _ 30); split; auto; lra.
Qed.

Lemma seek_targets_limits (sensor_data : PyVal) (env : Env) (self : DummyAgent) :
  ensures (seek_targets sensor_data env) self (within_limits env).
Proof.
  unfold seek_targets.
  apply ensures_lift_bind; intros radar _.
  apply ensures_lift_bind; intros objs _.
  apply ensures_lift_bind; intros [enemies coins] _.
  destruct enemies as [|e es]; [destruct coins as [|c cs]|].
  - apply ensures_get_bind.
    apply ensures_lift_bind; intros kind _.
    apply ensures_lift_bind; intros [|] _.
    + apply ensures_lift_bind; intros angle _.
      apply ensures_lift_bind; intros turn _.
      apply ensures_ret. split; [cbn [thrust]; lra|discriminate].
    + apply ensures_bind; intros _ s1 _.
      apply ensures_get_bind. apply ensures_ret. split; [cbn [thrust]; lra|discriminate].
  - apply ensures_lift_bind; intros sorted _.
    apply ensures_lift_bind; intros nearest _.
    apply ensures_lift_bind; intros distance _.
    apply ensures_lift_bind; intros angle _.
    apply ensures_get_bind. apply ensures_put_bind.
    apply ensures_lift. intros command Hc.
    destruct (collect_coin_limits angle command Hc) as [Ht Hs].
    split; [lra|rewrite Hs; discriminate].
  - apply ensures_lift_bind; intros sorted _.
    apply ensures_lift_bind; intros nearest _.
    apply ensures_lift_bind; intros distance _.
    apply ensures_lift_bind; intros angle _.
    apply ensures_get_bind. apply ensures_put_bind.
    apply ensures_lift. intros command Hc.
    pose proof (engage_enemy_limits distance angle command Hc) as Ht.
    split; [lra|]. intros _. exists distance, angle. reflexivity.
Qed.

Lemma avoid_walls_or_seek_limits (sensor_data : PyVal) (env : Env) (self : DummyAgent) :
  ensures (avoid_walls_or_seek sensor_data env) self (within_limits env).
Proof.
  unfold avoid_walls_or_seek.
  apply ensures_get_bind.
  apply ensures_lift_bind; intros laser_hit _.
  apply ensures_lift_bind; intros avoid Havoid.
  destruct avoid as [command|].
  - apply ensures_ret.
    destruct (truthy laser_hit); [|discriminate Havoid].
    destruct (py_get sensor_data "laser_distance" (VInt 100)); [|discriminate Havoid].
    cbn [bindR] in Havoid. destruct (as_num a) as [d|]; [|discriminate Havoid].
    cbn [bindR] in Havoid. destruct (Rltb d 50); [|discriminate Havoid].
    inversion Havoid; subst. split; [|discriminate].
    cbn [thrust]. destruct (Rltb d 20); lra.
  - apply ensures_lift_bind; intros laser_hit2 _.
    apply ensures_lift_bind; intros [|] _.
    + apply ensures_ret. split; [cbn [thrust]; lra|discriminate].
    + apply seek_targets_limits.
Qed.

Lemma escape_limits (env : Env) (self : DummyAgent) :
  ensures escape self (within_limits env).
Proof.
  unfold escape. apply ensures_get_bind. apply ensures_put_bind.
  destruct (_ =? 0)%Z; apply ensures_ret; (split; [cbn [thrust]; lra|discriminate]).
Qed.

(** X12.  Whatever the sensor data (any value that is not empty or
    [None]) and whatever the state of the agent, a command
    [decide_from_sensors] returns has a thrust between -0.8 and 1, and it
    shoots only if this very call found an enemy on the radar and stored
    it in the target memory: the escape, the wall rules, the coin branch,
    the memory branch and the exploration never shoot. *)
Theorem commands_stay_within_limits (sensor_data : PyVal) (env : Env) (self : DummyAgent) :
  truthy sensor_data = true ->
  match decide_from_sensors sensor_data env self with
  | (Ok command, self') =>
      -0.8 <= thrust command <= 1
      /\ (shoot command = true ->
          exists distance angle,
            target_memory self' = memory_of "enemy" distance angle (now env))
  | (Raise _, _) => True
  end.
Proof.
  intros Ht.
  change (ensures (decide_from_sensors sensor_data env) self (within_limits env)).
  unfold decide_from_sensors. rewrite Ht. cbn [negb].
  apply ensures_get_bind.
  apply ensures_bind; intros _ s1 _.
  apply ensures_get_bind.
  destruct (is_stuck _); [apply escape_limits|apply avoid_walls_or_seek_limits].
Qed.

Lemma commands_stay_within_limits_witness :
  match decide_from_sensors (response_dict (mkResponse false None [mkRadar "enemy" 40 0]))
          (mkEnv 0 0 0 0 0 1 0 0 0 0 0) (init 0 (mkBirth 0 0 0)) with
  | (Ok command, self') =>
      -0.8 <= thrust command <= 1
      /\ (shoot command = true ->
          exists distance angle, target_memory self' = memory_of "enemy" distance angle 0)
  | (Raise _, _) => True
  end.
Proof.
  apply (commands_stay_within_limits
           (response_dict (mkResponse false None [mkRadar "enemy" 40 0]))
           (mkEnv 0 0 0 0 0 1 0 0 0 0 0) (init 0 (mkBirth 0 0 0))).
  reflexivity.
Defined.

End PolicyFacts.

(* ================================================================== *)
(** ** The server over a run of requests *)
(* ================================================================== *)

Module EndpointFacts.
Import Py Server Agent AgentFacts PriorityFacts SensorFacts PolicyFacts.

(** *** The policy never raises on a reading of [sense] *)

Lemma escape_total (self : DummyAgent) :
  exists command self',
    escape self = (Ok command, self') /\ target_memory self' = target_memory self.
Proof.
  unfold escape. rewrite bind_get, bind_put.
  destruct (_ =? 0)%Z; eexists; eexists; split; reflexivity.
Qed.

Lemma explore_result_total (env : Env) (self : DummyAgent) :
  exists command self',
    explore_result env self = (Ok command, self')
    /\ target_memory self' = target_memory self.
Proof.
  unfold explore_result. destruct (Rltb 3.0 _); eexists; eexists; split; reflexivity.
Qed.

Lemma seek_targets_quiet_total (v : PyVal) (env : Env) (self : DummyAgent) :
  py_get v "radar_objects" (VList []) = Ok (VList []) ->
  remembers self ->
  exists command self',
    seek_targets v env self = (Ok command, self')
    /\ target_memory self' = target_memory self.
Proof.
  intros Hradar [Hfresh | (kind & d & a & t & Hmem)].
  - rewrite (seek_targets_quiet_fresh v env self Hradar Hfresh).
    apply explore_result_total.
  - rewrite (seek_targets_quiet_memory v env self kind d a t Hradar Hmem).
    destruct (negb _ && Rltb _ _).
    + eexists; eexists; split; reflexivity.
    + apply explore_result_total.
Qed.

Lemma no_target_is_empty (l : list RadarResult) :
  Forall well_formed l ->
  (forall o, In o l -> kind o <> "enemy"%string) ->
  (forall o, In o l -> kind o <> "coin"%string) ->
  l = [].
Proof.
  intros Hall He Hc. destruct l as [|o l]; [reflexivity|exfalso].
  apply Forall_inv in Hall. destruct Hall as [[Hk|Hk] _].
  - apply (He o); [now left|exact Hk].
  - apply (Hc o); [now left|exact Hk].
Qed.

Lemma kind_cases (l : list RadarResult) (k : string) :
  (exists o, In o l /\ kind o = k) \/ (forall o, In o l -> kind o <> k).
Proof.
  induction l as [|o l [(o' & Hin & Hk)|IH]].
  - right. intros o [].
  - left. exists o'. split; [now right|exact Hk].
  - destruct (string_dec (kind o) k) as [Hk|Hk].
    + left. exists o. split; [now left|exact Hk].
    + right. intros o' [<-|Hin]; [exact Hk|now apply IH].
Qed.

Lemma seek_targets_total (sr : SensorResponse) (env : Env) (self : DummyAgent) :
  Forall well_formed (radar_objects sr) ->
  remembers self ->
  exists command self',
    seek_targets (response_dict sr) env self = (Ok command, self')
    /\ remembers self'.
Proof.
  intros Hall Hrem.
  destruct (kind_cases (radar_objects sr) "enemy") as [He|He].
  - destruct (seek_targets_enemy sr env self He) as (e & command & _ & _ & _ & _ & Hseek).
    exists command. eexists. split; [exact Hseek|].
    right. exists "enemy"%string, (distance e), (bearing e), (now env). reflexivity.
  - destruct (kind_cases (radar_objects sr) "coin") as [Hc|Hc].
    + destruct (seek_targets_coin sr env self He Hc) as (c & _ & _ & _ & Hseek).
      eexists. eexists. split; [exact Hseek|].
      right. exists "coin"%string, (distance c), (bearing c), (now env). reflexivity.
    + assert (Hnil : radar_objects sr = []) by (apply no_target_is_empty; assumption).
      destruct (seek_targets_quiet_total (response_dict sr) env self) as (c & s' & Hs & Hm).
      { rewrite response_radar, Hnil. reflexivity. }
      { exact Hrem. }
      exists c, s'. split; [exact Hs|]. unfold remembers. rewrite Hm. exact Hrem.
Qed.

Lemma reading_decision_total (sr : SensorResponse) (env : Env) (self : DummyAgent) :
  (laser_hit sr = true -> exists d, laser_distance sr = Some d /\ 0 <= d < max_distance) ->
  Forall well_formed (radar_objects sr) ->
  remembers self ->
  exists command self',
    decide_from_sensors (response_dict sr) env self = (Ok command, self')
    /\ remembers self'.
Proof.
  intros Hlaser Hall Hrem.
  destruct (decide_on_reading sr env self) as (sd1 & _ & _ & _ & Hdec).
  rewrite Hdec. clear Hdec.
  set (self1 := set_stuck_detection self sd1).
  assert (Hrem1 : remembers self1) by exact Hrem.
  destruct (is_stuck (stuck_detection self)).
  - destruct (escape_total self1) as (c & s' & Hs & Hm).
    exists c, s'. split; [exact Hs|]. unfold remembers. rewrite Hm. exact Hrem1.
  - destruct (laser_hit sr) eqn:Hhit.
    + destruct (Hlaser eq_refl) as (d & Hd & Hr). unfold max_distance in Hr.
      rewrite (wall_rule sr env self1 d Hhit Hd) by lra.
      eexists. eexists. split; [reflexivity|exact Hrem1].
    + rewrite (no_wall_rule sr env self1) by (left; exact Hhit).
      apply seek_targets_total; assumption.
Qed.

Lemma fallback_decision_total (env : Env) (self : DummyAgent) :
  remembers self ->
  exists command self',
    decide_from_sensors fallback_response env self = (Ok command, self')
    /\ remembers self'.
Proof.
  intros Hrem.
  destruct (decide_on_dict _ env self (eq_refl : truthy fallback_response = true))
    as (sd1 & _ & _ & _ & Hdec).
  fold fallback_response in Hdec. rewrite Hdec. clear Hdec.
  set (self1 := set_stuck_detection self sd1).
  assert (Hrem1 : remembers self1) by exact Hrem.
  destruct (is_stuck (stuck_detection self)).
  - destruct (escape_total self1) as (c & s' & Hs & Hm).
    exists c, s'. split; [exact Hs|]. unfold remembers. rewrite Hm. exact Hrem1.
  - assert (Hseek : avoid_walls_or_seek fallback_response env self1
                    = seek_targets fallback_response env self1).
    { unfold avoid_walls_or_seek. rewrite bind_get.
      change (py_get fallback_response "laser_hit" (VBool false))
        with (@Ok PyVal (VBool false)).
      rewrite bind_lift_ok. cbn [truthy]. rewrite !bind_lift_ok. reflexivity. }
    rewrite Hseek.
    destruct (seek_targets_quiet_total fallback_response env self1 eq_refl Hrem1)
      as (c & s' & Hs & Hm).
    exists c, s'. split; [exact Hs|]. unfold remembers. rewrite Hm. exact Hrem1.
Qed.

Lemma sensing_decision_total (request : SensorRequest) (gs : GameState) (env : Env)
    (self : DummyAgent) :
  remembers self ->
  exists command self',
    decide_from_sensors (sense request gs) env self = (Ok command, self')
    /\ remembers self'.
Proof.
  intros Hrem.
  destruct (sense_cases request gs) as [(sr & -> & Hd & Hall & _) | [_ ->]].
  - apply reading_decision_total; assumption.
  - apply fallback_decision_total. exact Hrem.
Qed.

Section Runs.

Variable validate_int : PyVal -> Result Z.
Variable validate_float : PyVal -> Result R.

(** X13.  After any sequence of [/update_state] and [/decide/] requests,
    [/game_state] returns the state the last [/update_state] published,
    or what the cache held before when there was none: [/decide/] reads
    the cache and never writes it. *)
Theorem query_returns_last_publication (requests : list Request) (st : ServerState) :
  get_game_state (run validate_int validate_float requests st)
  = last_published requests (cache st).
Proof.
  revert st. induction requests as [|[state|game_data env] rest IH]; intros st.
  - reflexivity.
  - cbn [run handle last_published]. rewrite IH. reflexivity.
  - cbn [run handle last_published]. rewrite IH.
    rewrite CacheFacts.decide_keeps_cache. reflexivity.
Qed.

(** [/decide/] in terms of the shared agent. *)
Lemma decide_runs_the_agent (game_data : PyVal) (env : Env) (st : ServerState) :
  match make_request validate_int validate_float game_data with
  | Ok request =>
      Server.decide validate_int validate_float game_data env st
      = match decide_from_sensors (sense request (cache st)) env (agent st) with
        | (Ok command, self') => (Ok command, mkServer (cache st) self')
        | (Raise _, self') => (Ok neutral, mkServer (cache st) self')
        end
  | Raise _ => Server.decide validate_int validate_float game_data env st = (Ok neutral, st)
  end.
Proof.
  unfold Server.decide, try_except, Server.decide_body.
  rewrite bind_run. unfold lift at 1.
  destruct (make_request validate_int validate_float game_data) as [request|e].
  - rewrite bind_get. unfold on_agent.
    destruct (decide_from_sensors _ env (agent st)) as [[command|e] self']; reflexivity.
  - reflexivity.
Qed.

Lemma handle_keeps_idle (request : Request) (st : ServerState) :
  idle (agent st) -> idle (agent (handle validate_int validate_float request st)).
Proof.
  intros Hidle. destruct request as [state|game_data env]; [exact Hidle|].
  cbn [handle].
  pose proof (decide_runs_the_agent game_data env st) as H.
  destruct (make_request validate_int validate_float game_data) as [request|e].
  - rewrite H. destruct (sense_is_dict request (cache st)) as (d & Hd). rewrite Hd.
    pose proof (decide_dict_idle d env (agent st) Hidle) as [Hi _].
    destruct (decide_from_sensors (VDict d) env (agent st)) as [[command|e] self'];
      exact Hi.
  - rewrite H. exact Hidle.
Qed.

(** X14.  The agent the server shares between requests is never stuck:
    after any sequence of [/update_state] and [/decide/] requests since
    start-up its stuck detector has [is_stuck = False], a counter of 0 and
    no position sample, because the readings [sense] hands it are dicts
    without a position attribute. *)
Theorem server_agent_is_never_stuck (t : Birth) (requests : list Request) :
  let self := agent (run validate_int validate_float requests (startup t)) in
  is_stuck (stuck_detection self) = false
  /\ stuck_count (stuck_detection self) = 0%Z
  /\ position (stuck_detection self) = None.
Proof.
  assert (H : forall st, idle (agent st) ->
                         idle (agent (run validate_int validate_float requests st))).
  { induction requests as [|request rest IH]; intros st Hst; [exact Hst|].
    cbn [run]. apply IH. apply handle_keeps_idle. exact Hst. }
  destruct (H (startup t) (init_idle 0 t)) as (H1 & H2 & _ & H4).
  cbv zeta. auto.
Qed.

Lemma handle_remembers (request : Request) (st : ServerState) :
  remembers (agent st) -> remembers (agent (handle validate_int validate_float request st)).
Proof.
  intros Hrem. destruct request as [state|game_data env]; [exact Hrem|].
  cbn [handle].
  pose proof (decide_runs_the_agent game_data env st) as H.
  destruct (make_request validate_int validate_float game_data) as [request|e].
  - rewrite H.
    destruct (sensing_decision_total request (cache st) env (agent st) Hrem)
      as (c & s' & Hs & Hr).
    rewrite Hs. exact Hr.
  - rewrite H. exact Hrem.
Qed.

Lemma run_remembers (requests : list Request) :
  forall st, remembers (agent st) ->
             remembers (agent (run validate_int validate_float requests st)).
Proof.
  induction requests as [|request rest IH]; intros st Hst; [exact Hst|].
  cbn [run]. apply IH. apply handle_remembers. exact Hst.
Qed.

(** X15.  After any sequence of requests since start-up, the [except]
    branch of [/decide/] is taken exactly when the sensor request cannot
    be built from the payload.  Once the request is built, [sense] and
    [decide_from_sensors] return whatever the cache holds, and the
    endpoint answers with the agent's command; otherwise the body raises
    before the agent is consulted and the endpoint answers with the
    neutral command, leaving the server as it was. *)
Theorem decide_endpoint_fails_only_on_bad_request (t : Birth) (requests : list Request)
    (game_data : PyVal) (env : Env) :
  let st := run validate_int validate_float requests (startup t) in
  match make_request validate_int validate_float game_data with
  | Ok request =>
      exists command self',
        decide_from_sensors (sense request (cache st)) env (agent st) = (Ok command, self')
        /\ Server.decide_body validate_int validate_float game_data env st
           = (Ok command, mkServer (cache st) self')
        /\ Server.decide validate_int validate_float game_data env st
           = (Ok command, mkServer (cache st) self')
  | Raise e =>
      Server.decide_body validate_int validate_float game_data env st = (Raise e, st)
      /\ Server.decide validate_int validate_float game_data env st = (Ok neutral, st)
  end.
Proof.
  intros st.
  assert (Hrem : remembers (agent st)).
  { apply run_remembers. left. reflexivity. }
  pose proof (decide_runs_the_agent game_data env st) as H.
  unfold Server.decide_body. rewrite bind_run. unfold lift at 1.
  destruct (make_request validate_int validate_float game_data) as [request|e].
  - destruct (sensing_decision_total request (cache st) env (agent st) Hrem)
      as (c & s' & Hs & _).
    exists c, s'. split; [exact Hs|].
    rewrite bind_get. unfold on_agent. rewrite H, Hs. split; reflexivity.
  - split; [reflexivity|exact H].
Qed.

End Runs.

End EndpointFacts.

(* ================================================================== *)
(** ** Bodies, bullets and the score *)
(* ================================================================== *)

Module PhysicsFacts.
Import Engine.

(** X16.  [update_position] leaves the body inside the world and within
    its speed limit: both coordinates end in [[0, 2000]], both velocity
    components in [[-max_speed, max_speed]] with [max_speed] 3 for the
    enemy and 8 otherwise; the heading and the hit points are untouched. *)
Theorem update_position_bounds (is_enemy : bool) (s : SpaceObject) :
  let s' := update_position is_enemy s in
  let max_speed := if is_enemy then 3 else 8 in
  0 <= x s' <= WORLD_WIDTH /\ 0 <= y s' <= WORLD_HEIGHT
  /\ Rabs (vx s') <= max_speed /\ Rabs (vy s') <= max_speed
  /\ angle s' = angle s /\ hp s' = hp s.
Proof.
  unfold update_position, WORLD_WIDTH, WORLD_HEIGHT.
  cbn [x y vx vy angle hp with_motion].
  assert (Hm : 0 <= (if negb is_enemy then 8 else 3)) by (destruct is_enemy; simpl; lra).
  assert (Hs : (if negb is_enemy then 8 else 3) = (if is_enemy then 3 else 8))
    by (destruct is_enemy; reflexivity).
  rewrite <- Hs. set (m := if negb is_enemy then 8 else 3) in *.
  repeat split; try (apply clamp_bounds; lra).
  - apply Rabs_le. apply clamp_bounds. lra.
  - apply Rabs_le. apply clamp_bounds. lra.
Qed.

(** X17.  A body at rest inside the world is a fixed point of
    [update_position]: with zero velocity and both coordinates in
    [[0, 2000]], the call changes nothing. *)
Theorem rest_is_fixed_point (is_enemy : bool) (s : SpaceObject) :
  vx s = 0 -> vy s = 0 ->
  0 <= x s <= WORLD_WIDTH -> 0 <= y s <= WORLD_HEIGHT ->
  update_position is_enemy s = s.
Proof.
  intros Hvx Hvy Hx Hy. unfold update_position.
  assert (Hm : 0 <= (if negb is_enemy then 8 else 3)) by (destruct is_enemy; simpl; lra).
  set (m := if negb is_enemy then 8 else 3) in *.
  rewrite Hvx, Hvy.
  replace (0 * 0.99) with 0 by lra.
  rewrite (clamp_inside (- m) m 0) by lra.
  rewrite !Rplus_0_r.
  rewrite (clamp_inside 0 WORLD_WIDTH (x s)) by lra.
  rewrite (clamp_inside 0 WORLD_HEIGHT (y s)) by lra.
  destruct s; unfold with_motion; cbn in *. subst. reflexivity.
Qed.

Lemma rest_is_fixed_point_witness :
  update_position true (new_ship 400 400 0 100) = new_ship 400 400 0 100.
Proof.
  apply rest_is_fixed_point; unfold WORLD_WIDTH, WORLD_HEIGHT; cbn [vx vy x y new_ship]; lra.
Defined.

(** X18.  The two steering commands each change one thing.  [rotate]
    leaves a heading in [[0, 360)] that differs from the old heading plus
    the rotation by a multiple of 360, and touches neither position nor
    velocity.  [thrust] changes the velocity by a vector whose length is
    the absolute value of the amount, and touches neither position nor
    heading nor hit points. *)
Theorem steering_changes_one_thing (amount : R) (s : SpaceObject) :
  (0 <= angle (rotate amount s) < 360
   /\ (exists k : Z, angle (rotate amount s) = angle s + amount - 360 * IZR k)
   /\ x (rotate amount s) = x s /\ y (rotate amount s) = y s
   /\ vx (rotate amount s) = vx s /\ vy (rotate amount s) = vy s)
  /\ ((vx (thrust amount s) - vx s) ^ 2 + (vy (thrust amount s) - vy s) ^ 2 = amount ^ 2
      /\ x (thrust amount s) = x s /\ y (thrust amount s) = y s
      /\ angle (thrust amount s) = angle s /\ hp (thrust amount s) = hp s).
Proof.
  split.
  - unfold rotate. cbn [angle with_angle x y vx vy].
    split; [apply py_mod_range; lra|].
    split; [apply py_mod_congruent|]. repeat split.
  - unfold thrust. cbn [vx vy x y angle hp with_motion].
    repeat split.
    set (r := radians (angle s)).
    pose proof (sin2_cos2 r) as H. unfold Rsqr in H.
    replace ((vx s + cos r * amount - vx s) ^ 2 + (vy s + sin r * amount - vy s) ^ 2)
      with ((sin r * sin r + cos r * cos r) * amount ^ 2) by ring.
    rewrite H. ring.
Qed.

Lemma fold_bounce_clear (ship_rect : Rect) (rects : list Rect) (s : SpaceObject) :
  Forall (fun r => colliderect ship_rect r = false) rects ->
  fold_left (bounce ship_rect) rects s = s.
Proof.
  induction 1 as [|r rest Hr _ IH]; [reflexivity|].
  cbn [fold_left]. unfold bounce at 2. rewrite Hr. exact IH.
Qed.

(** In the world, a wall the ship's square is clear of does not collide
    with the integer rectangle pygame makes of that square. *)
Lemma clear_wall_no_collision (s : SpaceObject) (wall : Rect) :
  rect_in_world wall -> clear_of_wall s wall ->
  colliderect (Rect_of (x s - 10) (y s - 10) 20 20) wall = false.
Proof.
  intros (Hx & Hw & _ & Hy & Hh & _) Hclear.
  unfold colliderect, Rect_of. cbn [rect_x rect_y rect_width rect_height].
  destruct (_ || _ || _ || _)%bool; [reflexivity|].
  destruct Hclear as [H|[H|[H|H]]].
  - assert ((truncate (x s - 10) <= rect_x wall - 20)%Z)
      by (apply truncate_le; rewrite minus_IZR; lra).
    apply andb_false_iff; left. apply andb_false_iff; right. apply Z.ltb_ge. lia.
  - assert ((rect_x wall + rect_width wall <= truncate (x s - 10))%Z)
      by (apply truncate_ge; exact H).
    apply andb_false_iff; left. apply andb_false_iff; left. apply andb_false_iff; left.
    apply Z.ltb_ge. lia.
  - assert ((truncate (y s - 10) <= rect_y wall - 20)%Z)
      by (apply truncate_le; rewrite minus_IZR; lra).
    apply andb_false_iff; right. apply Z.ltb_ge. lia.
  - assert ((rect_y wall + rect_height wall <= truncate (y s - 10))%Z)
      by (apply truncate_ge; exact H).
    apply andb_false_iff; left. apply andb_false_iff; left. apply andb_false_iff; right.
    apply Z.ltb_ge. lia.
Qed.

(** The same for the rectangle of another ship. *)
Lemma clear_ship_no_collision (s other : SpaceObject) :
  clear_of_ship s other ->
  colliderect (Rect_of (x s - 10) (y s - 10) 20 20)
    (Rect_of (x other - 10) (y other - 10) 20 20) = false.
Proof.
  intros Hclear.
  unfold colliderect, Rect_of. cbn [rect_x rect_y rect_width rect_height].
  cbn [Z.eqb orb].
  destruct Hclear as [H|H]; unfold Rabs in H; destruct (Rcase_abs _) in H.
  - assert ((truncate (x other - 10) + 20 <= truncate (x s - 10))%Z)
      by (apply truncate_gap; lra).
    apply andb_false_iff; left. apply andb_false_iff; left. apply andb_false_iff; left.
    apply Z.ltb_ge. lia.
  - assert ((truncate (x s - 10) + 20 <= truncate (x other - 10))%Z)
      by (apply truncate_gap; lra).
    apply andb_false_iff; left. apply andb_false_iff; right. apply Z.ltb_ge. lia.
  - assert ((truncate (y other - 10) + 20 <= truncate (y s - 10))%Z)
      by (apply truncate_gap; lra).
    apply andb_false_iff; left. apply andb_false_iff; left. apply andb_false_iff; right.
    apply Z.ltb_ge. lia.
  - assert ((truncate (y s - 10) + 20 <= truncate (y other - 10))%Z)
      by (apply truncate_gap; lra).
    apply andb_false_iff; right. apply Z.ltb_ge. lia.
Qed.

(** X19.  [check_wall_collision] leaves alone a ship inside the world
    whose 20 by 20 square is clear of every wall, and which every other
    ship is at least 21 units away from along one axis: truncating the
    corners of the squares to integers makes no collision where the
    geometry has none. *)
Theorem free_ship_is_left_alone (walls : list Rect) (others : list SpaceObject)
    (s : SpaceObject) :
  in_world s ->
  Forall (fun wall => rect_in_world wall /\ clear_of_wall s wall) walls ->
  Forall (fun other => in_world other /\ clear_of_ship s other) others ->
  check_wall_collision walls others s = s.
Proof.
  intros _ Hw Ho. unfold check_wall_collision.
  apply fold_bounce_clear. apply Forall_app. split.
  - eapply Forall_impl; [|exact Hw]. cbn. intros wall [Hin Hclear].
    now apply clear_wall_no_collision.
  - apply Forall_map. eapply Forall_impl; [|exact Ho]. cbn. intros other [_ Hclear].
    now apply clear_ship_no_collision.
Qed.

Lemma free_ship_is_left_alone_witness :
  check_wall_collision [mkRect 50 50 1900 20] [new_ship 1000 1000 0 100]
    (new_ship 400 400 0 100)
  = new_ship 400 400 0 100.
Proof.
  apply free_ship_is_left_alone.
  - unfold in_world, WORLD_WIDTH, WORLD_HEIGHT. cbn [x y new_ship]. lra.
  - constructor; [|constructor]. split.
    + unfold rect_in_world. cbn [rect_x rect_y rect_width rect_height]. lia.
    + unfold clear_of_wall. cbn [x y new_ship rect_x rect_y rect_width rect_height].
      right. right. right. rewrite plus_IZR. lra.
  - constructor; [|constructor]. split.
    + unfold in_world, WORLD_WIDTH, WORLD_HEIGHT. cbn [x y new_ship]. lra.
    + unfold clear_of_ship. cbn [x y new_ship]. left.
      replace (1000 - 400) with 600 by lra. rewrite Rabs_right; lra.
Defined.

Lemma try_positions_valid (n : nat) (walls : list Rect) (ww wh : Z) :
  forall g px py g',
    try_positions n walls ww wh g = (Some (px, py), g') ->
    existsb (colliderect (mkRect (px - 10) (py - 10) 20 20)) walls = false.
Proof.
  induction n as [|n IH]; intros g px py g' H; cbn [try_positions] in H.
  - discriminate H.
  - destruct (randint 100 (ww - 100) g) as [qx g1].
    destruct (randint 100 (wh - 100) g1) as [qy g2].
    destruct (existsb _ walls) eqn:E.
    + eapply IH; eauto.
    + inversion H; subst. exact E.
Qed.

(** X20.  The position [generate_valid_position] returns is free of every
    wall, in that the 20 by 20 rectangle around it overlaps none, or it is
    one of the four fallback positions, which are returned unchecked
    after 100 failed attempts. *)
Theorem spawn_position_is_free_or_fallback (walls : list Rect) (ww wh : Z) (g : Rng) :
  let '(px, py) := fst (generate_valid_position walls ww wh g) in
  Forall (fun wall => colliderect (mkRect (px - 10) (py - 10) 20 20) wall = false) walls
  \/ In (px, py) [(400, 400); (1600, 1600); (400, 1600); (1600, 400)]%Z.
Proof.
  unfold generate_valid_position.
  destruct (try_positions 100 walls ww wh g) as [[[px py]|] g'] eqn:E.
  - cbn [fst]. left. apply try_positions_valid in E.
    apply Forall_forall. intros w Hw.
    destruct (colliderect _ w) eqn:C; [|reflexivity].
    assert (existsb (colliderect (mkRect (px - 10) (py - 10) 20 20)) walls = true)
      by (apply existsb_exists; eauto).
    congruence.
  - unfold choice, random. cbn [fst].
    set (k := Z.to_nat _).
    destruct (nth k [(400, 400); (1600, 1600); (400, 1600); (1600, 400)]%Z (400, 400)%Z)
      as [px py] eqn:N.
    right. rewrite <- N.
    destruct k as [|[|[|[|k]]]]; cbn; auto.
    destruct k; cbn; auto.
Qed.

(** The ships after one bullet has been checked against them. *)
Lemma hit_ships_nth (b : Bullet) (todo : list SpaceObject) :
  forall (i : Z) (hit : bool) (score : list Z) (k : nat) (s : SpaceObject),
    nth_error todo k = Some s ->
    nth_error (fst (fst (hit_ships b i todo hit score))) k
    = Some (if negb (i + Z.of_nat k =? owner b)%Z && _collides b s
            then with_hp s (hp s - 10) else s).
Proof.
  induction todo as [|ship rest IH]; intros i hit score k s Hk.
  - destruct k; discriminate Hk.
  - cbn [hit_ships].
    destruct (negb (i =? owner b)%Z && _collides b ship) eqn:E.
    + destruct (hit_ships b (i + 1) rest true _) as [[rest' hit'] score''] eqn:H.
      cbn [fst]. destruct k as [|k].
      * cbn in Hk. inversion Hk; subst. cbn [nth_error].
        replace (i + Z.of_nat 0)%Z with i by lia. rewrite E. reflexivity.
      * cbn [nth_error] in *.
        match type of H with hit_ships _ _ _ _ ?sc = _ =>
          specialize (IH (i + 1)%Z true sc k s Hk) end.
        rewrite H in IH. cbn [fst] in IH. rewrite IH.
        replace (i + 1 + Z.of_nat k)%Z with (i + Z.of_nat (S k))%Z by lia. reflexivity.
    + destruct (hit_ships b (i + 1) rest hit score) as [[rest' hit'] score''] eqn:H.
      cbn [fst]. destruct k as [|k].
      * cbn in Hk. inversion Hk; subst. cbn [nth_error].
        replace (i + Z.of_nat 0)%Z with i by lia. rewrite E. reflexivity.
      * cbn [nth_error] in *. specialize (IH (i + 1)%Z hit score k s Hk).
        rewrite H in IH. cbn [fst] in IH. rewrite IH.
        replace (i + 1 + Z.of_nat k)%Z with (i + Z.of_nat (S k))%Z by lia. reflexivity.
Qed.

(** X21.  A bullet takes exactly 10 hit points from every ship within 15
    units of it other than the ship at the index of its owner, and
    nothing from any other ship: no ship is hit by its own bullet, and no
    ship gains hit points. *)
Theorem bullet_damage (b : Bullet) (ships : list SpaceObject) (hit : bool) (score : list Z)
    (k : nat) (s : SpaceObject) :
  nth_error ships k = Some s ->
  let s' := if negb (Z.of_nat k =? owner b)%Z && _collides b s
            then with_hp s (hp s - 10) else s in
  nth_error (fst (fst (hit_ships b 0 ships hit score))) k = Some s'
  /\ (Z.of_nat k = owner b -> s' = s)
  /\ (hp s - 10 <= hp s' <= hp s)%Z.
Proof.
  intros Hk s'. split; [|split].
  - rewrite (hit_ships_nth b ships 0 hit score k s Hk). reflexivity.
  - intros Ho. subst s'. rewrite Ho, Z.eqb_refl. reflexivity.
  - subst s'. destruct (negb _ && _); cbn [hp with_hp]; lia.
Qed.

Lemma bullet_damage_witness :
  let b := mkBullet 100 0 0 0 60 15 0 in
  let ships := [new_ship 0 0 0 100; new_ship 100 0 0 100] in
  nth_error (fst (fst (hit_ships b 0 ships false [0; 0]%Z))) 0
  = Some (new_ship 0 0 0 100).
Proof.
  cbv zeta.
  destruct (bullet_damage (mkBullet 100 0 0 0 60 15 0)
              [new_ship 0 0 0 100; new_ship 100 0 0 100] false [0; 0]%Z
              0 (new_ship 0 0 0 100) eq_refl) as (Hnth & _ & _).
  rewrite Hnth. reflexivity.
Defined.

Lemma add_player_score_0 (score : list Z) : add_player_score 0 score = score.
Proof. destruct score; cbn; [reflexivity|]. f_equal. lia. Qed.

Lemma add_player_score_add (a b : Z) (score : list Z) :
  add_player_score a (add_player_score b score) = add_player_score (b + a) score.
Proof. destruct score; cbn; [reflexivity|]. f_equal. lia. Qed.

(** The second loop of [update]: the score and the bullets it keeps. *)
Lemma resolve_bullets_spec (walls : list Rect) (todo : list Bullet) :
  forall (ships : list SpaceObject) (score : list Z) (new_bullets : list Bullet),
  exists (k : Z) (kept : list Bullet),
    (0 <= k <= Z.of_nat (List.length todo))%Z
    /\ snd (fst (resolve_bullets walls todo ships score new_bullets))
       = add_player_score (10 * k) score
    /\ snd (resolve_bullets walls todo ships score new_bullets) = new_bullets ++ kept
    /\ Forall (fun b => In b todo /\ (0 < lifespan b)%Z) kept
    /\ (List.length kept <= List.length todo)%nat.
Proof.
  induction todo as [|bullet rest IH]; intros ships score new_bullets.
  - exists 0%Z, []. cbn. rewrite add_player_score_0, app_nil_r.
    repeat split; try lia. constructor.
  - cbn [resolve_bullets].
    set (hit_wall := existsb _ walls).
    pose proof (UpdateFacts.hit_ships_score bullet ships hit_wall score) as [Hs _].
    destruct (hit_ships bullet 0 ships hit_wall score) as [[ships' hit] score'] eqn:H.
    cbn [snd] in Hs.
    set (nb := if negb hit && (0 <? lifespan bullet)%Z then new_bullets ++ [bullet]
               else new_bullets).
    destruct (IH ships' score' nb) as (k & kept & Hk & Hsc & Hnb & Hkept & Hlen).
    assert (Hkept' : Forall (fun b => In b (bullet :: rest) /\ (0 < lifespan b)%Z) kept).
    { eapply Forall_impl; [|exact Hkept]. cbn. intros b [? ?]. auto. }
    destruct (negb hit && (0 <? lifespan bullet)%Z) eqn:E.
    + apply andb_prop in E as [_ E]. apply Z.ltb_lt in E.
      exists (k + (if enemy_killed_by bullet ships then 1 else 0))%Z, (bullet :: kept).
      split; [destruct (enemy_killed_by _ _); cbn [List.length]; lia|].
      split.
      { rewrite Hsc, Hs. destruct (enemy_killed_by _ _).
        - rewrite add_player_score_add. f_equal. lia.
        - f_equal. lia. }
      split; [rewrite Hnb; subst nb; now rewrite <- app_assoc|].
      split; [constructor; [split; [now left|exact E]|exact Hkept']|].
      cbn [List.length]. lia.
    + exists (k + (if enemy_killed_by bullet ships then 1 else 0))%Z, kept.
      split; [destruct (enemy_killed_by _ _); cbn [List.length]; lia|].
      split.
      { rewrite Hsc, Hs. destruct (enemy_killed_by _ _).
        - rewrite add_player_score_add. f_equal. lia.
        - f_equal. lia. }
      split; [rewrite Hnb; subst nb; reflexivity|].
      split; [exact Hkept'|]. cbn [List.length]. lia.
Qed.

(** X22.  On the score the engine has (a player entry followed by the
    others), [update] only ever adds to the player entry, 10 points at a
    time and at most once per bullet; the other entries, the enemy's among
    them, stay as they are. *)
Theorem score_only_grows_for_player (walls : list Rect) (g : Rng) (e : GameEngine)
    (s0 : Z) (rest : list Z) :
  score e = s0 :: rest ->
  exists k : Z,
    (0 <= k <= Z.of_nat (List.length (bullets e)))%Z
    /\ score (fst (update walls g e)) = (s0 + 10 * k)%Z :: rest.
Proof.
  intros Hscore. unfold update.
  destruct (update_ships walls 0 [] (ships e) [] g) as [[kept new_ships] g'].
  destruct (resolve_bullets_spec walls (map bullet_update (bullets e)) (kept ++ new_ships)
              (score e) []) as (k & kb & Hk & Hsc & _).
  destruct (resolve_bullets walls _ _ _ _) as [[ships2 score'] new_bullets].
  cbn [fst snd score] in *. rewrite length_map in Hk.
  exists k. split; [exact Hk|].
  rewrite Hsc, Hscore. reflexivity.
Qed.

Lemma score_only_grows_for_player_witness :
  exists k : Z,
    (0 <= k <= Z.of_nat (List.length (bullets (mkEngine [] [] [0; 0]%Z))))%Z
    /\ score (fst (update [] (mkRng (fun _ => 0) 0) (mkEngine [] [] [0; 0]%Z)))
       = (0 + 10 * k)%Z :: [0%Z].
Proof.
  apply (score_only_grows_for_player [] (mkRng (fun _ => 0) 0) (mkEngine [] [] [0; 0]%Z)
           0%Z [0%Z]).
  reflexivity.
Defined.

(** X23.  Every bullet [update] keeps is one of the old bullets moved by
    one step, is inside the world and has at least one frame of lifespan
    left; [update] never adds a bullet. *)
Theorem surviving_bullets_are_in_flight (walls : list Rect) (g : Rng) (e : GameEngine) :
  Forall (fun b' => in_flight b' /\ exists b, In b (bullets e) /\ b' = bullet_update b)
    (bullets (fst (update walls g e)))
  /\ (List.length (bullets (fst (update walls g e))) <= List.length (bullets e))%nat.
Proof.
  unfold update.
  destruct (update_ships walls 0 [] (ships e) [] g) as [[kept new_ships] g'].
  destruct (resolve_bullets_spec walls (map bullet_update (bullets e)) (kept ++ new_ships)
              (score e) []) as (k & kb & _ & _ & Hnb & Hkept & Hlen).
  destruct (resolve_bullets walls _ _ _ _) as [[ships2 score'] new_bullets].
  cbn [fst snd bullets] in *. subst new_bullets. rewrite length_map in Hlen.
  split.
  - apply Forall_forall. intros b' Hb'. apply filter_In in Hb' as [Hin Hon].
    rewrite Forall_forall in Hkept. destruct (Hkept b' Hin) as [Hmoved Hlife].
    apply in_map_iff in Hmoved as (b & Hb & Hbin).
    split; [|exists b; auto].
    unfold is_offscreen in Hon. apply negb_true_iff in Hon.
    apply orb_false_iff in Hon as [Hon _]. apply negb_false_iff in Hon.
    apply andb_prop in Hon as [Hx Hy].
    apply andb_prop in Hx as [Hx1 Hx2]. apply andb_prop in Hy as [Hy1 Hy2].
    apply Rleb_true in Hx1, Hx2, Hy1, Hy2.
    unfold in_flight. repeat split; assumption.
  - etransitivity; [apply filter_length_le|]. exact Hlen.
Qed.

End PhysicsFacts.

(* ================================================================== *)
(** ** The enemies: patrol phases, pursuit and fire *)
(* ================================================================== *)

Module EnemyFacts.
Import Engine.

(** *** One call of [patrol_movement], stage by stage *)

Ltac patrol_norm :=
  cbv beta iota
    delta [thrust rotate set_state with_patrol with_motion with_angle
           uniform randint choice random
           x y angle vx vy hp patrol_state patrol_timer patrol_turn_target patrol_direction
           fst snd draws cursor].

(** Splits on the first condition that is ready, or else substitutes the
    first local assignment. *)
Ltac patrol_step :=
  match goal with
  | |- context [if ?c then _ else _] =>
      lazymatch c with
      | context [if _ then _ else _] => fail
      | true => fail
      | false => fail
      | _ => let E := fresh "E" in destruct c eqn:E
      end
  | |- context C [let v := ?a in @?b v] =>
      let a' := eval cbv beta iota zeta
                  delta [thrust rotate set_state with_patrol with_motion with_angle
                         uniform randint choice random
                         x y angle vx vy hp patrol_state patrol_timer patrol_turn_target
                         patrol_direction fst snd draws cursor] in a in
      let g := context C [b a'] in change g
  end.

Ltac bools :=
  repeat match goal with
  | H : (_ || _) = false |- _ => apply orb_false_iff in H; destruct H
  | H : (_ && _) = true |- _ => apply andb_prop in H; destruct H
  | H : (_ <? _)%Z = true |- _ => apply Z.ltb_lt in H
  | H : (_ <? _)%Z = false |- _ => apply Z.ltb_ge in H
  | H : negb _ = true |- _ => apply negb_true_iff in H
  | H : negb _ = false |- _ => apply negb_false_iff in H
  end.

Ltac patrol_walk :=
  patrol_norm; repeat (patrol_step; patrol_norm);
  cbv beta iota zeta
    delta [x y angle vx vy hp patrol_state patrol_timer patrol_turn_target patrol_direction
           fst snd draws cursor] in *.

(** The probe reads the position and the heading only. *)
Lemma wall_ahead_patrol (enemy : SpaceObject) (walls : list Rect) state timer target direction :
  wall_ahead (with_patrol enemy state timer target direction) walls = wall_ahead enemy walls.
Proof. reflexivity. Qed.

Lemma patrol_movement_frame (enemy : SpaceObject) (walls : list Rect) (g : Rng) :
  let '(enemy', ahead, _) := patrol_movement enemy walls g in
  ahead = wall_ahead enemy walls
  /\ x enemy' = x enemy /\ y enemy' = y enemy /\ hp enemy' = hp enemy.
Proof.
  unfold patrol_movement. rewrite wall_ahead_patrol.
  generalize (wall_ahead enemy walls) as ahead. intros ahead.
  destruct enemy as [ex ey ea evx evy ehp st tm tgt dir].
  destruct st; patrol_walk; repeat split; reflexivity.
Qed.

(** X24.  Whatever state the enemy is in, after one call of
    [patrol_movement] it has not moved and has lost no hit points (the
    call only steers), the returned flag is the look-ahead probe, and the
    timed phases are bounded: an enemy left in TURNING has a timer of at
    most 120 and an enemy left in WALL_AVOID a timer of at most 90. *)
Theorem patrol_phases_are_bounded (enemy : SpaceObject) (walls : list Rect) (g : Rng) :
  let '(enemy', ahead, _) := patrol_movement enemy walls g in
  ahead = wall_ahead enemy walls
  /\ x enemy' = x enemy /\ y enemy' = y enemy /\ hp enemy' = hp enemy
  /\ (patrol_state enemy' = PATROL_STATE_TURNING -> (patrol_timer enemy' <= 120)%Z)
  /\ (patrol_state enemy' = PATROL_STATE_WALL_AVOID -> (patrol_timer enemy' <= 90)%Z).
Proof.
  unfold patrol_movement. rewrite wall_ahead_patrol.
  generalize (wall_ahead enemy walls) as ahead. intros ahead.
  destruct enemy as [ex ey ea evx evy ehp st tm tgt dir].
  destruct st; patrol_walk; repeat split; try reflexivity;
    intros H; try discriminate H; bools; lia.
Qed.

(** When the probe finds a wall, the enemy is left in WALL_AVOID, unless
    it was there already and its time ran out. *)
Lemma wall_report_cases (enemy : SpaceObject) (walls : list Rect) (g : Rng) :
  let '(enemy', ahead, _) := patrol_movement enemy walls g in
  ahead = false
  \/ patrol_state enemy' = PATROL_STATE_WALL_AVOID
  \/ (patrol_state enemy = PATROL_STATE_WALL_AVOID
      /\ (90 <= patrol_timer enemy)%Z
      /\ patrol_state enemy' = PATROL_STATE_TURNING
      /\ patrol_timer enemy' = 0%Z
      /\ patrol_turn_target enemy' = 180).
Proof.
  unfold patrol_movement. rewrite wall_ahead_patrol.
  generalize (wall_ahead enemy walls) as ahead. intros ahead.
  destruct enemy as [ex ey ea evx evy ehp st tm tgt dir].
  destruct ahead; [|destruct st; patrol_walk; left; reflexivity].
  destruct st; patrol_walk; bools;
    try (right; left; reflexivity);
    right; right; repeat split; try reflexivity; lia.
Qed.

Lemma patrol_keeps_unit_direction (enemy : SpaceObject) (walls : list Rect) (g : Rng) :
  unit_direction enemy ->
  unit_direction (fst (fst (patrol_movement enemy walls g))).
Proof.
  unfold unit_direction, patrol_movement. rewrite wall_ahead_patrol.
  generalize (wall_ahead enemy walls) as ahead. intros ahead.
  destruct enemy as [ex ey ea evx evy ehp st tm tgt dir].
  cbn [patrol_direction]. intros Hd.
  destruct st; patrol_walk;
    try (left; reflexivity); try (right; reflexivity); try exact Hd; lia.
Qed.

(** X25.  [patrol_direction] stays one of 1 and -1 through any number of
    calls of [patrol_movement], as it is for a new ship. *)
Theorem patrol_direction_stays_unit (n : nat) (enemy : SpaceObject) (walls : list Rect)
    (g : Rng) :
  unit_direction enemy ->
  unit_direction (fst (patrol_run n enemy walls g)).
Proof.
  intros Hd. induction n as [|n IH]; [exact Hd|].
  cbn [patrol_run].
  destruct (patrol_run n enemy walls g) as [e g1]. cbn [fst] in IH.
  pose proof (patrol_keeps_unit_direction e walls g1 IH) as H.
  destruct (patrol_movement e walls g1) as [[e' a] g2]. exact H.
Qed.

Lemma patrol_direction_stays_unit_witness :
  unit_direction (fst (patrol_run 3 (new_ship 0 0 0 100) [] (mkRng (fun _ => 0) 0))).
Proof.
  apply patrol_direction_stays_unit. left. reflexivity.
Defined.

(** X26.  One call in TURNING with no wall ahead turns by
    [min(2, 0.1 * |target|)] degrees in the patrol direction and takes
    that much off the turn target.  The remaining turn shrinks only when
    the direction has the sign of the target; when it has the opposite
    sign (as after a wall avoidance that ended with direction -1 and the
    target reset to 180) the remaining turn grows by the same amount.
    The enemy goes back to
    FORWARD exactly when the remaining turn is below 5 degrees or the
    timer has passed 120. *)
Theorem turning_closes_in_only_along_direction (enemy : SpaceObject) (walls : list Rect)
    (g : Rng) :
  patrol_state enemy = PATROL_STATE_TURNING ->
  wall_ahead enemy walls = false ->
  unit_direction enemy ->
  let target := patrol_turn_target enemy in
  let direction := IZR (patrol_direction enemy) in
  let turn_amount := Rmin 2 (Rabs target * 0.1) in
  let '(enemy', _, _) := patrol_movement enemy walls g in
  patrol_turn_target enemy' = target - turn_amount * direction
  /\ (0 <= target * direction -> Rabs (patrol_turn_target enemy') = Rabs target - turn_amount)
  /\ (target * direction < 0 -> Rabs (patrol_turn_target enemy') = Rabs target + turn_amount)
  /\ (patrol_state enemy' = PATROL_STATE_FORWARD
      <-> Rabs (patrol_turn_target enemy') < 5 \/ (120 < patrol_timer enemy + 1)%Z).
Proof.
  intros Hstate Hclear Hdir. unfold patrol_movement. rewrite wall_ahead_patrol, Hclear.
  destruct enemy as [ex ey ea evx evy ehp st tm tgt dir].
  cbn [patrol_state] in Hstate. subst st.
  unfold unit_direction in Hdir. cbn [patrol_direction] in Hdir.
  cbv zeta. cbn [patrol_turn_target patrol_direction patrol_timer].
  replace 2.0 with 2 by lra.
  set (step := Rmin 2 (Rabs tgt * 0.1)).
  assert (Hstep : 0 <= step <= Rabs tgt * 0.1 /\ step <= Rabs tgt).
  { subst step. pose proof (Rabs_pos tgt). unfold Rmin.
    destruct (Rle_dec 2 (Rabs tgt * 0.1)); lra. }
  assert (Hnew : forall d : R, (d = 1 \/ d = -1) ->
            (0 <= tgt * d -> Rabs (tgt - step * d) = Rabs tgt - step)
            /\ (tgt * d < 0 -> Rabs (tgt - step * d) = Rabs tgt + step)).
  { intros d Hd. unfold Rabs in *.
    destruct (Rcase_abs tgt); destruct (Rcase_abs (tgt - step * d));
      destruct Hd; subst d; split; intros; try lra. }
  assert (Hd : IZR dir = 1 \/ IZR dir = -1)
    by (destruct Hdir as [-> | ->]; [left|right]; reflexivity).
  destruct (Hnew (IZR dir) Hd) as [Hin Hout].
  patrol_walk; bools;
    (split; [reflexivity|]); (split; [exact Hin|]); (split; [exact Hout|]);
    split; intros Hq; try reflexivity; try discriminate Hq.
  - apply orb_prop in E as [E|E]; [left; apply Rltb_true in E; exact E|right].
    apply Z.ltb_lt in E. exact E.
  - exfalso.
    match goal with H : Rltb _ 5 = false |- _ => apply Rltb_false in H end.
    destruct Hq as [Hq|Hq]; [lra|lia].
Qed.

Lemma turning_closes_in_only_along_direction_witness :
  let enemy := with_patrol (new_ship 0 0 0 100) PATROL_STATE_TURNING 0 180 (-1) in
  patrol_turn_target (fst (fst (patrol_movement enemy [] (mkRng (fun _ => 0) 0))))
  = 180 - Rmin 2 (Rabs 180 * 0.1) * IZR (-1).
Proof.
  cbv zeta.
  pose proof (turning_closes_in_only_along_direction
                (with_patrol (new_ship 0 0 0 100) PATROL_STATE_TURNING 0 180 (-1))
                [] (mkRng (fun _ => 0) 0) eq_refl eq_refl (or_intror eq_refl)) as H.
  cbv zeta in H.
  destruct (patrol_movement _ [] _) as [[enemy' ahead] g'].
  exact (proj1 H).
Defined.

(** *** Fire *)

(** X27.  [shoot] adds exactly one bullet, owned by the ship at the given
    index, with a lifespan of 60 frames and a speed of 15 units a frame.
    The bullet is placed 15 units ahead of the ship; [update] moves every
    bullet before it tests it, and after that first move the bullet is 30
    units from where the ship fired, twice the hit radius of [_collides],
    so that the first test cannot find it on a ship standing there. *)
Theorem shot_leaves_the_hit_radius (ship_index : Z) (e : GameEngine) (ship : SpaceObject) :
  Py.index_list (ships e) ship_index = Some ship ->
  exists b,
    shoot ship_index e = Py.Ok (mkEngine (ships e) (bullets e ++ [b]) (score e))
    /\ owner b = ship_index /\ lifespan b = 60%Z
    /\ hypot (bullet_x b - x ship) (bullet_y b - y ship) = 15
    /\ hypot (bullet_vx b) (bullet_vy b) = 15
    /\ hypot (bullet_x (bullet_update b) - x ship) (bullet_y (bullet_update b) - y ship) = 30
    /\ _collides (bullet_update b) ship = false.
Proof.
  intros Hship. unfold shoot. rewrite Hship.
  eexists. split; [reflexivity|].
  unfold new_bullet, _collides.
  cbn [owner lifespan bullet_x bullet_y bullet_vx bullet_vy bullet_update].
  set (r := radians (angle ship)).
  assert (H30 : hypot (x ship + cos r * 15 + cos r * 15 - x ship)
                  (y ship + sin r * 15 + sin r * 15 - y ship) = 30).
  { replace (x ship + cos r * 15 + cos r * 15 - x ship) with (cos r * 30) by ring.
    replace (y ship + sin r * 15 + sin r * 15 - y ship) with (sin r * 30) by ring.
    apply hypot_heading. lra. }
  repeat split.
  - replace (x ship + cos r * 15 - x ship) with (cos r * 15) by ring.
    replace (y ship + sin r * 15 - y ship) with (sin r * 15) by ring.
    apply hypot_heading. lra.
  - apply hypot_heading. lra.
  - exact H30.
  - rewrite H30. apply Rltb_false. lra.
Qed.

Lemma shot_leaves_the_hit_radius_witness :
  exists b,
    shoot 0 (mkEngine [new_ship 400 400 0 100] [] [0; 0]%Z)
    = Py.Ok (mkEngine [new_ship 400 400 0 100] ([] ++ [b]) [0; 0]%Z)
    /\ owner b = 0%Z /\ lifespan b = 60%Z
    /\ hypot (bullet_x b - x (new_ship 400 400 0 100))
         (bullet_y b - y (new_ship 400 400 0 100)) = 15
    /\ hypot (bullet_vx b) (bullet_vy b) = 15
    /\ hypot (bullet_x (bullet_update b) - x (new_ship 400 400 0 100))
         (bullet_y (bullet_update b) - y (new_ship 400 400 0 100)) = 30
    /\ _collides (bullet_update b) (new_ship 400 400 0 100) = false.
Proof.
  apply (shot_leaves_the_hit_radius 0 (mkEngine [new_ship 400 400 0 100] [] [0; 0]%Z)
           (new_ship 400 400 0 100)).
  reflexivity.
Defined.

(** *** Sight and pursuit *)

(** X28.  A player less than 20 units away is always seen: the line of
    sight is then cut into at most one step, the loop over
    [range(1, steps)] is empty and no wall is looked at, not even one
    that stands between the two ships. *)
Theorem close_player_is_always_seen (enemy player : SpaceObject) (walls : list Rect) :
  hypot (x player - x enemy) (y player - y enemy) < 20 ->
  can_see_player enemy player walls = true.
Proof.
  intros Hd. unfold can_see_player.
  set (d := hypot _ _) in *.
  assert (H0 : 0 <= d) by (apply sqrt_pos).
  assert (Hs : (truncate (d / 10) < 2)%Z) by (apply truncate_small; lra).
  unfold range.
  replace (Z.to_nat (truncate (d / 10) - 1)) with 0%nat by lia.
  reflexivity.
Qed.

Lemma close_player_is_always_seen_witness :
  can_see_player (new_ship 0 0 0 100) (new_ship 10 0 0 100) [mkRect 4 (-5) 2 10] = true.
Proof.
  apply close_player_is_always_seen.
  cbn [x y new_ship]. replace (0 - 0) with 0 by lra.
  rewrite hypot_axis_x; lra.
Defined.

(** A wall on the line of sight of a player 30 units away hides it. *)
Example wall_between_blocks_the_view :
  can_see_player (new_ship 0 0 0 100) (new_ship 30 0 0 100) [mkRect 8 (-2) 4 4] = false.
Proof.
  unfold can_see_player. cbn [x y new_ship].
  replace (30 - 0) with 30 by lra. replace (0 - 0) with 0 by lra.
  rewrite hypot_axis_x by lra.
  replace (30 / 10) with (IZR 3) by lra. rewrite truncate_IZR.
  replace (range 1 3) with [1; 2]%Z by (vm_compute; reflexivity).
  cbn [forallb].
  unfold Rect_of.
  replace (0 + 30 * (1 / 3) - 5) with (IZR 5) by lra.
  replace (0 + 0 * (1 / 3) - 5) with (IZR (-5)) by lra.
  rewrite !truncate_IZR.
  replace (existsb (colliderect (mkRect 5 (-5) 10 10)) [mkRect 8 (-2) 4 4]) with true
    by (symmetry; vm_compute; reflexivity).
  reflexivity.
Qed.

(** [chase_player] turns by a tenth of the signed angle to the player and
    thrusts by 0.3 along the new heading. *)
Lemma chase_player_spec (enemy player : SpaceObject) :
  let enemy' := chase_player enemy player in
  x enemy' = x enemy /\ y enemy' = y enemy /\ hp enemy' = hp enemy
  /\ 0 <= angle enemy' < 360
  /\ (exists turn, -18 < turn <= 18 /\ angle enemy' = py_mod (angle enemy + turn) 360)
  /\ (vx enemy' - vx enemy) ^ 2 + (vy enemy' - vy enemy) ^ 2 = 0.3 ^ 2.
Proof.
  unfold chase_player.
  set (a := Server.degrees _ - angle enemy + 360).
  pose proof (signed_difference_range a) as Hr. cbv zeta in Hr.
  set (d := if Rltb 180 (py_mod a 360) then py_mod a 360 - 360 else py_mod a 360) in *.
  cbv zeta. unfold thrust, rotate.
  cbn [x y hp angle vx vy with_motion with_angle].
  repeat split.
  - apply py_mod_range; lra.
  - apply py_mod_range; lra.
  - exists (d * 0.1). split; [lra|reflexivity].
  - set (r := radians _).
    pose proof (sin2_cos2 r) as H. unfold Rsqr in H.
    replace ((vx enemy + cos r * 0.3 - vx enemy) ^ 2 + (vy enemy + sin r * 0.3 - vy enemy) ^ 2)
      with ((sin r * sin r + cos r * cos r) * 0.3 ^ 2) by ring.
    rewrite H. ring.
Qed.

Lemma avoid_walls_frame (ship : SpaceObject) (walls : list Rect) :
  x (fst (avoid_walls ship walls)) = x ship
  /\ y (fst (avoid_walls ship walls)) = y ship
  /\ hp (fst (avoid_walls ship walls)) = hp ship.
Proof.
  unfold avoid_walls. destruct (find _ walls); [|repeat split].
  destruct (Rltb 180 _); repeat split.
Qed.

(** X29.  [chase_and_shoot] fires for the enemy exactly when
    [can_see_player] holds and the draw falls below 0.02; an enemy that
    does not see the player never fires.  The call never moves the enemy
    and never changes its hit points, and an enemy that sees the player
    turns by at most 18 degrees. *)
Theorem enemy_fires_only_on_sight (enemy player : SpaceObject) (walls : list Rect) (g : Rng) :
  let '(enemy', shot, _) := chase_and_shoot enemy player walls g in
  (shot = true <-> can_see_player enemy player walls = true /\ draws g (cursor g) < 0.02)
  /\ x enemy' = x enemy /\ y enemy' = y enemy /\ hp enemy' = hp enemy
  /\ (can_see_player enemy player walls = true ->
      exists turn, -18 < turn <= 18 /\ angle enemy' = py_mod (angle enemy + turn) 360).
Proof.
  unfold chase_and_shoot.
  destruct (can_see_player enemy player walls).
  - unfold random.
    pose proof (chase_player_spec enemy player) as (Hx & Hy & Hhp & _ & Hturn & _).
    split; [|auto].
    split.
    + intros H. apply Rltb_true in H. auto.
    + intros [_ H]. apply Rltb_true. exact H.
  - pose proof (patrol_movement_frame enemy walls g) as Hf.
    destruct (patrol_movement enemy walls g) as [[e' ahead] g'].
    destruct Hf as (_ & Hx & Hy & Hhp).
    split; [split; [intros H; discriminate H|intros [H _]; discriminate H]|].
    destruct (ahead && negb (is_wall_avoid (patrol_state e'))).
    + destruct (avoid_walls_frame e' walls) as (Ax & Ay & Ahp).
      rewrite Ax, Ay, Ahp. repeat split; auto. intros H; discriminate H.
    + repeat split; auto. intros H; discriminate H.
Qed.

(** X30.  The backup [avoid_walls] of [chase_and_shoot] can change
    something in one case only.  For an enemy that does not see the player, unless it
    is in WALL_AVOID with a timer of 90 or more and a wall ahead (the
    call at which the avoidance times out into TURNING),
    [chase_and_shoot] does exactly what [patrol_movement] does. *)
Theorem backup_avoidance_only_after_timeout (enemy player : SpaceObject)
    (walls : list Rect) (g : Rng) :
  can_see_player enemy player walls = false ->
  (patrol_state enemy <> PATROL_STATE_WALL_AVOID \/ (patrol_timer enemy < 90)%Z
   \/ wall_ahead enemy walls = false) ->
  chase_and_shoot enemy player walls g
  = (let '(enemy', _, g') := patrol_movement enemy walls g in (enemy', false, g')).
Proof.
  intros Hsee Hcase. unfold chase_and_shoot. rewrite Hsee.
  pose proof (wall_report_cases enemy walls g) as Hw.
  pose proof (patrol_movement_frame enemy walls g) as Hf.
  destruct (patrol_movement enemy walls g) as [[e' ahead] g'].
  destruct Hf as (Ha & _).
  destruct Hw as [Hw | [Hw | (Hs & Ht & _)]].
  - rewrite Hw. reflexivity.
  - rewrite Hw. cbn [is_wall_avoid negb]. rewrite andb_false_r. reflexivity.
  - destruct Hcase as [Hc | [Hc | Hc]].
    + contradiction.
    + lia.
    + rewrite Ha, Hc. reflexivity.
Qed.

Lemma backup_avoidance_only_after_timeout_witness :
  chase_and_shoot (new_ship 0 0 0 100) (new_ship 30 0 0 100) [mkRect 8 (-2) 4 4]
    (mkRng (fun _ => 1 / 2) 0)
  = (let '(enemy', _, g') :=
       patrol_movement (new_ship 0 0 0 100) [mkRect 8 (-2) 4 4]
         (mkRng (fun _ => 1 / 2) 0) in
     (enemy', false, g')).
Proof.
  apply backup_avoidance_only_after_timeout.
  - exact wall_between_blocks_the_view.
  - left. cbn [patrol_state new_ship]. discriminate.
Defined.

End EnemyFacts.
